(** * Asteroids-Studio: the per-frame simulation and collision engine

    A shallow embedding of [utils/gameMath.ts], [types.ts] and the game
    loop of the [AsteroidsGame] component, with the properties of the
    specification stated over it.

    Numbers.  A JavaScript [number] is modelled as an exact rational
    ([Q]): finite values only, no rounding, no [NaN], no infinities.
    Comparisons are the boolean ones of the code ([<], [<=], [>]).
    [Math.PI] is the rational value of the double the host provides.
    Where rounding decides what a function of [utils/gameMath.ts]
    returns, or whether it returns, the function is also given over
    binary64 ([Binary64]) and the property is stated there.
    [Math.cos], [Math.sin], [Math.atan2] and the draws of [Math.random]
    are supplied by the host and are parameters of the game loop;
    [Date.now()] and the frame timestamp are inputs of each event.

    State.  The [useRef] cells and the [useState] cells are the fields of
    one record, threaded through the frame in program order.  A state
    setter writes its cell when it is called, and an updater function runs
    on the value the cell then holds, at the call (React may also run it
    when it next renders, after the rest of the frame).  What a closure
    reads of the [useState] cells is the render it was created in, which
    is passed to the frame as a separate argument.  Callbacks handed to
    [setTimeout] are queued in the state and may come due in any order.

    Left out of the game loop: drawing on the canvas and the call of the
    commentary service ([fetchAiCommentary], which only writes the message
    shown), and the loading of the leaderboard from the storage.  The
    service itself ([services/geminiService.ts]) is modelled on its own,
    after the leaderboard. *)

From Stdlib Require Import ZArith QArith Qabs Qround Qminmax Lqa Lia List Bool String.
From Stdlib Require Import Sorted Permutation DecimalString.
From Stdlib Require Floats.
Import ListNotations.

Local Open Scope Q_scope.

(* ================================================================== *)
(** ** Numbers *)

Module Num.

(** [x < y] of the source, as a boolean. *)
Definition ltb (x y : Q) : bool :=
  (Qnum x * QDen y <? Qnum y * QDen x)%Z.

(** [x <= y] of the source. *)
Definition leb (x y : Q) : bool := Qle_bool x y.

(** [x > y] is [y < x]. *)
Definition gtb (x y : Q) : bool := ltb y x.

(** [Math.min]. *)
Definition min (x y : Q) : Q := if ltb y x then y else x.

End Num.

(* ================================================================== *)
(** ** types.ts *)

Record Point : Set := mkPoint { px : Q; py : Q }.

(** [Velocity] has the shape of [Point]. *)
Definition Velocity : Set := Point.

(** An [id] is ['hero'], ['ufo'] or [Math.random().toString()], kept as
    the draw itself. *)
Inductive Id : Set :=
| IdHero
| IdUfo
| IdRandom (r : Q).

Record Entity : Set := mkEntity {
  id : Id;
  position : Point;
  velocity : Velocity;
  angle : Q;
  radius : Q;
  color : string;
  dead : bool
}.

Definition with_id (v : Id) (e : Entity) : Entity :=
  {| id := v; position := position e; velocity := velocity e;
     angle := angle e; radius := radius e; color := color e;
     dead := dead e |}.

Definition with_position (v : Point) (e : Entity) : Entity :=
  {| id := id e; position := v; velocity := velocity e; angle := angle e;
     radius := radius e; color := color e; dead := dead e |}.

Definition with_velocity (v : Velocity) (e : Entity) : Entity :=
  {| id := id e; position := position e; velocity := v; angle := angle e;
     radius := radius e; color := color e; dead := dead e |}.

Definition with_angle (v : Q) (e : Entity) : Entity :=
  {| id := id e; position := position e; velocity := velocity e; angle := v;
     radius := radius e; color := color e; dead := dead e |}.

Definition with_radius (v : Q) (e : Entity) : Entity :=
  {| id := id e; position := position e; velocity := velocity e;
     angle := angle e; radius := v; color := color e; dead := dead e |}.

Definition with_color (v : string) (e : Entity) : Entity :=
  {| id := id e; position := position e; velocity := velocity e;
     angle := angle e; radius := radius e; color := v; dead := dead e |}.

Definition with_dead (v : bool) (e : Entity) : Entity :=
  {| id := id e; position := position e; velocity := velocity e;
     angle := angle e; radius := radius e; color := color e; dead := v |}.

(** What [extends Entity] gives every kind of entity. *)
Class IsEntity (T : Type) : Type := {
  entity : T -> Entity;
  withEntity : Entity -> T -> T
}.

Record Ship : Set := mkShip {
  shipEntity : Entity;
  rotationSpeed : Q;
  thrusting : bool;
  invulnerable : Q;
  cooldown : Q;
  powerupMultiShotTimer : Q;
  powerupShieldTimer : Q;
  powerupTimeSlowTimer : Q;
  missileAmmo : Z
}.

Definition with_shipEntity (v : Entity) (s : Ship) : Ship :=
  {| shipEntity := v; rotationSpeed := rotationSpeed s;
     thrusting := thrusting s; invulnerable := invulnerable s;
     cooldown := cooldown s;
     powerupMultiShotTimer := powerupMultiShotTimer s;
     powerupShieldTimer := powerupShieldTimer s;
     powerupTimeSlowTimer := powerupTimeSlowTimer s;
     missileAmmo := missileAmmo s |}.

Definition with_rotationSpeed (v : Q) (s : Ship) : Ship :=
  {| shipEntity := shipEntity s; rotationSpeed := v;
     thrusting := thrusting s; invulnerable := invulnerable s;
     cooldown := cooldown s;
     powerupMultiShotTimer := powerupMultiShotTimer s;
     powerupShieldTimer := powerupShieldTimer s;
     powerupTimeSlowTimer := powerupTimeSlowTimer s;
     missileAmmo := missileAmmo s |}.

Definition with_thrusting (v : bool) (s : Ship) : Ship :=
  {| shipEntity := shipEntity s; rotationSpeed := rotationSpeed s;
     thrusting := v; invulnerable := invulnerable s; cooldown := cooldown s;
     powerupMultiShotTimer := powerupMultiShotTimer s;
     powerupShieldTimer := powerupShieldTimer s;
     powerupTimeSlowTimer := powerupTimeSlowTimer s;
     missileAmmo := missileAmmo s |}.

Definition with_invulnerable (v : Q) (s : Ship) : Ship :=
  {| shipEntity := shipEntity s; rotationSpeed := rotationSpeed s;
     thrusting := thrusting s; invulnerable := v; cooldown := cooldown s;
     powerupMultiShotTimer := powerupMultiShotTimer s;
     powerupShieldTimer := powerupShieldTimer s;
     powerupTimeSlowTimer := powerupTimeSlowTimer s;
     missileAmmo := missileAmmo s |}.

Definition with_cooldown (v : Q) (s : Ship) : Ship :=
  {| shipEntity := shipEntity s; rotationSpeed := rotationSpeed s;
     thrusting := thrusting s; invulnerable := invulnerable s; cooldown := v;
     powerupMultiShotTimer := powerupMultiShotTimer s;
     powerupShieldTimer := powerupShieldTimer s;
     powerupTimeSlowTimer := powerupTimeSlowTimer s;
     missileAmmo := missileAmmo s |}.

Definition with_powerupMultiShotTimer (v : Q) (s : Ship) : Ship :=
  {| shipEntity := shipEntity s; rotationSpeed := rotationSpeed s;
     thrusting := thrusting s; invulnerable := invulnerable s;
     cooldown := cooldown s; powerupMultiShotTimer := v;
     powerupShieldTimer := powerupShieldTimer s;
     powerupTimeSlowTimer := powerupTimeSlowTimer s;
     missileAmmo := missileAmmo s |}.

Definition with_powerupShieldTimer (v : Q) (s : Ship) : Ship :=
  {| shipEntity := shipEntity s; rotationSpeed := rotationSpeed s;
     thrusting := thrusting s; invulnerable := invulnerable s;
     cooldown := cooldown s;
     powerupMultiShotTimer := powerupMultiShotTimer s;
     powerupShieldTimer := v; powerupTimeSlowTimer := powerupTimeSlowTimer s;
     missileAmmo := missileAmmo s |}.

Definition with_powerupTimeSlowTimer (v : Q) (s : Ship) : Ship :=
  {| shipEntity := shipEntity s; rotationSpeed := rotationSpeed s;
     thrusting := thrusting s; invulnerable := invulnerable s;
     cooldown := cooldown s;
     powerupMultiShotTimer := powerupMultiShotTimer s;
     powerupShieldTimer := powerupShieldTimer s; powerupTimeSlowTimer := v;
     missileAmmo := missileAmmo s |}.

Definition with_missileAmmo (v : Z) (s : Ship) : Ship :=
  {| shipEntity := shipEntity s; rotationSpeed := rotationSpeed s;
     thrusting := thrusting s; invulnerable := invulnerable s;
     cooldown := cooldown s;
     powerupMultiShotTimer := powerupMultiShotTimer s;
     powerupShieldTimer := powerupShieldTimer s;
     powerupTimeSlowTimer := powerupTimeSlowTimer s; missileAmmo := v |}.

Record Ufo : Set := mkUfo {
  ufoEntity : Entity;
  directionChangeTimer : Q;
  shootCooldown : Q;
  accuracy : Q
}.

Definition with_ufoEntity (v : Entity) (u : Ufo) : Ufo :=
  {| ufoEntity := v; directionChangeTimer := directionChangeTimer u;
     shootCooldown := shootCooldown u; accuracy := accuracy u |}.

Definition with_directionChangeTimer (v : Q) (u : Ufo) : Ufo :=
  {| ufoEntity := ufoEntity u; directionChangeTimer := v;
     shootCooldown := shootCooldown u; accuracy := accuracy u |}.

Definition with_shootCooldown (v : Q) (u : Ufo) : Ufo :=
  {| ufoEntity := ufoEntity u;
     directionChangeTimer := directionChangeTimer u; shootCooldown := v;
     accuracy := accuracy u |}.

Definition with_accuracy (v : Q) (u : Ufo) : Ufo :=
  {| ufoEntity := ufoEntity u;
     directionChangeTimer := directionChangeTimer u;
     shootCooldown := shootCooldown u; accuracy := v |}.

Inductive Size : Set := large | medium | small.

Record Asteroid : Set := mkAsteroid {
  asteroidEntity : Entity;
  size : Size;
  vertices : list Point;
  asteroidRotationSpeed : Q
}.

Inductive Owner : Set := OwnerShip | OwnerUfo.

Record Bullet : Set := mkBullet {
  bulletEntity : Entity;
  bulletLife : Q;
  owner : Owner
}.

Record Particle : Set := mkParticle {
  particleEntity : Entity;
  particleLife : Q;
  maxLife : Q;
  particleSize : Q
}.

Inductive PowerUpType : Set := MULTI_SHOT | SHIELD | TIME_SLOW | MISSILE.

Record PowerUp : Set := mkPowerUp {
  powerUpEntity : Entity;
  ptype : PowerUpType;
  powerUpLife : Q
}.

(** [targetId] is never written by the game and is left out. *)
Record Missile : Set := mkMissile {
  missileEntity : Entity;
  missileLife : Q
}.

Record HighScore : Set := mkHighScore {
  hsName : string;
  hsScore : Z;
  hsDate : Q
}.

Inductive GameState : Set :=
| MENU
| PLAYING
| GAME_OVER
| ENTER_INITIALS
| HIGH_SCORES
| LEVEL_TRANSITION.

#[export] Instance Ship_IsEntity : IsEntity Ship :=
  {| entity := shipEntity; withEntity := with_shipEntity |}.
#[export] Instance Ufo_IsEntity : IsEntity Ufo :=
  {| entity := ufoEntity; withEntity := with_ufoEntity |}.
#[export] Instance Asteroid_IsEntity : IsEntity Asteroid :=
  {| entity := asteroidEntity;
     withEntity := fun e a =>
       mkAsteroid e (size a) (vertices a) (asteroidRotationSpeed a) |}.
#[export] Instance Bullet_IsEntity : IsEntity Bullet :=
  {| entity := bulletEntity;
     withEntity := fun e b => mkBullet e (bulletLife b) (owner b) |}.
#[export] Instance Particle_IsEntity : IsEntity Particle :=
  {| entity := particleEntity;
     withEntity := fun e p =>
       mkParticle e (particleLife p) (maxLife p) (particleSize p) |}.
#[export] Instance PowerUp_IsEntity : IsEntity PowerUp :=
  {| entity := powerUpEntity;
     withEntity := fun e p => mkPowerUp e (ptype p) (powerUpLife p) |}.
#[export] Instance Missile_IsEntity : IsEntity Missile :=
  {| entity := missileEntity;
     withEntity := fun e m => mkMissile e (missileLife m) |}.

(** Field access and in-place writes through [extends Entity]. *)
Definition pos {T} `{IsEntity T} (x : T) : Point := position (entity x).
Definition vel {T} `{IsEntity T} (x : T) : Velocity := velocity (entity x).
Definition rad {T} `{IsEntity T} (x : T) : Q := radius (entity x).
Definition isDead {T} `{IsEntity T} (x : T) : bool := dead (entity x).

Definition setPos {T} `{IsEntity T} (p : Point) (x : T) : T :=
  withEntity (with_position p (entity x)) x.
Definition setVel {T} `{IsEntity T} (v : Velocity) (x : T) : T :=
  withEntity (with_velocity v (entity x)) x.
Definition setAngle {T} `{IsEntity T} (a : Q) (x : T) : T :=
  withEntity (with_angle a (entity x)) x.
(** [x.dead = true]. *)
Definition kill {T} `{IsEntity T} (x : T) : T :=
  withEntity (with_dead true (entity x)) x.

(** [x.position.x += x.velocity.x * dt; x.position.y += x.velocity.y * dt]. *)
Definition advance {T} `{IsEntity T} (dt : Q) (x : T) : T :=
  setPos {| px := px (pos x) + px (vel x) * dt;
            py := py (pos x) + py (vel x) * dt |} x.

(** [arr.filter(x => !x.dead)]. *)
Definition purge {T} `{IsEntity T} (l : list T) : list T :=
  filter (fun x => negb (isDead x)) l.

(* ================================================================== *)
(** ** utils/gameMath.ts *)

Module GameMath.

(** [Math.PI]: the double 3.141592653589793, exactly. *)
Definition Math_PI : Q := 884279719003555 # 281474976710656.

Definition DEG_TO_RAD : Q := Math_PI / 180.

(** [randomRange(min, max)] given the draw [r] of [Math.random()],
    computed exactly. *)
Definition randomRange (r : Q) (min max : Q) : Q := r * (max - min) + min.

(** [rotatePoint], with the host's cosine and sine. *)
Definition rotatePoint (cos sin : Q -> Q) (p : Point) (angle : Q) : Point :=
  {| px := px p * cos angle - py p * sin angle;
     py := px p * sin angle + py p * cos angle |}.

(** [while (angle > Math.PI) angle -= Math.PI * 2], at most [fuel] turns,
    each computed exactly. *)
Fixpoint subWhile (fuel : nat) (angle : Q) : Q :=
  match fuel with
  | O => angle
  | S k => if Num.gtb angle Math_PI
           then subWhile k (angle - Math_PI * 2) else angle
  end.

(** [while (angle < -Math.PI) angle += Math.PI * 2], at most [fuel] turns. *)
Fixpoint addWhile (fuel : nat) (angle : Q) : Q :=
  match fuel with
  | O => angle
  | S k => if Num.ltb angle (- Math_PI)
           then addWhile k (angle + Math_PI * 2) else angle
  end.

(** A number of turns after which either loop has left its guard when
    the turns are computed exactly: every turn moves the angle by more
    than 1.  (On doubles a turn may round to no move at all: see
    [Binary64.normalizeAngle].) *)
Definition turns (angle : Q) : nat := Z.to_nat (Qceiling (Qabs angle)).

Definition normalizeAngle (angle : Q) : Q :=
  let angle1 := subWhile (turns angle) angle in
  addWhile (turns angle1) angle1.

(** [distance(p1, p2)] squared: [dx * dx + dy * dy], the argument of the
    square root. *)
Definition distance2 (p1 p2 : Point) : Q :=
  let dx := px p1 - px p2 in
  let dy := py p1 - py p2 in
  dx * dx + dy * dy.

(** [checkCollision]: [distance(e1.position, e2.position) < e1.radius +
    e2.radius].  Over exact numbers [sqrt s < r] is [0 < r] and [s < r * r],
    which is how the test is written here. *)
Definition checkCollision (pos1 : Point) (radius1 : Q)
                          (pos2 : Point) (radius2 : Q) : bool :=
  let r := radius1 + radius2 in
  Num.ltb 0 r && Num.ltb (distance2 pos1 pos2) (r * r).

Definition wrapPosition (pos : Point) (width height : Q) : Point :=
  let x := px pos in
  let y := py pos in
  let x := if Num.ltb x 0 then width else x in
  let x := if Num.gtb x width then 0 else x in
  let y := if Num.ltb y 0 then height else y in
  let y := if Num.gtb y height then 0 else y in
  {| px := x; py := y |}.

End GameMath.

(* ================================================================== *)
(** ** utils/gameMath.ts on doubles *)

(** The two functions of [utils/gameMath.ts] whose results depend on
    rounding, over binary64, the numbers the source computes with.  A
    loop that has not ended after [fuel] turns gives [None]. *)
Module Binary64.

Import Floats.
Local Open Scope float_scope.

(** [Math.PI], the double nearest to pi. *)
Definition Math_PI : float := 0x1.921fb54442d18p+1.

(** [angle > Math.PI] and [angle < -Math.PI], the guards of the loops. *)
Definition above (angle : float) : bool := Math_PI <? angle.

Definition below (angle : float) : bool := angle <? - Math_PI.

(** [while (angle > Math.PI) angle -= Math.PI * 2]. *)
Fixpoint subWhile (fuel : nat) (angle : float) : option float :=
  match fuel with
  | O => None
  | S k => if above angle then subWhile k (angle - Math_PI * 2)
           else Some angle
  end.

(** [while (angle < -Math.PI) angle += Math.PI * 2]. *)
Fixpoint addWhile (fuel : nat) (angle : float) : option float :=
  match fuel with
  | O => None
  | S k => if below angle then addWhile k (angle + Math_PI * 2)
           else Some angle
  end.

Definition normalizeAngle (fuel : nat) (angle : float) : option float :=
  match subWhile fuel angle with
  | Some angle1 => addWhile fuel angle1
  | None => None
  end.

(** [randomRange(min, max)] given the draw [r] of [Math.random()]. *)
Definition randomRange (r min max : float) : float := r * (max - min) + min.


(** The largest draw of [Math.random()]: [1 - 2^-53]. *)
Definition lastDraw : float := 0x1.fffffffffffffp-1.

Definition half : float := 0.5.

Definition one : float := 1.

End Binary64.

(** A point of the closed rectangle [0, width] x [0, height]. *)
Definition inField (width height : Q) (p : Point) : Prop :=
  0 <= px p <= width /\ 0 <= py p <= height.

(* ================================================================== *)
(** ** components/AsteroidsGame: constants and state *)

Import GameMath.

Definition SHIP_SIZE : Q := 20.
Definition TURN_SPEED : Q := 240 * DEG_TO_RAD.
Definition THRUST_POWER : Q := 300.
Definition BULLET_SPEED : Q := 400.
Definition UFO_BULLET_SPEED : Q := 200.
Definition BULLET_LIFE : Q := 1.5.
Definition FIRE_RATE : Q := 0.2.

Definition POWERUP_DURATION : Q := 10.
Definition POWERUP_DROP_RATE : Q := 0.1.
Definition MISSILE_SPEED : Q := 350.
Definition MISSILE_TURN_SPEED : Q := 3.

Definition UFO_SPEED : Q := 100.
Definition UFO_SIZE : Q := 20.
Definition UFO_SPAWN_RATE_MIN : Q := 15000.
Definition UFO_SPAWN_RATE_MAX : Q := 30000.
Definition UFO_FIRE_RATE : Q := 1.5.

Record AsteroidConfig : Set := mkConfig {
  cfgRadius : Q;
  cfgScore : Z;
  cfgSpeed : Q;
  cfgCount : Z
}.

Definition ASTEROID_CONFIG (s : Size) : AsteroidConfig :=
  match s with
  | large => mkConfig 40 20 50 2
  | medium => mkConfig 25 50 80 3
  | small => mkConfig 15 100 120 0
  end.

(** [keysRef.current]: the truth value stored under a key code ([false]
    for a code that was never written). *)
Definition Keys : Type := string -> bool.

Definition setKey (code : string) (v : bool) (keys : Keys) : Keys :=
  fun c => if String.eqb c code then v else keys c.

(** The callbacks handed to [setTimeout], each with the values its
    closure captured when it was created. *)
Inductive Timer : Set :=
| TStartGame
| TNextLevel (nextLevel : Z)
| TGameOver (capturedScore : Z) (capturedHighScores : list HighScore)
| TRespawn (capturedLives : Z).

(** The component's [useState] cells. *)
Record ReactState : Set := mkReact {
  gameState : GameState;
  score : Z;
  lives : Z;
  level : Z;
  aiMessage : string;
  highScores : list HighScore;
  initials : string;
  newHighScoreIndex : option Z
}.

Definition with_gameState (v : GameState) (r : ReactState) : ReactState :=
  {| gameState := v; score := score r; lives := lives r; level := level r;
     aiMessage := aiMessage r; highScores := highScores r;
     initials := initials r; newHighScoreIndex := newHighScoreIndex r |}.

Definition with_score (v : Z) (r : ReactState) : ReactState :=
  {| gameState := gameState r; score := v; lives := lives r;
     level := level r; aiMessage := aiMessage r; highScores := highScores r;
     initials := initials r; newHighScoreIndex := newHighScoreIndex r |}.

Definition with_lives (v : Z) (r : ReactState) : ReactState :=
  {| gameState := gameState r; score := score r; lives := v;
     level := level r; aiMessage := aiMessage r; highScores := highScores r;
     initials := initials r; newHighScoreIndex := newHighScoreIndex r |}.

Definition with_level (v : Z) (r : ReactState) : ReactState :=
  {| gameState := gameState r; score := score r; lives := lives r;
     level := v; aiMessage := aiMessage r; highScores := highScores r;
     initials := initials r; newHighScoreIndex := newHighScoreIndex r |}.

Definition with_aiMessage (v : string) (r : ReactState) : ReactState :=
  {| gameState := gameState r; score := score r; lives := lives r;
     level := level r; aiMessage := v; highScores := highScores r;
     initials := initials r; newHighScoreIndex := newHighScoreIndex r |}.

Definition with_highScores (v : list HighScore) (r : ReactState) : ReactState :=
  {| gameState := gameState r; score := score r; lives := lives r;
     level := level r; aiMessage := aiMessage r; highScores := v;
     initials := initials r; newHighScoreIndex := newHighScoreIndex r |}.

Definition with_initials (v : string) (r : ReactState) : ReactState :=
  {| gameState := gameState r; score := score r; lives := lives r;
     level := level r; aiMessage := aiMessage r; highScores := highScores r;
     initials := v; newHighScoreIndex := newHighScoreIndex r |}.

Definition with_newHighScoreIndex (v : option Z) (r : ReactState) : ReactState :=
  {| gameState := gameState r; score := score r; lives := lives r;
     level := level r; aiMessage := aiMessage r; highScores := highScores r;
     initials := initials r; newHighScoreIndex := v |}.

(** The [useRef] cells, the canvas size, the host's queue of pending
    timers and the number of [Math.random()] draws made so far. *)
Record World : Type := mkWorld {
  react : ReactState;
  shipRef : option Ship;
  ufoRef : option Ufo;
  asteroidsRef : list Asteroid;
  bulletsRef : list Bullet;
  particlesRef : list Particle;
  powerUpsRef : list PowerUp;
  missilesRef : list Missile;
  keysRef : Keys;
  lastUfoSpawnTimeRef : Q;
  nextUfoSpawnDelayRef : Q;
  previousTimeRef : Q;
  canvasWidth : Q;
  canvasHeight : Q;
  timers : list Timer;
  randomCount : nat
}.

Definition with_react (v : ReactState) (w : World) : World :=
  {| react := v; shipRef := shipRef w; ufoRef := ufoRef w;
     asteroidsRef := asteroidsRef w; bulletsRef := bulletsRef w;
     particlesRef := particlesRef w; powerUpsRef := powerUpsRef w;
     missilesRef := missilesRef w; keysRef := keysRef w;
     lastUfoSpawnTimeRef := lastUfoSpawnTimeRef w;
     nextUfoSpawnDelayRef := nextUfoSpawnDelayRef w;
     previousTimeRef := previousTimeRef w; canvasWidth := canvasWidth w;
     canvasHeight := canvasHeight w; timers := timers w;
     randomCount := randomCount w |}.

Definition with_shipRef (v : option Ship) (w : World) : World :=
  {| react := react w; shipRef := v; ufoRef := ufoRef w;
     asteroidsRef := asteroidsRef w; bulletsRef := bulletsRef w;
     particlesRef := particlesRef w; powerUpsRef := powerUpsRef w;
     missilesRef := missilesRef w; keysRef := keysRef w;
     lastUfoSpawnTimeRef := lastUfoSpawnTimeRef w;
     nextUfoSpawnDelayRef := nextUfoSpawnDelayRef w;
     previousTimeRef := previousTimeRef w; canvasWidth := canvasWidth w;
     canvasHeight := canvasHeight w; timers := timers w;
     randomCount := randomCount w |}.

Definition with_ufoRef (v : option Ufo) (w : World) : World :=
  {| react := react w; shipRef := shipRef w; ufoRef := v;
     asteroidsRef := asteroidsRef w; bulletsRef := bulletsRef w;
     particlesRef := particlesRef w; powerUpsRef := powerUpsRef w;
     missilesRef := missilesRef w; keysRef := keysRef w;
     lastUfoSpawnTimeRef := lastUfoSpawnTimeRef w;
     nextUfoSpawnDelayRef := nextUfoSpawnDelayRef w;
     previousTimeRef := previousTimeRef w; canvasWidth := canvasWidth w;
     canvasHeight := canvasHeight w; timers := timers w;
     randomCount := randomCount w |}.

Definition with_asteroidsRef (v : list Asteroid) (w : World) : World :=
  {| react := react w; shipRef := shipRef w; ufoRef := ufoRef w;
     asteroidsRef := v; bulletsRef := bulletsRef w;
     particlesRef := particlesRef w; powerUpsRef := powerUpsRef w;
     missilesRef := missilesRef w; keysRef := keysRef w;
     lastUfoSpawnTimeRef := lastUfoSpawnTimeRef w;
     nextUfoSpawnDelayRef := nextUfoSpawnDelayRef w;
     previousTimeRef := previousTimeRef w; canvasWidth := canvasWidth w;
     canvasHeight := canvasHeight w; timers := timers w;
     randomCount := randomCount w |}.

Definition with_bulletsRef (v : list Bullet) (w : World) : World :=
  {| react := react w; shipRef := shipRef w; ufoRef := ufoRef w;
     asteroidsRef := asteroidsRef w; bulletsRef := v;
     particlesRef := particlesRef w; powerUpsRef := powerUpsRef w;
     missilesRef := missilesRef w; keysRef := keysRef w;
     lastUfoSpawnTimeRef := lastUfoSpawnTimeRef w;
     nextUfoSpawnDelayRef := nextUfoSpawnDelayRef w;
     previousTimeRef := previousTimeRef w; canvasWidth := canvasWidth w;
     canvasHeight := canvasHeight w; timers := timers w;
     randomCount := randomCount w |}.

Definition with_particlesRef (v : list Particle) (w : World) : World :=
  {| react := react w; shipRef := shipRef w; ufoRef := ufoRef w;
     asteroidsRef := asteroidsRef w; bulletsRef := bulletsRef w;
     particlesRef := v; powerUpsRef := powerUpsRef w;
     missilesRef := missilesRef w; keysRef := keysRef w;
     lastUfoSpawnTimeRef := lastUfoSpawnTimeRef w;
     nextUfoSpawnDelayRef := nextUfoSpawnDelayRef w;
     previousTimeRef := previousTimeRef w; canvasWidth := canvasWidth w;
     canvasHeight := canvasHeight w; timers := timers w;
     randomCount := randomCount w |}.

Definition with_powerUpsRef (v : list PowerUp) (w : World) : World :=
  {| react := react w; shipRef := shipRef w; ufoRef := ufoRef w;
     asteroidsRef := asteroidsRef w; bulletsRef := bulletsRef w;
     particlesRef := particlesRef w; powerUpsRef := v;
     missilesRef := missilesRef w; keysRef := keysRef w;
     lastUfoSpawnTimeRef := lastUfoSpawnTimeRef w;
     nextUfoSpawnDelayRef := nextUfoSpawnDelayRef w;
     previousTimeRef := previousTimeRef w; canvasWidth := canvasWidth w;
     canvasHeight := canvasHeight w; timers := timers w;
     randomCount := randomCount w |}.

Definition with_missilesRef (v : list Missile) (w : World) : World :=
  {| react := react w; shipRef := shipRef w; ufoRef := ufoRef w;
     asteroidsRef := asteroidsRef w; bulletsRef := bulletsRef w;
     particlesRef := particlesRef w; powerUpsRef := powerUpsRef w;
     missilesRef := v; keysRef := keysRef w;
     lastUfoSpawnTimeRef := lastUfoSpawnTimeRef w;
     nextUfoSpawnDelayRef := nextUfoSpawnDelayRef w;
     previousTimeRef := previousTimeRef w; canvasWidth := canvasWidth w;
     canvasHeight := canvasHeight w; timers := timers w;
     randomCount := randomCount w |}.

Definition with_keysRef (v : Keys) (w : World) : World :=
  {| react := react w; shipRef := shipRef w; ufoRef := ufoRef w;
     asteroidsRef := asteroidsRef w; bulletsRef := bulletsRef w;
     particlesRef := particlesRef w; powerUpsRef := powerUpsRef w;
     missilesRef := missilesRef w; keysRef := v;
     lastUfoSpawnTimeRef := lastUfoSpawnTimeRef w;
     nextUfoSpawnDelayRef := nextUfoSpawnDelayRef w;
     previousTimeRef := previousTimeRef w; canvasWidth := canvasWidth w;
     canvasHeight := canvasHeight w; timers := timers w;
     randomCount := randomCount w |}.

Definition with_lastUfoSpawnTimeRef (v : Q) (w : World) : World :=
  {| react := react w; shipRef := shipRef w; ufoRef := ufoRef w;
     asteroidsRef := asteroidsRef w; bulletsRef := bulletsRef w;
     particlesRef := particlesRef w; powerUpsRef := powerUpsRef w;
     missilesRef := missilesRef w; keysRef := keysRef w;
     lastUfoSpawnTimeRef := v;
     nextUfoSpawnDelayRef := nextUfoSpawnDelayRef w;
     previousTimeRef := previousTimeRef w; canvasWidth := canvasWidth w;
     canvasHeight := canvasHeight w; timers := timers w;
     randomCount := randomCount w |}.

Definition with_nextUfoSpawnDelayRef (v : Q) (w : World) : World :=
  {| react := react w; shipRef := shipRef w; ufoRef := ufoRef w;
     asteroidsRef := asteroidsRef w; bulletsRef := bulletsRef w;
     particlesRef := particlesRef w; powerUpsRef := powerUpsRef w;
     missilesRef := missilesRef w; keysRef := keysRef w;
     lastUfoSpawnTimeRef := lastUfoSpawnTimeRef w; nextUfoSpawnDelayRef := v;
     previousTimeRef := previousTimeRef w; canvasWidth := canvasWidth w;
     canvasHeight := canvasHeight w; timers := timers w;
     randomCount := randomCount w |}.

Definition with_previousTimeRef (v : Q) (w : World) : World :=
  {| react := react w; shipRef := shipRef w; ufoRef := ufoRef w;
     asteroidsRef := asteroidsRef w; bulletsRef := bulletsRef w;
     particlesRef := particlesRef w; powerUpsRef := powerUpsRef w;
     missilesRef := missilesRef w; keysRef := keysRef w;
     lastUfoSpawnTimeRef := lastUfoSpawnTimeRef w;
     nextUfoSpawnDelayRef := nextUfoSpawnDelayRef w; previousTimeRef := v;
     canvasWidth := canvasWidth w; canvasHeight := canvasHeight w;
     timers := timers w; randomCount := randomCount w |}.

Definition with_canvasWidth (v : Q) (w : World) : World :=
  {| react := react w; shipRef := shipRef w; ufoRef := ufoRef w;
     asteroidsRef := asteroidsRef w; bulletsRef := bulletsRef w;
     particlesRef := particlesRef w; powerUpsRef := powerUpsRef w;
     missilesRef := missilesRef w; keysRef := keysRef w;
     lastUfoSpawnTimeRef := lastUfoSpawnTimeRef w;
     nextUfoSpawnDelayRef := nextUfoSpawnDelayRef w;
     previousTimeRef := previousTimeRef w; canvasWidth := v;
     canvasHeight := canvasHeight w; timers := timers w;
     randomCount := randomCount w |}.

Definition with_canvasHeight (v : Q) (w : World) : World :=
  {| react := react w; shipRef := shipRef w; ufoRef := ufoRef w;
     asteroidsRef := asteroidsRef w; bulletsRef := bulletsRef w;
     particlesRef := particlesRef w; powerUpsRef := powerUpsRef w;
     missilesRef := missilesRef w; keysRef := keysRef w;
     lastUfoSpawnTimeRef := lastUfoSpawnTimeRef w;
     nextUfoSpawnDelayRef := nextUfoSpawnDelayRef w;
     previousTimeRef := previousTimeRef w; canvasWidth := canvasWidth w;
     canvasHeight := v; timers := timers w; randomCount := randomCount w |}.

Definition with_timers (v : list Timer) (w : World) : World :=
  {| react := react w; shipRef := shipRef w; ufoRef := ufoRef w;
     asteroidsRef := asteroidsRef w; bulletsRef := bulletsRef w;
     particlesRef := particlesRef w; powerUpsRef := powerUpsRef w;
     missilesRef := missilesRef w; keysRef := keysRef w;
     lastUfoSpawnTimeRef := lastUfoSpawnTimeRef w;
     nextUfoSpawnDelayRef := nextUfoSpawnDelayRef w;
     previousTimeRef := previousTimeRef w; canvasWidth := canvasWidth w;
     canvasHeight := canvasHeight w; timers := v;
     randomCount := randomCount w |}.

Definition with_randomCount (v : nat) (w : World) : World :=
  {| react := react w; shipRef := shipRef w; ufoRef := ufoRef w;
     asteroidsRef := asteroidsRef w; bulletsRef := bulletsRef w;
     particlesRef := particlesRef w; powerUpsRef := powerUpsRef w;
     missilesRef := missilesRef w; keysRef := keysRef w;
     lastUfoSpawnTimeRef := lastUfoSpawnTimeRef w;
     nextUfoSpawnDelayRef := nextUfoSpawnDelayRef w;
     previousTimeRef := previousTimeRef w; canvasWidth := canvasWidth w;
     canvasHeight := canvasHeight w; timers := timers w; randomCount := v |}.

(** What the host page provides: the transcendental functions of [Math]
    and the successive results of [Math.random()]. *)
Record Host : Type := mkHost {
  Math_cos : Q -> Q;
  Math_sin : Q -> Q;
  Math_atan2 : Q -> Q -> Q;
  Math_random : nat -> Q
}.

(** [Math.abs] and [Math.sign]. *)
Definition Math_abs (x : Q) : Q := if Num.ltb x 0 then - x else x.

Definition Math_sign (x : Q) : Q :=
  if Num.gtb x 0 then 1 else if Num.ltb x 0 then -1 else 0.

(** One frame's readings of the outside world: the timestamp handed to
    the animation callback, [Date.now()], and the window's inner size. *)
Record FrameInput : Set := mkFrameInput {
  time : Q;
  now : Q;
  innerWidth : Q;
  innerHeight : Q
}.

(** *** State setters *)

Definition setGameState (v : GameState) (w : World) : World :=
  with_react (with_gameState v (react w)) w.

(** [setScore(prev => f(prev))]. *)
Definition setScore (f : Z -> Z) (w : World) : World :=
  with_react (with_score (f (score (react w))) (react w)) w.

Definition setLives (v : Z) (w : World) : World :=
  with_react (with_lives v (react w)) w.

Definition setLevel (v : Z) (w : World) : World :=
  with_react (with_level v (react w)) w.

Definition setAiMessage (v : string) (w : World) : World :=
  with_react (with_aiMessage v (react w)) w.

(** [setTimeout(callback, _)]. *)
Definition setTimeout (t : Timer) (w : World) : World :=
  with_timers (timers w ++ [t]) w.

Definition pushParticle (p : Particle) (w : World) : World :=
  with_particlesRef (particlesRef w ++ [p]) w.

Definition pushBullet (b : Bullet) (w : World) : World :=
  with_bulletsRef (bulletsRef w ++ [b]) w.

Definition pushPowerUp (p : PowerUp) (w : World) : World :=
  with_powerUpsRef (powerUpsRef w ++ [p]) w.

Definition pushAsteroid (a : Asteroid) (w : World) : World :=
  with_asteroidsRef (asteroidsRef w ++ [a]) w.

Definition pushMissile (m : Missile) (w : World) : World :=
  with_missilesRef (missilesRef w ++ [m]) w.

(** [n] calls of [Math.random()] have been made. *)
Definition drawn (n : nat) (w : World) : World :=
  with_randomCount (randomCount w + n)%nat w.

(** The phases in which the frame updates the simulation. *)
Definition active (g : GameState) : bool :=
  match g with
  | PLAYING | GAME_OVER | LEVEL_TRANSITION => true
  | _ => false
  end.

Definition isPlaying (g : GameState) : bool :=
  match g with PLAYING => true | _ => false end.

Definition ownerIsUfo (o : Owner) : bool :=
  match o with OwnerUfo => true | OwnerShip => false end.

Definition ownerIsShip (o : Owner) : bool :=
  match o with OwnerShip => true | OwnerUfo => false end.

(** [checkCollision(e1, e2)] on two entities. *)
Definition collide {A B} `{IsEntity A} `{IsEntity B} (e1 : A) (e2 : B) : bool :=
  checkCollision (pos e1) (rad e1) (pos e2) (rad e2).

(** [checkCollision(e1, { ...e2, radius: e2.radius * k })]. *)
Definition collideScaled {A B} `{IsEntity A} `{IsEntity B}
    (e1 : A) (e2 : B) (k : Q) : bool :=
  checkCollision (pos e1) (rad e1) (pos e2) (rad e2 * k).

Definition powerUpColor (t : PowerUpType) : string :=
  match t with
  | MULTI_SHOT => "#facc15"
  | SHIELD => "#3b82f6"
  | TIME_SLOW => "#a855f7"
  | MISSILE => "#ef4444"
  end.

(** [p.type.replace('_', ' ')]. *)
Definition powerUpLabel (t : PowerUpType) : string :=
  match t with
  | MULTI_SHOT => "MULTI SHOT"
  | SHIELD => "SHIELD"
  | TIME_SLOW => "TIME SLOW"
  | MISSILE => "MISSILE"
  end.

Definition powerUpTypes : list PowerUpType :=
  [MULTI_SHOT; SHIELD; TIME_SLOW; MISSILE].

(** [types[Math.floor(r * types.length)]].  The host's draws lie in
    [0, 1), where the index is in the table; the default stands for the
    [undefined] of an index outside it. *)
Definition pickType (r : Q) : PowerUpType :=
  nth (Z.to_nat (Qfloor (r * 4))) powerUpTypes MISSILE.

(** The first element of [l] that satisfies [hit], with what precedes and
    follows it: a [for ... of] loop that acts on its first match and
    breaks. *)
Fixpoint firstHit {A} (hit : A -> bool) (l : list A)
  : option (list A * A * list A) :=
  match l with
  | [] => None
  | a :: rest =>
      if hit a then Some ([], a, rest)
      else match firstHit hit rest with
           | Some (pre, x, post) => Some (a :: pre, x, post)
           | None => None
           end
  end.

(* ================================================================== *)
(** ** components/AsteroidsGame: the game *)

Section Game.

Variable host : Host.

Abbreviation cos := (Math_cos host).
Abbreviation sin := (Math_sin host).
Abbreviation atan2 := (Math_atan2 host).

(** The [k]-th next result of [Math.random()]. *)
Definition rnd (w : World) (k : nat) : Q :=
  Math_random host (randomCount w + k)%nat.

(** One turn of the loop of [createExplosion]. *)
Definition explosionParticle (p : Point) (c : string) (w : World) : World :=
  let speed := randomRange (rnd w 0) 50 150 in
  let angle := randomRange (rnd w 1) 0 (Math_PI * 2) in
  pushParticle
    {| particleEntity :=
         {| id := IdRandom (rnd w 2);
            position := p;
            velocity := {| px := cos angle * speed; py := sin angle * speed |};
            angle := 0;
            radius := 1;
            color := c;
            dead := false |};
       particleLife := randomRange (rnd w 3) 0.5 1.0;
       maxLife := 1.0;
       particleSize := randomRange (rnd w 4) 1 3 |}
    (drawn 5 w).

Fixpoint createExplosion (p : Point) (c : string) (count : nat) (w : World)
  : World :=
  match count with
  | O => w
  | S k => createExplosion p c k (explosionParticle p c w)
  end.

Definition spawnPowerUp (p : Point) (w : World) : World :=
  if Num.gtb (rnd w 0) POWERUP_DROP_RATE then drawn 1 w
  else
    let type := pickType (rnd w 1) in
    pushPowerUp
      {| powerUpEntity :=
           {| id := IdRandom (rnd w 2);
              position := p;
              velocity := {| px := randomRange (rnd w 3) (-20) 20;
                             py := randomRange (rnd w 4) (-20) 20 |};
              angle := 0;
              radius := 15;
              color := powerUpColor type;
              dead := false |};
         ptype := type;
         powerUpLife := 15.0 |}
      (drawn 5 w).

(** [generateAsteroidVertices(radius, numVertices)], the [i]-th vertex
    using the [k + i]-th next draw. *)
Definition generateAsteroidVertices (radius : Q) (numVertices : nat)
    (w : World) (k : nat) : list Point :=
  map (fun i =>
         let angle := (inject_Z (Z.of_nat i) / inject_Z (Z.of_nat numVertices))
                      * Math_PI * 2 in
         let r := radius * randomRange (rnd w (k + i)) 0.7 1.3 in
         {| px := cos angle * r; py := sin angle * r |})
      (seq 0 numVertices).

(** The [do ... while] of [spawnAsteroids]: draw positions until one is
    outside the square around the centre, in at most [fuel] attempts. *)
Fixpoint pickSpot (fuel : nat) (width height : Q) (w : World)
  : option (Q * Q * World) :=
  match fuel with
  | O => None
  | S k =>
      let x := randomRange (rnd w 0) 0 width in
      let y := randomRange (rnd w 1) 0 height in
      if Num.ltb (Math_abs (x - width / 2)) 150
         && Num.ltb (Math_abs (y - height / 2)) 150
      then pickSpot k width height (drawn 2 w)
      else Some (x, y, drawn 2 w)
  end.

(** One turn of the [for] loop of [spawnAsteroids]. *)
Definition newLargeAsteroid (fuel : nat) (width height : Q) (w : World)
  : option (Asteroid * World) :=
  match pickSpot fuel width height w with
  | None => None
  | Some (x, y, w1) =>
      let speed := cfgSpeed (ASTEROID_CONFIG large)
                   * randomRange (rnd w1 0) 0.8 1.2 in
      let angle := randomRange (rnd w1 1) 0 (Math_PI * 2) in
      Some ({| asteroidEntity :=
                 {| id := IdRandom (rnd w1 2);
                    position := {| px := x; py := y |};
                    velocity := {| px := cos angle * speed;
                                   py := sin angle * speed |};
                    angle := 0;
                    radius := cfgRadius (ASTEROID_CONFIG large);
                    color := "#f472b6";
                    dead := false |};
               size := large;
               vertices := generateAsteroidVertices
                             (cfgRadius (ASTEROID_CONFIG large)) 10 w1 4;
               asteroidRotationSpeed := randomRange (rnd w1 3) (-2) 2 |},
            drawn 14 w1)
  end.

Fixpoint newAsteroids (fuel : nat) (n : nat) (width height : Q) (w : World)
  : option (list Asteroid * World) :=
  match n with
  | O => Some ([], w)
  | S k =>
      match newLargeAsteroid fuel width height w with
      | None => None
      | Some (a, w1) =>
          match newAsteroids fuel k width height w1 with
          | None => None
          | Some (l, w2) => Some (a :: l, w2)
          end
      end
  end.

(** [spawnAsteroids(count, levelMultiplier, width, height)]; [None] when a
    position search outlasts [fuel] attempts. *)
Definition spawnAsteroids (fuel : nat) (count levelMultiplier : Z)
    (width height : Q) (w : World) : option World :=
  match newAsteroids fuel (Z.to_nat (count + levelMultiplier)) width height w
  with
  | None => None
  | Some (l, w1) => Some (with_asteroidsRef (asteroidsRef w1 ++ l) w1)
  end.

Definition spawnUfo (width height : Q) (w : World) : World :=
  let startLeft := Num.gtb (rnd w 0) 0.5 in
  let y := randomRange (rnd w 1) (height * 0.2) (height * 0.8) in
  with_ufoRef
    (Some {| ufoEntity :=
               {| id := IdUfo;
                  position := {| px := if startLeft then 0 else width;
                                 py := y |};
                  velocity := {| px := if startLeft then UFO_SPEED
                                       else - UFO_SPEED;
                                 py := 0 |};
                  angle := 0;
                  radius := UFO_SIZE;
                  color := "#a855f7";
                  dead := false |};
             directionChangeTimer := 0;
             shootCooldown := 2.0;
             accuracy := 0.8 |})
    (drawn 2 w).

Definition freshShip (width height : Q) : Ship :=
  {| shipEntity :=
       {| id := IdHero;
          position := {| px := width / 2; py := height / 2 |};
          velocity := {| px := 0; py := 0 |};
          angle := - Math_PI / 2;
          radius := SHIP_SIZE;
          color := "#22d3ee";
          dead := false |};
     rotationSpeed := 0;
     thrusting := false;
     invulnerable := 3.0;
     cooldown := 0;
     powerupMultiShotTimer := 0;
     powerupShieldTimer := 0;
     powerupTimeSlowTimer := 0;
     missileAmmo := 0 |}.

Definition resetShip (width height : Q) (w : World) : World :=
  with_shipRef (Some (freshShip width height)) w.

(** *** The frame: update *)

(** [if (t > 0) t -= dt]. *)
Definition countDown (dt t : Q) : Q := if Num.gtb t 0 then t - dt else t.

(** [const enemyDt = timeSlowActive ? dt * 0.3 : dt], where
    [timeSlowActive] reads the craft's countdown at the start of the
    frame. *)
Definition timeSlowActive (w : World) : bool :=
  match shipRef w with
  | Some ship => Num.gtb (powerupTimeSlowTimer ship) 0
  | None => false
  end.

Definition enemyDt (w : World) (dt : Q) : Q :=
  if timeSlowActive w then dt * 0.3 else dt.

(** Decrement PowerUp Timers. *)
Definition shipTimers (dt : Q) (ship : Ship) : Ship :=
  let ship := with_powerupMultiShotTimer
                (countDown dt (powerupMultiShotTimer ship)) ship in
  let ship := with_powerupShieldTimer
                (countDown dt (powerupShieldTimer ship)) ship in
  with_powerupTimeSlowTimer (countDown dt (powerupTimeSlowTimer ship)) ship.

Definition shipTurn (keys : Keys) (dt : Q) (ship : Ship) : Ship :=
  let ship := if keys "ArrowLeft"%string || keys "KeyA"%string
              then setAngle (angle (entity ship) - TURN_SPEED * dt) ship
              else ship in
  if keys "ArrowRight"%string || keys "KeyD"%string
  then setAngle (angle (entity ship) + TURN_SPEED * dt) ship
  else ship.

(** The exhaust particle, using the draws after the one that decided
    on it. *)
Definition exhaustParticle (ship : Ship) (w : World) : Particle :=
  let a := angle (entity ship) in
  let offset := rotatePoint cos sin {| px := - rad ship; py := 0 |} a in
  {| particleEntity :=
       {| id := IdRandom (rnd w 1);
          position := {| px := px (pos ship) + px offset;
                         py := py (pos ship) + py offset |};
          velocity := {| px := - cos a * randomRange (rnd w 2) 50 100;
                         py := - sin a * randomRange (rnd w 3) 50 100 |};
          angle := 0;
          radius := 2;
          color := "#3b82f6";
          dead := false |};
     particleLife := 0.3;
     maxLife := 0.3;
     particleSize := 2 |}.

Definition shipThrust (dt : Q) (ship : Ship) (w : World) : Ship * World :=
  if keysRef w "ArrowUp"%string || keysRef w "KeyW"%string then
    let ship := with_thrusting true ship in
    let a := angle (entity ship) in
    let ship := setVel {| px := px (vel ship) + cos a * THRUST_POWER * dt;
                          py := py (vel ship) + sin a * THRUST_POWER * dt |}
                       ship in
    if Num.gtb (rnd w 0) 0.5
    then (ship, pushParticle (exhaustParticle ship w) (drawn 4 w))
    else (ship, drawn 1 w)
  else (with_thrusting false ship, w).

Definition fireBullet (ship : Ship) (angleOffset : Q) (w : World) : World :=
  let fireAngle := angle (entity ship) + angleOffset in
  let nose := rotatePoint cos sin {| px := rad ship; py := 0 |} fireAngle in
  pushBullet
    {| bulletEntity :=
         {| id := IdRandom (rnd w 0);
            position := {| px := px (pos ship) + px nose;
                           py := py (pos ship) + py nose |};
            velocity := {| px := cos fireAngle * BULLET_SPEED;
                           py := sin fireAngle * BULLET_SPEED |};
            angle := fireAngle;
            radius := 2;
            color := "#facc15";
            dead := false |};
       bulletLife := BULLET_LIFE;
       owner := OwnerShip |}
    (drawn 1 w).

Definition shipShoot (dt : Q) (ship : Ship) (w : World) : Ship * World :=
  let ship := with_cooldown (countDown dt (cooldown ship)) ship in
  if (keysRef w "Space"%string || keysRef w "ControlLeft"%string)
     && Num.leb (cooldown ship) 0
  then
    let ship := with_cooldown FIRE_RATE ship in
    let w := fireBullet ship 0 w in
    if Num.gtb (powerupMultiShotTimer ship) 0
    then (ship, fireBullet ship 0.2 (fireBullet ship (-0.2) w))
    else (ship, w)
  else (ship, w).

Definition shipMove (dt width height : Q) (ship : Ship) : Ship :=
  let ship := advance dt ship in
  let ship := setPos (wrapPosition (pos ship) width height) ship in
  with_invulnerable (countDown dt (invulnerable ship)) ship.

(** Ship Logic. *)
Definition shipLogic (g : GameState) (dt : Q) (w : World) : World :=
  match shipRef w with
  | Some ship =>
      if isPlaying g && negb (isDead ship) then
        let ship := shipTurn (keysRef w) dt (shipTimers dt ship) in
        let (ship, w) := shipThrust dt ship w in
        let (ship, w) := shipShoot dt ship w in
        with_shipRef
          (Some (shipMove dt (canvasWidth w) (canvasHeight w) ship)) w
      else w
  | None => w
  end.

(** The bullet a hostile unit at [ufo] fires at [ship]. *)
Definition ufoBullet (ufo : Ufo) (ship : Ship) (w : World) : Bullet :=
  let angleToShip := atan2 (py (pos ship) - py (pos ufo))
                           (px (pos ship) - px (pos ufo)) in
  let accuracyOffset := randomRange (rnd w 0) (-0.2) 0.2 in
  {| bulletEntity :=
       {| id := IdRandom (rnd w 1);
          position := pos ufo;
          velocity :=
            {| px := cos (angleToShip + accuracyOffset) * UFO_BULLET_SPEED;
               py := sin (angleToShip + accuracyOffset) * UFO_BULLET_SPEED |};
          angle := 0;
          radius := 3;
          color := "#22c55e";
          dead := false |};
     bulletLife := BULLET_LIFE;
     owner := OwnerUfo |}.

(** The craft is there and alive: [ship && !ship.dead]. *)
Definition shipAlive (w : World) : bool :=
  match shipRef w with
  | Some ship => negb (isDead ship)
  | None => false
  end.

(** The hostile unit drifts and, when its countdown runs out, re-rolls
    its vertical speed. *)
Definition ufoDrift (edt : Q) (ufo : Ufo) (w : World) : Ufo * World :=
  let ufo := advance edt ufo in
  let ufo := with_directionChangeTimer (directionChangeTimer ufo - edt) ufo in
  if Num.leb (directionChangeTimer ufo) 0
  then (setVel {| px := px (vel ufo);
                  py := randomRange (rnd w 1) (-50) 50 |}
          (with_directionChangeTimer (randomRange (rnd w 0) 1 3) ufo),
        drawn 2 w)
  else (ufo, w).

(** The hostile unit has left the field by more than the margin. *)
Definition ufoGone (ufo : Ufo) (w : World) : bool :=
  (Num.gtb (px (vel ufo)) 0 && Num.gtb (px (pos ufo)) (canvasWidth w + 50))
  || (Num.ltb (px (vel ufo)) 0 && Num.ltb (px (pos ufo)) (-50)).

Definition ufoShoot (edt : Q) (ufo : Ufo) (w : World) : Ufo * World :=
  let ufo := with_shootCooldown (shootCooldown ufo - edt) ufo in
  match shipRef w with
  | Some ship =>
      if Num.leb (shootCooldown ufo) 0 && negb (isDead ship)
      then (with_shootCooldown UFO_FIRE_RATE ufo,
            pushBullet (ufoBullet ufo ship w) (drawn 2 w))
      else (ufo, w)
  | None => (ufo, w)
  end.

(** UFO Logic, for a frame in the Playing phase.  A unit that left the
    field is dropped from [ufoRef] but still runs its fire step. *)
Definition ufoLogic (inp : FrameInput) (edt : Q) (w : World) : World :=
  match ufoRef w with
  | None =>
      if Num.gtb (now inp - lastUfoSpawnTimeRef w) (nextUfoSpawnDelayRef w)
      then
        let w := spawnUfo (canvasWidth w) (canvasHeight w) w in
        let w := with_lastUfoSpawnTimeRef (now inp) w in
        with_nextUfoSpawnDelayRef
          (randomRange (rnd w 0) UFO_SPAWN_RATE_MIN UFO_SPAWN_RATE_MAX)
          (drawn 1 w)
      else w
  | Some ufo =>
      let (ufo, w) := ufoDrift edt ufo w in
      let gone := ufoGone ufo w in
      let w := if gone then with_lastUfoSpawnTimeRef (now inp) w else w in
      let (ufo, w) := ufoShoot edt ufo w in
      with_ufoRef (if gone then None else Some ufo) w
  end.

(** Bullets Update, one bullet. *)
Definition updateBullet (edt dt : Q) (b : Bullet) : Bullet :=
  let bulletDt := if ownerIsUfo (owner b) then edt else dt in
  let b := advance bulletDt b in
  let b := mkBullet (bulletEntity b) (bulletLife b - bulletDt) (owner b) in
  if Num.leb (bulletLife b) 0 then kill b else b.

Definition bulletsUpdate (edt dt : Q) (w : World) : World :=
  with_bulletsRef (purge (map (updateBullet edt dt) (bulletsRef w))) w.

(** Homing Logic: the new heading of a missile with a target. *)
Definition homing (dt : Q) (target : Ufo) (m : Missile) : Missile :=
  let angleToTarget := atan2 (py (pos target) - py (pos m))
                             (px (pos target) - px (pos m)) in
  let currentAngle := atan2 (py (vel m)) (px (vel m)) in
  let diff := normalizeAngle (angleToTarget - currentAngle) in
  let turn := Num.min (Math_abs diff) (MISSILE_TURN_SPEED * dt)
              * Math_sign diff in
  let newAngle := currentAngle + turn in
  setAngle newAngle
    (setVel {| px := cos newAngle * MISSILE_SPEED;
               py := sin newAngle * MISSILE_SPEED |} m).

Definition smokeParticle (m : Missile) (w : World) : Particle :=
  {| particleEntity :=
       {| id := IdRandom (rnd w 1);
          position := pos m;
          velocity := {| px := 0; py := 0 |};
          angle := 0;
          radius := 2;
          color := "#9ca3af";
          dead := false |};
     particleLife := 0.5;
     maxLife := 0.5;
     particleSize := 2 |}.

(** Missiles Update, one missile: the missile after the turn of the
    loop, and the state with the smoke it may have emitted. *)
Definition updateMissile (dt : Q) (m : Missile) (w : World)
  : Missile * World :=
  let m := match ufoRef w with
           | Some target => homing dt target m
           | None => m
           end in
  let m := advance dt m in
  let m := mkMissile (missileEntity m) (missileLife m - dt) in
  let m := if Num.leb (missileLife m) 0 then kill m else m in
  if Num.gtb (rnd w 0) 0.5
  then (m, pushParticle (smokeParticle m w) (drawn 2 w))
  else (m, drawn 1 w).

Fixpoint updateMissiles (dt : Q) (ms : list Missile) (w : World)
  : list Missile * World :=
  match ms with
  | [] => ([], w)
  | m :: rest =>
      let (m', w1) := updateMissile dt m w in
      let (rest', w2) := updateMissiles dt rest w1 in
      (m' :: rest', w2)
  end.

Definition missilesUpdate (dt : Q) (w : World) : World :=
  let (ms, w1) := updateMissiles dt (missilesRef w) w in
  with_missilesRef (purge ms) w1.

(** Asteroids Update, one asteroid. *)
Definition updateAsteroid (edt width height : Q) (a : Asteroid) : Asteroid :=
  let a := advance edt a in
  let a := setAngle (angle (entity a) + asteroidRotationSpeed a * edt) a in
  setPos (wrapPosition (pos a) width height) a.

Definition asteroidsUpdate (edt : Q) (w : World) : World :=
  with_asteroidsRef
    (map (updateAsteroid edt (canvasWidth w) (canvasHeight w))
         (asteroidsRef w)) w.

(** PowerUps Update, one power-up. *)
Definition updatePowerUp (dt width height : Q) (p : PowerUp) : PowerUp :=
  let p := advance dt p in
  let p := mkPowerUp (powerUpEntity p) (ptype p) (powerUpLife p - dt) in
  let p := if Num.leb (powerUpLife p) 0 then kill p else p in
  setPos (wrapPosition (pos p) width height) p.

Definition powerUpsUpdate (dt : Q) (w : World) : World :=
  with_powerUpsRef
    (purge (map (updatePowerUp dt (canvasWidth w) (canvasHeight w))
                (powerUpsRef w))) w.

(** Particles, one particle. *)
Definition updateParticle (dt : Q) (p : Particle) : Particle :=
  let p := advance dt p in
  let p := mkParticle (particleEntity p) (particleLife p - dt) (maxLife p)
                      (particleSize p) in
  if Num.leb (particleLife p) 0 then kill p else p.

Definition particlesUpdate (dt : Q) (w : World) : World :=
  with_particlesRef (purge (map (updateParticle dt) (particlesRef w))) w.

(** The update half of the frame, in the order of the source.  [g] is
    the phase the frame's closure holds. *)
Definition update (g : GameState) (inp : FrameInput) (dt : Q) (w : World)
  : World :=
  let edt := enemyDt w dt in
  let w := shipLogic g dt w in
  let w := if isPlaying g then ufoLogic inp edt w else w in
  let w := bulletsUpdate edt dt w in
  let w := missilesUpdate dt w in
  let w := asteroidsUpdate edt w in
  let w := powerUpsUpdate dt w in
  particlesUpdate dt w.

(** *** The frame: collisions *)

(** In-place writes to the craft the frame holds ([ship] is
    [shipRef.current], which no frame reassigns). *)
Definition onShip (f : Ship -> Ship) (w : World) : World :=
  match shipRef w with
  | Some ship => with_shipRef (Some (f ship)) w
  | None => w
  end.

(** Apply Effect. *)
Definition applyPowerUp (t : PowerUpType) (ship : Ship) : Ship :=
  match t with
  | MULTI_SHOT => with_powerupMultiShotTimer POWERUP_DURATION ship
  | SHIELD => with_powerupShieldTimer POWERUP_DURATION ship
  | TIME_SLOW => with_powerupTimeSlowTimer POWERUP_DURATION ship
  | MISSILE => with_missileAmmo (missileAmmo ship + 1) ship
  end.

(** 1. Ship Picking up PowerUps: the loop over the power-ups. *)
Fixpoint pickUps (ps : list PowerUp) (ship : Ship) (w : World)
  : list PowerUp * Ship * World :=
  match ps with
  | [] => ([], ship, w)
  | p :: rest =>
      if checkCollision (pos ship) (rad ship * 1.5) (pos p) (rad p) then
        let '(rest', ship', w') :=
          pickUps rest (applyPowerUp (ptype p) ship)
            (setAiMessage ("ACQUIRED: " ++ powerUpLabel (ptype p)) w) in
        (kill p :: rest', ship', w')
      else
        let '(rest', ship', w') := pickUps rest ship w in
        (p :: rest', ship', w')
  end.

Definition pickUpPowerUps (w : World) : World :=
  match shipRef w with
  | Some ship =>
      if negb (isDead ship) then
        let '(ps, ship', w') := pickUps (powerUpsRef w) ship w in
        with_shipRef (Some ship') (with_powerUpsRef ps w')
      else w
  | None => w
  end.

(** The score of a bullet kill, as the frame writes it. *)
Definition bulletScore (s : Size) : Z :=
  match s with large => 20 | medium => 50 | small => 100 end.

Definition nextSize (s : Size) : Size :=
  match s with large => medium | _ => small end.

(** One child of a split obstacle. *)
Definition childAsteroid (a : Asteroid) (w : World) : World :=
  let next := nextSize (size a) in
  let config := ASTEROID_CONFIG next in
  let angle := randomRange (rnd w 0) 0 (Math_PI * 2) in
  let speed := cfgSpeed config * randomRange (rnd w 1) 0.8 1.2 in
  let n := match next with medium => 8%nat | _ => 6%nat end in
  pushAsteroid
    {| asteroidEntity :=
         {| id := IdRandom (rnd w 2);
            position := pos a;
            velocity := {| px := cos angle * speed; py := sin angle * speed |};
            angle := 0;
            radius := cfgRadius config;
            color := color (entity a);
            dead := false |};
       size := next;
       vertices := generateAsteroidVertices (cfgRadius config) n w 4;
       asteroidRotationSpeed := randomRange (rnd w 3) (-2) 2 |}
    (drawn (4 + n) w).

Definition splitAsteroid (a : Asteroid) (w : World) : World :=
  match size a with
  | small => w
  | _ => childAsteroid a (childAsteroid a w)
  end.

(** Vs Asteroids: the inner loop of a craft-owned bullet. *)
Definition bulletVsAsteroids (b : Bullet) (w : World) : Bullet * World :=
  match firstHit (fun a => negb (isDead a) && collide b a) (asteroidsRef w)
  with
  | Some (pre, a, post) =>
      let w := with_asteroidsRef (pre ++ kill a :: post) w in
      let w := spawnPowerUp (pos a) w in
      let w := createExplosion (pos a) (color (entity a)) 10 w in
      let w := setScore (fun prev => prev + bulletScore (size a))%Z w in
      (kill b, splitAsteroid a w)
  | None => (b, w)
  end.

(** Vs UFO. *)
Definition bulletVsUfo (inp : FrameInput) (b : Bullet) (w : World)
  : Bullet * World :=
  match ufoRef w with
  | Some ufo =>
      if negb (isDead b) && collide b ufo then
        let w := spawnPowerUp (pos ufo) w in
        let w := createExplosion (pos ufo) (color (entity ufo)) 20 w in
        let w := with_ufoRef None w in
        let w := with_lastUfoSpawnTimeRef (now inp) w in
        (kill b, setScore (fun prev => prev + 500)%Z w)
      else (b, w)
  | None => (b, w)
  end.

Definition handleGameOver (render : ReactState) (w : World) : World :=
  setTimeout (TGameOver (score render) (highScores render))
             (setGameState GAME_OVER w).

(** The [setLives(l => ...)] of a craft death.  The updater runs on the
    current count, here at the call; the respawn callback it schedules
    holds the [lives] of the frame's closure. *)
Definition loseLife (render : ReactState) (w : World) : World :=
  let newLives := (lives (react w) - 1)%Z in
  let w := if (newLives <=? 0)%Z then handleGameOver render w
           else setTimeout (TRespawn (lives render)) w in
  setLives newLives w.

(** UFO Bullets hitting Ship. *)
Definition ufoBulletVsShip (render : ReactState) (b : Bullet) (w : World)
  : Bullet * World :=
  match shipRef w with
  | Some ship =>
      if ownerIsUfo (owner b) && negb (isDead ship)
         && Num.leb (invulnerable ship) 0
      then
        if Num.gtb (powerupShieldTimer ship) 0 then
          if checkCollision (pos b) (rad b) (pos ship) (rad ship * 2)
          then (kill b, w) else (b, w)
        else
          if checkCollision (pos b) (rad b) (pos ship) (rad ship * 0.7)
          then
            let w := onShip kill w in
            let w := createExplosion (pos ship) (color (entity ship)) 30 w in
            (kill b, loseLife render w)
          else (b, w)
      else (b, w)
  | None => (b, w)
  end.

(** 2. Bullets: one turn of the loop. *)
Definition bulletStep (render : ReactState) (inp : FrameInput) (b : Bullet)
    (w : World) : Bullet * World :=
  if isDead b then (b, w)
  else
    let (b, w) :=
      if ownerIsShip (owner b) then
        let (b, w) := bulletVsAsteroids b w in
        bulletVsUfo inp b w
      else (b, w) in
    ufoBulletVsShip render b w.

Fixpoint bulletsLoop (render : ReactState) (inp : FrameInput)
    (bs : list Bullet) (w : World) : list Bullet * World :=
  match bs with
  | [] => ([], w)
  | b :: rest =>
      let (b', w1) := bulletStep render inp b w in
      let (rest', w2) := bulletsLoop render inp rest w1 in
      (b' :: rest', w2)
  end.

Definition bulletsCollision (render : ReactState) (inp : FrameInput)
    (w : World) : World :=
  let (bs, w1) := bulletsLoop render inp (bulletsRef w) w in
  let w2 := with_bulletsRef bs w1 in
  with_asteroidsRef (purge (asteroidsRef w2)) w2.

(** 3. Missiles Collision: one turn of the loop. *)
Definition missileVsUfo (inp : FrameInput) (ufo : Ufo) (w : World) : World :=
  let w := spawnPowerUp (pos ufo) w in
  let w := createExplosion (pos ufo) (color (entity ufo)) 30 w in
  let w := with_ufoRef None w in
  let w := with_lastUfoSpawnTimeRef (now inp) w in
  setScore (fun prev => prev + 500)%Z w.

Definition missileVsAsteroids (m : Missile) (w : World) : Missile * World :=
  match firstHit (fun a => negb (isDead a) && collide m a) (asteroidsRef w)
  with
  | Some (pre, a, post) =>
      let w := with_asteroidsRef (pre ++ kill a :: post) w in
      let w := createExplosion (pos a) (color (entity a)) 15 w in
      (kill m, setScore (fun prev => prev + 50)%Z w)
  | None => (m, w)
  end.

Definition missileStep (inp : FrameInput) (m : Missile) (w : World)
  : Missile * World :=
  if isDead m then (m, w)
  else
    match ufoRef w with
    | Some ufo =>
        if collide m ufo then (kill m, missileVsUfo inp ufo w)
        else missileVsAsteroids m w
    | None => missileVsAsteroids m w
    end.

Fixpoint missilesLoop (inp : FrameInput) (ms : list Missile) (w : World)
  : list Missile * World :=
  match ms with
  | [] => ([], w)
  | m :: rest =>
      let (m', w1) := missileStep inp m w in
      let (rest', w2) := missilesLoop inp rest w1 in
      (m' :: rest', w2)
  end.

Definition missilesCollision (inp : FrameInput) (w : World) : World :=
  let (ms, w1) := missilesLoop inp (missilesRef w) w in
  with_missilesRef ms w1.

(** [checkDeath(obj)] of 4. Ship vs Bodies. *)
Definition checkDeath {B} `{IsEntity B} (ship : Ship) (obj : B) : bool :=
  if Num.gtb (powerupShieldTimer ship) 0 then false
  else checkCollision (pos ship) (rad ship * 0.7) (pos obj) (rad obj).

(** 4. Ship vs Bodies. *)
Definition shipVsBodies (render : ReactState) (inp : FrameInput) (w : World)
  : World :=
  match shipRef w with
  | Some ship =>
      if negb (isDead ship) && Num.leb (invulnerable ship) 0 then
        if existsb (checkDeath ship) (asteroidsRef w) then
          let w := onShip kill w in
          let w := createExplosion (pos ship) (color (entity ship)) 30 w in
          loseLife render w
        else
          match ufoRef w with
          | Some ufo =>
              if checkDeath ship ufo then
                let w := onShip kill w in
                let w := createExplosion (pos ship) (color (entity ship))
                                         30 w in
                let w := createExplosion (pos ufo) (color (entity ufo))
                                         20 w in
                let w := with_ufoRef None w in
                let w := with_lastUfoSpawnTimeRef (now inp) w in
                loseLife render w
              else w
          | None => w
          end
      else w
  | None => w
  end.

(** Collisions, in the order of the source. *)
Definition collisions (render : ReactState) (inp : FrameInput) (w : World)
  : World :=
  let w := pickUpPowerUps w in
  let w := bulletsCollision render inp w in
  let w := missilesCollision inp w in
  shipVsBodies render inp w.

Definition startNextLevel (render : ReactState) (w : World) : World :=
  let nextLevel := (level render + 1)%Z in
  setTimeout (TNextLevel nextLevel)
             (setGameState LEVEL_TRANSITION (setLevel nextLevel w)).

(** Level Clear. *)
Definition levelClear (render : ReactState) (w : World) : World :=
  match asteroidsRef w, ufoRef w with
  | [], None => if isPlaying (gameState render) then startNextLevel render w
                else w
  | _, _ => w
  end.

(** The clamped frame delta: [Math.min((time - previousTime) / 1000, 0.1)]. *)
Definition frameDt (inp : FrameInput) (w : World) : Q :=
  Num.min ((time inp - previousTimeRef w) / 1000) 0.1.

(** The canvas follows the window. *)
Definition resize (inp : FrameInput) (w : World) : World :=
  if negb (Qeq_bool (canvasWidth w) (innerWidth inp))
     || negb (Qeq_bool (canvasHeight w) (innerHeight inp))
  then with_canvasHeight (innerHeight inp)
         (with_canvasWidth (innerWidth inp) w)
  else w.

(** The simulation part of [animate] (drawing left out): one frame, run
    by the closure of the render [render].  The phase, the life count, the
    level and the score the frame reads are those of [render]; the
    writes go to the state cells in program order. *)
Definition animate (render : ReactState) (inp : FrameInput) (w : World)
  : World :=
  let dt := frameDt inp w in
  let w := resize inp (with_previousTimeRef (time inp) w) in
  if active (gameState render) then
    let w := update (gameState render) inp dt w in
    let w := if isPlaying (gameState render) then collisions render inp w
             else w in
    levelClear render w
  else w.

(** *** Handlers and deferred callbacks *)

Definition startGame (tnow : Q) (w : World) : World :=
  let r := react w in
  let r := with_score 0%Z r in
  let r := with_lives 3%Z r in
  let r := with_level 1%Z r in
  let r := with_gameState LEVEL_TRANSITION r in
  let r := with_newHighScoreIndex None r in
  let r := with_initials EmptyString r in
  let w := with_react r w in
  let w := with_asteroidsRef [] w in
  let w := with_bulletsRef [] w in
  let w := with_particlesRef [] w in
  let w := with_powerUpsRef [] w in
  let w := with_missilesRef [] w in
  let w := with_ufoRef None w in
  let w := with_lastUfoSpawnTimeRef tnow w in
  let w := resetShip (canvasWidth w) (canvasHeight w) w in
  setTimeout TStartGame w.

(** The missile the key handler fires from the nose of the craft. *)
Definition newMissile (ship : Ship) (w : World) : Missile :=
  let a := angle (entity ship) in
  let nose := rotatePoint cos sin {| px := rad ship; py := 0 |} a in
  {| missileEntity :=
       {| id := IdRandom (rnd w 0);
          position := {| px := px (pos ship) + px nose;
                         py := py (pos ship) + py nose |};
          velocity := {| px := cos a * MISSILE_SPEED;
                         py := sin a * MISSILE_SPEED |};
          angle := a;
          radius := 5;
          color := "#ef4444";
          dead := false |};
     missileLife := 3.0 |}.

Definition isMissileKey (code : string) : bool :=
  String.eqb code "KeyM" || String.eqb code "ShiftLeft"
  || String.eqb code "ShiftRight".

(** [handleKeyDown], registered by the render whose phase is [g]. *)
Definition handleKeyDown (g : GameState) (code : string) (tnow : Q)
    (w : World) : World :=
  match g with
  | ENTER_INITIALS => w
  | _ =>
      let w := with_keysRef (setKey code true (keysRef w)) w in
      let w := if String.eqb code "Space" && match g with MENU => true
                                             | _ => false end
               then startGame tnow w else w in
      if isMissileKey code && isPlaying g then
        match shipRef w with
        | Some ship =>
            if negb (isDead ship) && (0 <? missileAmmo ship)%Z then
              let ship := with_missileAmmo (missileAmmo ship - 1) ship in
              pushMissile (newMissile ship w)
                (drawn 1 (with_shipRef (Some ship) w))
            else w
        | None => w
        end
      else w
  end.

Definition handleKeyUp (code : string) (w : World) : World :=
  with_keysRef (setKey code false (keysRef w)) w.

(** [highScores.length < 10 || score > highScores[highScores.length - 1].score]. *)
Definition isHighScore (sc : Z) (hs : list HighScore) : bool :=
  (List.length hs <? 10)%nat
  || match last (map Some hs) None with
     | Some h => (hsScore h <? sc)%Z
     | None => false
     end.

(** The reset of the craft in the callback of [startNextLevel]. *)
Definition recentre (width height : Q) (ship : Ship) : Ship :=
  let ship := setPos {| px := width / 2; py := height / 2 |} ship in
  let ship := setVel {| px := 0; py := 0 |} ship in
  let ship := setAngle (- Math_PI / 2) ship in
  let ship := with_invulnerable 3.0 ship in
  with_thrusting false ship.

(** Running a deferred callback; [None] when a position search of
    [spawnAsteroids] outlasts [fuel] attempts. *)
Definition runTimer (fuel : nat) (tnow : Q) (t : Timer) (w : World)
  : option World :=
  match t with
  | TStartGame =>
      match spawnAsteroids fuel 3 0 (canvasWidth w) (canvasHeight w) w with
      | Some w => Some (setGameState PLAYING w)
      | None => None
      end
  | TNextLevel nextLevel =>
      let w := onShip (recentre (canvasWidth w) (canvasHeight w)) w in
      match spawnAsteroids fuel 3 nextLevel (canvasWidth w) (canvasHeight w) w
      with
      | Some w => Some (with_lastUfoSpawnTimeRef tnow (setGameState PLAYING w))
      | None => None
      end
  | TGameOver sc hs =>
      Some (setGameState (if isHighScore sc hs then ENTER_INITIALS
                          else HIGH_SCORES) w)
  | TRespawn capturedLives =>
      Some (if (0 <? capturedLives)%Z
            then resetShip (canvasWidth w) (canvasHeight w) w
            else w)
  end.

End Game.

(** *** The leaderboard *)

(** [toUpperCase] on the letters a to z. *)
Definition upper (c : Ascii.ascii) : Ascii.ascii :=
  let n := Ascii.nat_of_ascii c in
  if ((97 <=? n) && (n <=? 122))%nat then Ascii.ascii_of_nat (n - 32) else c.

Fixpoint toUpperCase (s : string) : string :=
  match s with
  | EmptyString => EmptyString
  | String c rest => String (upper c) (toUpperCase rest)
  end.

(** Insertion in a list sorted by descending score, after the entries of
    equal score: one step of the stable [sort((a, b) => b.score - a.score)]. *)
Fixpoint insertScore (e : HighScore) (l : list HighScore) : list HighScore :=
  match l with
  | [] => [e]
  | h :: rest => if (hsScore h <? hsScore e)%Z then e :: h :: rest
                 else h :: insertScore e rest
  end.

Definition sortScores (l : list HighScore) : list HighScore :=
  fold_left (fun acc e => insertScore e acc) l [].

(** [findIndex], -1 when nothing matches. *)
Fixpoint findIndex {A} (f : A -> bool) (l : list A) (i : Z) : Z :=
  match l with
  | [] => (-1)%Z
  | x :: rest => if f x then i else findIndex f rest (i + 1)%Z
  end.

Definition submitScore (tnow : Q) (w : World) : World :=
  let r := react w in
  let cleanInitials :=
    match substring 0 3 (toUpperCase (initials r)) with
    | EmptyString => "UNK"%string
    | s => s
    end in
  let newEntry := mkHighScore cleanInitials (score r) tnow in
  let newScores := firstn 10 (sortScores (highScores r ++ [newEntry])) in
  let index := findIndex (fun s => Qeq_bool (hsDate s) (hsDate newEntry)
                                   && (hsScore s =? hsScore newEntry)%Z)
                         newScores 0%Z in
  let r := with_highScores newScores r in
  let r := with_newHighScoreIndex (Some index) r in
  with_react (with_gameState HIGH_SCORES r) w.

(** The board [loadHighScores] shows when nothing is stored, given the
    successive results of [Date.now()]. *)
Definition defaultScores (dateNow : nat -> Q) : list HighScore :=
  [ mkHighScore "AAA" 10000 (dateNow 0%nat);
    mkHighScore "BOB" 8000 (dateNow 1%nat);
    mkHighScore "HAL" 5000 (dateNow 2%nat);
    mkHighScore "CPU" 3000 (dateNow 3%nat);
    mkHighScore "NEO" 1000 (dateNow 4%nat) ].

(* ================================================================== *)
(** ** services/geminiService.ts *)

Module Commentary.

Local Open Scope string_scope.

Inductive Context : Set := start | game_over | level_clear.

(** What [ai.models.generateContent] does with a prompt: it answers,
    with a text or without one, or it throws. *)
Inductive Reply : Set :=
| Answer (text : option string)
| Thrown.

(** The module's [ai]: [None] without an API key, else the client, as
    the function from the prompt to what the request does. *)
Definition Client : Set := option (string -> Reply).

Definition getFallback (context : Context) : string :=
  match context with
  | start => "Systems Online. Prepare for Asteroid Field."
  | game_over => "Critical Failure. Systems Offline."
  | level_clear => "Sector Cleared. Jumping to next sector."
  end.

(** The score as the template literal prints it: a whole number in
    decimal, [undefined] when the argument was left out. *)
Definition showScore (score : option Z) : string :=
  match score with
  | Some z => NilZero.string_of_int (Z.to_int z)
  | None => "undefined"
  end.

Definition prompt (context : Context) (score : option Z) : string :=
  match context with
  | start =>
      "You are a spaceship AI. Give a short, 1-sentence, cool, sci-fi status update preparing the pilot for an asteroid field."
  | game_over =>
      "You are a sarcastic spaceship AI. The ship was just destroyed. Score was "
      ++ showScore score
      ++ ". Give a 1-sentence snarky comment about the pilot's flying skills."
  | level_clear =>
      "You are a spaceship AI. The sector is cleared. Give a 1-sentence encouraging remark about jumping to hyperspace."
  end.

(** [response.text || getFallback()]. *)
Definition orFallback (context : Context) (text : option string) : string :=
  match text with
  | Some (String c s) => String c s
  | _ => getFallback context
  end.

Definition generateGameCommentary (ai : Client) (context : Context)
    (score : option Z) : string :=
  match ai with
  | None => getFallback context
  | Some generateContent =>
      match generateContent (prompt context score) with
      | Answer text => orFallback context text
      | Thrown => getFallback context
      end
  end.

End Commentary.

(* ================================================================== *)
(** ** The component as a transition system *)

(** What the page does to the game: a frame, a key, a deferred callback
    coming due, or a click on what the current phase displays. *)
Inductive Event : Type :=
| EFrame (inp : FrameInput)
| EKeyDown (code : string) (tnow : Q)
| EKeyUp (code : string)
| ETimer (i : nat) (fuel : nat) (tnow : Q)
| EClickStart (tnow : Q)
| EClickViewScores
| EClickMenu
| EType (s : string)
| EClickSubmit (tnow : Q).

(** The state of the page: the cells, and the render whose closure the
    running frame loop holds.  The loop is re-registered when the phase
    changes, so its closure has the current phase and the score, lives
    and level of the render that changed it. *)
Record Sys : Type := mkSys {
  world : World;
  render : ReactState
}.

Definition GameState_eqb (a b : GameState) : bool :=
  match a, b with
  | MENU, MENU | PLAYING, PLAYING | GAME_OVER, GAME_OVER
  | ENTER_INITIALS, ENTER_INITIALS | HIGH_SCORES, HIGH_SCORES
  | LEVEL_TRANSITION, LEVEL_TRANSITION => true
  | _, _ => false
  end.

(** After an event React renders again; the effect that owns the loop
    runs again only when the phase changed. *)
Definition commit (s : Sys) (w : World) : Sys :=
  {| world := w;
     render := if GameState_eqb (gameState (react w)) (gameState (render s))
               then render s else react w |}.

(** [l] without its [i]-th element. *)
Definition removeNth {A} (i : nat) (l : list A) : list A :=
  firstn i l ++ skipn (S i) l.

Definition phase (s : Sys) : GameState := gameState (react (world s)).

(** The queue of pending callbacks without the one that comes due. *)
Definition timerOff (i : nat) (w : World) : World :=
  with_timers (removeNth i (timers w)) w.

Definition step (host : Host) (e : Event) (s : Sys) : option Sys :=
  let w := world s in
  match e with
  | EFrame inp => Some (commit s (animate host (render s) inp w))
  | EKeyDown code tnow =>
      Some (commit s (handleKeyDown host (phase s) code tnow w))
  | EKeyUp code => Some (commit s (handleKeyUp code w))
  | ETimer i fuel tnow =>
      match nth_error (timers w) i with
      | Some t =>
          match runTimer host fuel tnow t (timerOff i w) with
          | Some w' => Some (commit s w')
          | None => None
          end
      | None => None
      end
  | EClickStart tnow =>
      match phase s with
      | MENU | HIGH_SCORES => Some (commit s (startGame tnow w))
      | _ => None
      end
  | EClickViewScores =>
      match phase s with
      | MENU => Some (commit s (setGameState HIGH_SCORES w))
      | _ => None
      end
  | EClickMenu =>
      match phase s with
      | HIGH_SCORES => Some (commit s (setGameState MENU w))
      | _ => None
      end
  | EType str =>
      match phase s with
      | ENTER_INITIALS =>
          Some (commit s (with_react
                            (with_initials (toUpperCase str) (react w)) w))
      | _ => None
      end
  | EClickSubmit tnow =>
      match phase s, initials (react w) with
      | ENTER_INITIALS, String _ _ => Some (commit s (submitScore tnow w))
      | _, _ => None
      end
  end.

(** The page as first rendered, with the leaderboard [hs] it loaded. *)
Definition initialReact (hs : list HighScore) : ReactState :=
  {| gameState := MENU;
     score := 0;
     lives := 3;
     level := 1;
     aiMessage := "Initializing...";
     highScores := hs;
     initials := EmptyString;
     newHighScoreIndex := None |}.

Definition initialWorld (hs : list HighScore) (width height : Q) : World :=
  {| react := initialReact hs;
     shipRef := None;
     ufoRef := None;
     asteroidsRef := [];
     bulletsRef := [];
     particlesRef := [];
     powerUpsRef := [];
     missilesRef := [];
     keysRef := fun _ => false;
     lastUfoSpawnTimeRef := 0;
     nextUfoSpawnDelayRef := 20000;
     previousTimeRef := 0;
     canvasWidth := width;
     canvasHeight := height;
     timers := [];
     randomCount := 0 |}.

Definition initialSys (hs : list HighScore) (width height : Q) : Sys :=
  {| world := initialWorld hs width height; render := initialReact hs |}.

(** The states the page can be in. *)
Inductive reachable (host : Host) : Sys -> Prop :=
| reach_init hs width height : reachable host (initialSys hs width height)
| reach_step s e s' :
    reachable host s -> step host e s = Some s' -> reachable host s'.

(** Running a list of events, when each is enabled. *)
Fixpoint run (host : Host) (es : list Event) (s : Sys) : option Sys :=
  match es with
  | [] => Some s
  | e :: rest =>
      match step host e s with
      | Some s' => run host rest s'
      | None => None
      end
  end.

(* ================================================================== *)
(** ** Predicates of the properties *)

(** Particles pushed and draws made, nothing else. *)
Definition sparks (w w' : World) : Prop :=
  exists ps k, w' = with_particlesRef (particlesRef w ++ ps) (drawn k w).

(** What the craft keeps through the steps of Ship Logic that do not
    move it. *)
Definition sameBody (s s' : Ship) : Prop :=
  isDead s' = isDead s /\ pos s' = pos s /\ rad s' = rad s
  /\ invulnerable s' = invulnerable s
  /\ powerupShieldTimer s' = powerupShieldTimer s.

(** Bullets pushed and draws made, nothing else. *)
Definition shots (w w' : World) (fired : list Bullet) : Prop :=
  exists k, w' = with_bulletsRef (bulletsRef w ++ fired) (drawn k w).

(** What Ship Logic does to the craft [sh] the frame found. *)
Definition shipStepped (g : GameState) (dt width height : Q)
    (sh sh' : option Ship) : Prop :=
  match sh with
  | None => sh' = None
  | Some ship =>
      exists ship', sh' = Some ship'
        /\ isDead ship' = isDead ship /\ rad ship' = rad ship
        /\ if isPlaying g && negb (isDead ship)
           then pos ship' = wrapPosition
                              {| px := px (pos ship) + px (vel ship') * dt;
                                 py := py (pos ship) + py (vel ship') * dt |}
                              width height
                /\ invulnerable ship' = countDown dt (invulnerable ship)
                /\ powerupShieldTimer ship'
                   = countDown dt (powerupShieldTimer ship)
           else ship' = ship
  end.

(** What collision resolution may do to the craft: it stays where it is,
    a pick-up may start its shield, and a dead craft is left alone. *)
Definition hull (s s' : Ship) : Prop :=
  pos s' = pos s /\ rad s' = rad s /\ invulnerable s' = invulnerable s
  /\ (powerupShieldTimer s' = powerupShieldTimer s
      \/ powerupShieldTimer s' = POWERUP_DURATION)
  /\ (isDead s = true ->
      isDead s' = true /\ powerupShieldTimer s' = powerupShieldTimer s).

Definition hullOpt (o o' : option Ship) : Prop :=
  match o, o' with
  | None, None => True
  | Some s, Some s' => hull s s'
  | _, _ => False
  end.

(** The craft has not died between [w] and [w']. *)
Definition noDeath (w w' : World) : Prop :=
  lives (react w') = lives (react w)
  /\ gameState (react w') = gameState (react w)
  /\ timers w' = timers w
  /\ shipAlive w' = shipAlive w.

(** The craft that just died had neither shield nor invulnerability. *)
Definition exposed (w : World) : Prop :=
  match shipRef w with
  | Some s => powerupShieldTimer s <= 0 /\ invulnerable s <= 0
  | None => False
  end.

(** The craft has died exactly once between [w] and [w']: one life
    less, and either the game-over transition or one deferred respawn. *)
Definition oneDeath (render : ReactState) (w w' : World) : Prop :=
  shipAlive w = true /\ shipAlive w' = false
  /\ lives (react w') = (lives (react w) - 1)%Z
  /\ exposed w'
  /\ if (lives (react w') <=? 0)%Z
     then gameState (react w') = GAME_OVER
          /\ timers w' = timers w
                         ++ [TGameOver (score render) (highScores render)]
     else gameState (react w') = gameState (react w)
          /\ timers w' = timers w ++ [TRespawn (lives render)].

(** What collision resolution keeps and what it may change. *)
Record settles (render : ReactState) (w w' : World) : Prop := mkSettles {
  st_canvas : canvasWidth w' = canvasWidth w
              /\ canvasHeight w' = canvasHeight w;
  st_level : level (react w') = level (react w);
  st_asteroids : forall a, In a (asteroidsRef w') ->
                 exists a0, In a0 (asteroidsRef w) /\ pos a = pos a0;
  st_powerUps : forall p, In p (powerUpsRef w') ->
                (exists p0, In p0 (powerUpsRef w) /\ pos p = pos p0)
                \/ (exists a0, In a0 (asteroidsRef w) /\ pos p = pos a0)
                \/ (exists u0, ufoRef w = Some u0 /\ pos p = pos u0);
  st_ufo : ufoRef w' = ufoRef w \/ ufoRef w' = None;
  st_ship : hullOpt (shipRef w) (shipRef w');
  st_life : noDeath w w' \/ oneDeath render w w'
}.

(** Steps that write neither the craft, the counters nor the timers. *)
Definition calm (w w' : World) : Prop :=
  canvasWidth w' = canvasWidth w /\ canvasHeight w' = canvasHeight w
  /\ level (react w') = level (react w)
  /\ lives (react w') = lives (react w)
  /\ gameState (react w') = gameState (react w)
  /\ timers w' = timers w
  /\ shipRef w' = shipRef w.

(** The children of a destroyed obstacle: none for a small one, two of
    the next class otherwise, alive and where the parent was. *)
Definition brood (a : Asteroid) (cs : list Asteroid) : Prop :=
  List.length cs = match size a with small => 0%nat | _ => 2%nat end
  /\ Forall (fun c => pos c = pos a /\ size c = nextSize (size a)
                      /\ isDead c = false
                      /\ rad c = cfgRadius (ASTEROID_CONFIG (nextSize (size a))))
            cs.

(** The state of a frame when it reaches the Level Clear check. *)
Definition beforeLevelClear (host : Host) (render : ReactState)
    (inp : FrameInput) (w : World) : World :=
  let dt := frameDt inp w in
  let w := resize inp (with_previousTimeRef (time inp) w) in
  if active (gameState render) then
    let w := update host (gameState render) inp dt w in
    if isPlaying (gameState render) then collisions host render inp w else w
  else w.

Definition isRespawn (t : Timer) : bool :=
  match t with TRespawn _ => true | _ => false end.

Definition isGameOver (t : Timer) : bool :=
  match t with TGameOver _ _ => true | _ => false end.

(** The number of pending callbacks of one kind. *)
Definition pending (f : Timer -> bool) (w : World) : nat :=
  List.length (filter f (timers w)).

(** What holds of every state the page can reach. *)
Record Inv (s : Sys) : Prop := mkInv {
  inv_sync : gameState (render s) = phase s;
  inv_lives : (0 <= lives (react (world s)))%Z;
  inv_alive : shipAlive (world s) = true ->
              (1 <= lives (react (world s)))%Z
              /\ pending isRespawn (world s) = 0%nat
              /\ pending isGameOver (world s) = 0%nat;
  inv_respawn : pending isRespawn (world s) = 0%nat
                \/ (pending isRespawn (world s) = 1%nat
                    /\ shipAlive (world s) = false
                    /\ (1 <= lives (react (world s)))%Z
                    /\ (phase s = PLAYING \/ phase s = LEVEL_TRANSITION));
  inv_gameOver : pending isGameOver (world s) = 0%nat
                 \/ (pending isGameOver (world s) = 1%nat
                     /\ shipAlive (world s) = false
                     /\ (lives (react (world s)) <= 0)%Z
                     /\ (phase s = GAME_OVER \/ phase s = PLAYING
                         \/ phase s = LEVEL_TRANSITION))
}.

(** The part of the state the invariant reads. *)
Definition core (w : World) : Z * GameState * nat * nat * bool :=
  (lives (react w), gameState (react w), pending isRespawn w,
   pending isGameOver w, shipAlive w).

(** The invariant as a property of the core alone. *)
Definition coreOk (c : Z * GameState * nat * nat * bool) : Prop :=
  let '(l, g, r, o, a) := c in
  (0 <= l)%Z
  /\ (a = true -> (1 <= l)%Z /\ r = 0%nat /\ o = 0%nat)
  /\ (r = 0%nat \/ (r = 1%nat /\ a = false /\ (1 <= l)%Z
                    /\ (g = PLAYING \/ g = LEVEL_TRANSITION)))
  /\ (o = 0%nat \/ (o = 1%nat /\ a = false /\ (l <= 0)%Z
                    /\ (g = GAME_OVER \/ g = PLAYING
                        \/ g = LEVEL_TRANSITION))).

(** The state of a frame when its update half is done. *)
Definition afterUpdate (host : Host) (render : ReactState) (inp : FrameInput)
    (w : World) : World :=
  update host (gameState render) inp (frameDt inp w)
         (resize inp (with_previousTimeRef (time inp) w)).

(** A host whose cosine and sine lie on the unit circle. *)
Definition unitCircle (host : Host) : Prop :=
  forall a, Math_cos host a * Math_cos host a
            + Math_sin host a * Math_sin host a == 1.

(** A host whose draws are those of [Math.random()]: in [0, 1). *)
Definition unitDraws (host : Host) : Prop :=
  forall n, 0 <= Math_random host n < 1.

(** The square of the distance of a point to the origin. *)
Definition norm2 (p : Point) : Q := px p * px p + py p * py p.

(** Where [spawnAsteroids] puts nothing: the open square of half side 150
    around the centre. *)
Definition nearCentre (width height : Q) (p : Point) : Prop :=
  Math_abs (px p - width / 2) < 150 /\ Math_abs (py p - height / 2) < 150.

(** A large obstacle as [spawnAsteroids] makes it. *)
Definition largeRock (width height : Q) (a : Asteroid) : Prop :=
  size a = large /\ isDead a = false
  /\ rad a = cfgRadius (ASTEROID_CONFIG large)
  /\ ~ nearCentre width height (pos a)
  /\ List.length (vertices a) = 10%nat.

(** The type a drop gets from the draw [r]: a quarter of the draws
    each. *)
Definition quarter (r : Q) : PowerUpType :=
  if Num.ltb r (1 # 4) then MULTI_SHOT
  else if Num.ltb r (1 # 2) then SHIELD
  else if Num.ltb r (3 # 4) then TIME_SLOW
  else MISSILE.

(** A bullet as the craft fires it. *)
Definition shipBullet (host : Host) (b : Bullet) : Prop :=
  owner b = OwnerShip /\ isDead b = false /\ bulletLife b = BULLET_LIFE
  /\ (unitCircle host -> norm2 (vel b) == BULLET_SPEED * BULLET_SPEED).

(** Everything in a collection is alive with time left to live. *)
Definition living {T} `{IsEntity T} (life : T -> Q) (l : list T) : Prop :=
  Forall (fun x => isDead x = false /\ 0 < life x) l.

(** The craft at [ship] reaches the power-up [p]. *)
Definition reaches (ship : Ship) (p : PowerUp) : bool :=
  checkCollision (pos ship) (rad ship * 1.5) (pos p) (rad p).

Definition isType (t : PowerUpType) (p : PowerUp) : bool :=
  match t, ptype p with
  | MULTI_SHOT, MULTI_SHOT | SHIELD, SHIELD | TIME_SLOW, TIME_SLOW
  | MISSILE, MISSILE => true
  | _, _ => false
  end.

(** One of the power-ups [ps] that [hit] selects is of the type [t]. *)
Definition took (hit : PowerUp -> bool) (t : PowerUpType)
    (ps : list PowerUp) : bool :=
  existsb (fun p => hit p && isType t p) ps.

(** The countdown [old] after the pick-ups among [ps]: restarted when
    one of them is of the type [t]. *)
Definition restarted (t : PowerUpType) (ship : Ship) (ps : list PowerUp)
    (old : Q) : Q :=
  if took (reaches ship) t ps then POWERUP_DURATION else old.

(** The score has not gone down between [w] and [w']. *)
Definition gains (w w' : World) : Prop :=
  (score (react w) <= score (react w'))%Z.

(** The counters of a render are within the bounds of the game. *)
Definition inBounds (r : ReactState) : Prop :=
  (0 <= score r)%Z /\ (lives r <= 3)%Z /\ (1 <= level r)%Z.

(** The cells and the closure of the frame loop are both within bounds. *)
Definition bounded (s : Sys) : Prop :=
  inBounds (react (world s)) /\ inBounds (render s).

(** [a] ranks no lower than [b]. *)
Definition outranks (a b : HighScore) : Prop := (hsScore b <= hsScore a)%Z.

(** A board in descending order of score. *)
Definition descending (l : list HighScore) : Prop :=
  StronglySorted outranks l.

(** An entry with the score of [r] and the date [tnow], as [submitScore]
    builds it. *)
Definition entered (r : ReactState) (tnow : Q) (h : HighScore) : Prop :=
  hsScore h = score r /\ hsDate h == tnow.

(** The state of a frame in the Playing phase when its pass over the
    bullets begins: the update half and the pick-ups are done. *)
Definition beforeBullets (host : Host) (render : ReactState)
    (inp : FrameInput) (w : World) : World :=
  pickUpPowerUps (afterUpdate host render inp w).

(** The same when its pass over the missiles begins. *)
Definition beforeMissiles (host : Host) (render : ReactState)
    (inp : FrameInput) (w : World) : World :=
  bulletsCollision host render inp (beforeBullets host render inp w).

(** The only change is the dead flag, set or not. *)
Definition flagged {T} `{IsEntity T} (x x' : T) : Prop :=
  x' = x \/ x' = kill x.

(** The bullets and the missiles in flight are the same in [w] and
    [w']. *)
Definition sameShots (w w' : World) : Prop :=
  bulletsRef w' = bulletsRef w /\ missilesRef w' = missilesRef w.

(** The obstacles of [w'] are those of [w], as many, and one that was
    marked dead in [w] is in its place in [w']. *)
Definition rocksFlagged (w w' : World) : Prop :=
  List.length (asteroidsRef w') = List.length (asteroidsRef w)
  /\ forall i a, nth_error (asteroidsRef w) i = Some (kill a) ->
                 nth_error (asteroidsRef w') i = Some (kill a).

(* ================================================================== *)
(** ** Scenarios *)

(** A host for the scenarios: every heading points left, and the draws
    put each new obstacle on the right of the centre.  Only the run of a
    whole game below calls its functions; the single frames of the other
    scenarios hold no key, fire nothing and draw nothing. *)
Definition sampleHost : Host :=
  {| Math_cos := fun _ => -1;
     Math_sin := fun _ => 0;
     Math_atan2 := fun _ _ => 0;
     Math_random := fun n => if (n mod 16 =? 0)%nat then 0.7 else 0.5 |}.

(** The [k]-th frame of a page that draws ten frames a second on an
    800 x 600 window. *)
Definition frameAt (k : nat) : FrameInput :=
  {| time := inject_Z (100 * Z.of_nat k); now := 0;
     innerWidth := 800; innerHeight := 600 |}.

(** A new game: the start click, its deferred callback, then thirty
    frames with no key held.  The obstacles drift onto the craft and
    reach it as its invulnerability runs out. *)
Definition deathRun : list Event :=
  EClickStart 0 :: ETimer 0 5 0 :: map (fun k => EFrame (frameAt k)) (seq 1 30).

Definition deathScene : Sys :=
  Eval vm_compute in
    match run sampleHost deathRun (initialSys [] 800 600) with
    | Some s => s
    | None => initialSys [] 800 600
    end.

Definition bulletAt (x y vx vy : Q) (o : Owner) : Bullet :=
  {| bulletEntity :=
       {| id := IdRandom 0;
          position := {| px := x; py := y |};
          velocity := {| px := vx; py := vy |};
          angle := 0;
          radius := match o with OwnerShip => 2 | OwnerUfo => 3 end;
          color := match o with
                   | OwnerShip => "#facc15"
                   | OwnerUfo => "#22c55e"
                   end;
          dead := false |};
     bulletLife := BULLET_LIFE;
     owner := o |}.

Definition missileAt (x y : Q) : Missile :=
  {| missileEntity :=
       {| id := IdRandom 0;
          position := {| px := x; py := y |};
          velocity := {| px := MISSILE_SPEED; py := 0 |};
          angle := 0;
          radius := 5;
          color := "#ef4444";
          dead := false |};
     missileLife := 3.0 |}.

(** An obstacle at rest. *)
Definition rock (s : Size) (x y : Q) (d : bool) : Asteroid :=
  {| asteroidEntity :=
       {| id := IdRandom 0;
          position := {| px := x; py := y |};
          velocity := {| px := 0; py := 0 |};
          angle := 0;
          radius := cfgRadius (ASTEROID_CONFIG s);
          color := "#f472b6";
          dead := d |};
     size := s;
     vertices := [];
     asteroidRotationSpeed := 0 |}.

Definition saucerAt (x y : Q) : Ufo :=
  {| ufoEntity :=
       {| id := IdUfo;
          position := {| px := x; py := y |};
          velocity := {| px := UFO_SPEED; py := 0 |};
          angle := 0;
          radius := UFO_SIZE;
          color := "#a855f7";
          dead := false |};
     directionChangeTimer := 1;
     shootCooldown := 2.0;
     accuracy := 0.8 |}.

Definition reactIn (g : GameState) : ReactState :=
  with_gameState g (initialReact []).

Definition worldIn (g : GameState) : World :=
  with_react (reactIn g) (initialWorld [] 800 600).

(** Game over with a craft-owned bullet still in flight near the right
    edge. *)
Definition flightWorld : World :=
  with_bulletsRef [bulletAt 790 300 400 0 OwnerShip] (worldIn GAME_OVER).

(** Playing, the craft both shielded and still invulnerable, a hostile
    bullet about to reach it and an obstacle far away. *)
Definition shieldedShip : Ship :=
  with_powerupShieldTimer 5 (with_invulnerable 1 (freshShip 800 600)).

Definition shieldedWorld : World :=
  with_shipRef (Some shieldedShip)
    (with_bulletsRef [bulletAt 380 300 200 0 OwnerUfo]
       (with_asteroidsRef [rock large 100 100 false] (worldIn PLAYING))).

(** The same with the invulnerability over. *)
Definition exposedShieldShip : Ship :=
  with_powerupShieldTimer 5 (with_invulnerable 0 (freshShip 800 600)).

Definition shieldOnlyWorld : World :=
  with_shipRef (Some exposedShieldShip)
    (with_asteroidsRef [rock large 400 300 false] (worldIn PLAYING)).

(** Playing on the last life, the craft exposed and an obstacle on it. *)
Definition lastLifeWorld : World :=
  with_shipRef (Some (with_invulnerable 0 (freshShip 800 600)))
    (with_asteroidsRef [rock large 400 300 false]
       (with_react (with_lives 1%Z (reactIn PLAYING))
                   (initialWorld [] 800 600))).

(** The same with the hostile unit on the craft and no obstacle left. *)
Definition ramWorld : World :=
  with_shipRef (Some (with_invulnerable 0 (freshShip 800 600)))
    (with_ufoRef (Some (saucerAt 400 300))
       (with_react (with_lives 1%Z (reactIn PLAYING))
                   (initialWorld [] 800 600))).

(** Game over with an obstacle a missile had marked dead. *)
Definition wreckWorld : World :=
  with_asteroidsRef [rock small 100 100 true] (worldIn GAME_OVER).

(** Playing under time dilation. *)
Definition slowShip : Ship :=
  with_powerupTimeSlowTimer 5 (freshShip 800 600).

Definition slowWorld : World :=
  with_shipRef (Some slowShip)
    (with_asteroidsRef [rock large 100 100 false] (worldIn PLAYING)).

(** A field with one obstacle of each class in a row. *)
Definition rocksWorld : World :=
  with_asteroidsRef [rock small 100 100 false; rock large 300 100 false]
    (with_ufoRef (Some (saucerAt 600 500)) (worldIn PLAYING)).

(** A host on the unit circle whose draws are all one twentieth: every
    heading has cosine 3/5 and sine 4/5, every destroyed obstacle drops
    a power-up, and every position drawn is near the top left corner. *)
Definition steadyHost : Host :=
  {| Math_cos := fun _ => 3 # 5;
     Math_sin := fun _ => 4 # 5;
     Math_atan2 := fun _ _ => 0;
     Math_random := fun _ => 1 # 20 |}.

(** The menu's world after [spawnAsteroids(3, 0)]. *)
Definition fieldWorld : World :=
  Eval vm_compute in
    match spawnAsteroids steadyHost 1 3 0 800 600 (initialWorld [] 800 600) with
    | Some w => w
    | None => initialWorld [] 800 600
    end.

(** A new game when its deferred callback has run. *)
Definition newGameWorld : World :=
  Eval vm_compute in
    match runTimer steadyHost 1 0 TStartGame
            (startGame 0 (initialWorld [] 800 600)) with
    | Some w => w
    | None => initialWorld [] 800 600
    end.

(** Between two levels with the craft dead, and the same when the
    callback of the level change has run. *)
Definition clearedWorld : World :=
  with_shipRef (Some (kill (with_missileAmmo 2 (freshShip 800 600))))
    (worldIn LEVEL_TRANSITION).

Definition nextLevelWorld : World :=
  Eval vm_compute in
    match runTimer steadyHost 1 7 (TNextLevel 2) clearedWorld with
    | Some w => w
    | None => clearedWorld
    end.

(** A hostile unit past the right edge by more than the margin, about to
    fire, and the craft alive at the centre. *)
Definition partingSaucer : Ufo :=
  with_shootCooldown (1 # 20) (saucerAt 845 300).

Definition partingWorld : World :=
  with_shipRef (Some (freshShip 800 600))
    (with_ufoRef (Some partingSaucer) (worldIn PLAYING)).

(** A missile on a large obstacle, with a small one further away. *)
Definition strikeWorld : World :=
  with_missilesRef [missileAt 300 100]
    (with_asteroidsRef [rock small 100 100 false; rock large 300 100 false]
       (worldIn PLAYING)).

(** The craft, its invulnerability over, on an obstacle a missile has
    marked dead. *)
Definition bareShip : Ship := with_invulnerable 0 (freshShip 800 600).

Definition wreckRamWorld : World :=
  with_shipRef (Some bareShip)
    (with_asteroidsRef [rock small 400 300 true] (worldIn PLAYING)).

(** The craft with two missiles. *)
Definition armedShip : Ship := with_missileAmmo 2 (freshShip 800 600).

Definition armedWorld : World :=
  with_shipRef (Some armedShip) (worldIn PLAYING).

(** The initials being typed after a game of 1500 points, on the default
    board. *)
Definition entryWorld : World :=
  with_react
    (with_initials "ab"
       (with_score 1500%Z
          (with_highScores (defaultScores (fun _ => 0))
             (reactIn ENTER_INITIALS))))
    (initialWorld [] 800 600).

(** Playing, a craft-owned bullet about to reach the large obstacle of
    [rocksWorld]. *)
Definition shotWorld : World :=
  with_bulletsRef [bulletAt 260 100 400 0 OwnerShip] rocksWorld.

(** That bullet when the pass over the bullets begins. *)
Definition shotBullet : Bullet :=
  Eval vm_compute in
    hd (bulletAt 0 0 0 0 OwnerShip)
       (bulletsRef (beforeBullets sampleHost (reactIn PLAYING) (frameAt 1)
                                  shotWorld)).

(** The two obstacles of [rocksWorld] when the update half of a frame is
    done. *)
Definition updatedRocks : Asteroid * Asteroid :=
  Eval vm_compute in
    match asteroidsRef (afterUpdate sampleHost (reactIn PLAYING) (frameAt 1)
                                    rocksWorld) with
    | [a; b] => (a, b)
    | _ => (rock small 0 0 true, rock small 0 0 true)
    end.

(** Playing, a missile about to reach the large obstacle of
    [rocksWorld]. *)
Definition homingWorld : World :=
  with_missilesRef [missileAt 300 100] rocksWorld.

(** That missile when the pass over the missiles begins. *)
Definition homedMissile : Missile :=
  Eval vm_compute in
    hd (missileAt 0 0)
       (missilesRef (beforeMissiles sampleHost (reactIn PLAYING) (frameAt 1)
                                    homingWorld)).

(** Playing, the shield up and the invulnerability over, a hostile
    bullet about to reach the craft. *)
Definition shieldHitWorld : World :=
  with_shipRef (Some exposedShieldShip)
    (with_bulletsRef [bulletAt 380 300 200 0 OwnerUfo]
       (with_asteroidsRef [rock large 100 100 false] (worldIn PLAYING))).

(** The bullet and the craft of [shieldHitWorld] when the pass over the
    bullets begins. *)
Definition shieldHitBullet : Bullet :=
  Eval vm_compute in
    hd (bulletAt 0 0 0 0 OwnerUfo)
       (bulletsRef (beforeBullets sampleHost (reactIn PLAYING) (frameAt 1)
                                  shieldHitWorld)).

Definition shieldHitShip : Ship :=
  Eval vm_compute in
    match shipRef (beforeBullets sampleHost (reactIn PLAYING) (frameAt 1)
                                 shieldHitWorld) with
    | Some ship => ship
    | None => freshShip 0 0
    end.

(** Playing under time dilation with a hostile unit, a bullet of its
    own and a bullet of the craft in flight. *)
Definition slowSaucerWorld : World :=
  with_shipRef (Some slowShip)
    (with_ufoRef (Some (saucerAt 600 500))
       (with_bulletsRef [bulletAt 100 300 200 0 OwnerUfo;
                         bulletAt 100 400 200 0 OwnerShip]
          (with_asteroidsRef [rock large 100 100 false] (worldIn PLAYING)))).

(** Game over under time dilation: the craft died with the countdown
    running, the hostile unit is still crossing. *)
Definition slowWreckWorld : World :=
  with_shipRef (Some (kill slowShip))
    (with_ufoRef (Some (saucerAt 600 500))
       (with_asteroidsRef [rock large 100 100 false] (worldIn GAME_OVER))).

(** The page on [ramWorld], and the frame followed by the second of the
    callbacks it leaves pending. *)
Definition ramSys : Sys := {| world := ramWorld; render := react ramWorld |}.

Definition ramRun : list Event := [EFrame (frameAt 1); ETimer 1 5 0].

(* ================================================================== *)
(** * Properties *)

Import GameMath.

Module NumFacts.

Lemma ltb_lt x y : Num.ltb x y = true <-> x < y.
Proof. unfold Num.ltb, Qlt. apply Z.ltb_lt. Qed.

Lemma ltb_ge x y : Num.ltb x y = false <-> y <= x.
Proof. unfold Num.ltb, Qle. rewrite Z.ltb_ge. reflexivity. Qed.

Lemma leb_le x y : Num.leb x y = true <-> x <= y.
Proof. apply Qle_bool_iff. Qed.

Lemma leb_gt x y : Num.leb x y = false <-> y < x.
Proof.
  unfold Num.leb. split; intro H.
  - apply Qnot_le_lt. intro L. apply Qle_bool_iff in L. congruence.
  - destruct (Qle_bool x y) eqn:E; [|reflexivity].
    apply Qle_bool_iff in E. lra.
Qed.

Lemma gtb_gt x y : Num.gtb x y = true <-> y < x.
Proof. apply ltb_lt. Qed.

Lemma gtb_le x y : Num.gtb x y = false <-> x <= y.
Proof. apply ltb_ge. Qed.

Lemma min_le_l x y : Num.min x y <= x.
Proof.
  unfold Num.min. destruct (Num.ltb y x) eqn:E.
  - apply ltb_lt in E. lra.
  - lra.
Qed.

Lemma min_le_r x y : Num.min x y <= y.
Proof.
  unfold Num.min. destruct (Num.ltb y x) eqn:E.
  - lra.
  - apply ltb_ge in E. lra.
Qed.

End NumFacts.

(** Case analysis on the comparisons of the code that occur in the goal. *)
Ltac cmp_cases :=
  repeat match goal with
  | |- context [Num.gtb ?a ?b] =>
      let E := fresh "E" in
      destruct (Num.gtb a b) eqn:E;
      [apply NumFacts.gtb_gt in E | apply NumFacts.gtb_le in E]
  | |- context [Num.ltb ?a ?b] =>
      let E := fresh "E" in
      destruct (Num.ltb a b) eqn:E;
      [apply NumFacts.ltb_lt in E | apply NumFacts.ltb_ge in E]
  | |- context [Num.leb ?a ?b] =>
      let E := fresh "E" in
      destruct (Num.leb a b) eqn:E;
      [apply NumFacts.leb_le in E | apply NumFacts.leb_gt in E]
  end.

(* ================================================================== *)
(** ** gameMath: position wrap and angle normalization *)

Lemma wrapPosition_inField p width height :
  0 <= width -> 0 <= height ->
  inField width height (wrapPosition p width height).
Proof.
  intros Hw Hh. unfold inField, wrapPosition. cbn [px py].
  cmp_cases; lra.
Qed.

Lemma PI_pos : 0 < Math_PI.
Proof. reflexivity. Qed.

Lemma subWhile_le n : forall a,
  a <= Math_PI + inject_Z (Z.of_nat n) * (Math_PI * 2) ->
  subWhile n a <= Math_PI.
Proof.
  pose proof PI_pos as P.
  induction n as [|n IH]; intros a H.
  - cbn [subWhile]. change (inject_Z (Z.of_nat 0)) with 0 in H. lra.
  - cbn [subWhile]. cmp_cases; [|assumption].
    apply IH. rewrite Nat2Z.inj_succ in H. unfold Z.succ in H.
    rewrite inject_Z_plus in H. change (inject_Z 1) with 1 in H. lra.
Qed.

Lemma addWhile_ge n : forall a,
  - Math_PI - inject_Z (Z.of_nat n) * (Math_PI * 2) <= a ->
  - Math_PI <= addWhile n a.
Proof.
  pose proof PI_pos as P.
  induction n as [|n IH]; intros a H.
  - cbn [addWhile]. change (inject_Z (Z.of_nat 0)) with 0 in H. lra.
  - cbn [addWhile]. cmp_cases; [|assumption].
    apply IH. rewrite Nat2Z.inj_succ in H. unfold Z.succ in H.
    rewrite inject_Z_plus in H. change (inject_Z 1) with 1 in H. lra.
Qed.

Lemma addWhile_le n : forall a, a <= Math_PI -> addWhile n a <= Math_PI.
Proof.
  pose proof PI_pos as P.
  induction n as [|n IH]; intros a H; cbn [addWhile]; [assumption|].
  cmp_cases; [|assumption]. apply IH. lra.
Qed.





(** Computed exactly, [turns] is fuel enough for both loops. *)
Lemma turns_bound a : Qabs a <= inject_Z (Z.of_nat (turns a)).
Proof.
  unfold turns. rewrite Z2Nat.id.
  - apply Qle_ceiling.
  - pose proof (Qabs_nonneg a) as N. pose proof (Qle_ceiling (Qabs a)) as C.
    destruct (Z_lt_le_dec (Qceiling (Qabs a)) 0) as [L|L]; [|exact L].
    exfalso. assert (inject_Z (Qceiling (Qabs a)) < 0) as L'.
    { change 0 with (inject_Z 0). rewrite <- Zlt_Qlt. exact L. }
    lra.
Qed.

Lemma turns_enough_sub a :
  a <= Math_PI + inject_Z (Z.of_nat (turns a)) * (Math_PI * 2).
Proof.
  pose proof (turns_bound a) as B. pose proof (Qle_Qabs a) as A.
  assert (1 <= Math_PI * 2) as O by (unfold Math_PI; lra).
  pose proof PI_pos as P.
  assert (0 <= inject_Z (Z.of_nat (turns a))) as Z0.
  { pose proof (Qabs_nonneg a). lra. }
  nra.
Qed.

Lemma turns_enough_add a :
  - Math_PI - inject_Z (Z.of_nat (turns a)) * (Math_PI * 2) <= a.
Proof.
  pose proof (turns_bound a) as B. pose proof (Qle_Qabs (- a)) as A.
  rewrite Qabs_opp in A.
  assert (1 <= Math_PI * 2) as O by (unfold Math_PI; lra).
  pose proof PI_pos as P.
  assert (0 <= inject_Z (Z.of_nat (turns a))) as Z0.
  { pose proof (Qabs_nonneg a). lra. }
  nra.
Qed.

(** Computed exactly, both loops end and the angle they give is in the
    closed interval. *)
Lemma normalizeAngle_range a :
  - Math_PI <= normalizeAngle a <= Math_PI.
Proof.
  unfold normalizeAngle. split.
  - apply addWhile_ge, turns_enough_add.
  - apply addWhile_le, subWhile_le, turns_enough_sub.
Qed.


(* ================================================================== *)
(** ** Writes that leave the rest of the state alone *)

Lemma sparks_refl w : sparks w w.
Proof.
  exists [], 0%nat. destruct w; unfold drawn; cbn.
  rewrite app_nil_r, Nat.add_0_r. reflexivity.
Qed.

Lemma sparks_trans w1 w2 w3 : sparks w1 w2 -> sparks w2 w3 -> sparks w1 w3.
Proof.
  intros (ps & k & ->) (qs & j & ->). exists (ps ++ qs), (k + j)%nat.
  destruct w1; unfold drawn; cbn. rewrite app_assoc, Nat.add_assoc.
  reflexivity.
Qed.

Lemma sparks_drawn n w : sparks w (drawn n w).
Proof.
  exists [], n. destruct w; unfold drawn; cbn. rewrite app_nil_r. reflexivity.
Qed.

Lemma sparks_push p n w : sparks w (pushParticle p (drawn n w)).
Proof. exists [p], n. reflexivity. Qed.

Section Frames.

Variable host : Host.

Lemma explosionParticle_sparks p c w : sparks w (explosionParticle host p c w).
Proof. apply sparks_push. Qed.

Lemma createExplosion_sparks p c n : forall w,
  sparks w (createExplosion host p c n w).
Proof.
  induction n as [|n IH]; intro w; cbn [createExplosion].
  - apply sparks_refl.
  - eapply sparks_trans; [apply explosionParticle_sparks | apply IH].
Qed.

Lemma updateMissile_sparks dt m w :
  sparks w (snd (updateMissile host dt m w)).
Proof.
  unfold updateMissile.
  destruct (Num.gtb _ _); cbn [snd]; [apply sparks_push | apply sparks_drawn].
Qed.

Lemma updateMissiles_sparks dt ms : forall w,
  sparks w (snd (updateMissiles host dt ms w)).
Proof.
  induction ms as [|m ms IH]; intro w; cbn [updateMissiles].
  - apply sparks_refl.
  - pose proof (updateMissile_sparks dt m w) as H1.
    destruct (updateMissile host dt m w) as [m' w1]. cbn [snd] in H1.
    pose proof (IH w1) as H2.
    destruct (updateMissiles host dt ms w1) as [rest' w2]. cbn [snd] in *.
    eapply sparks_trans; eassumption.
Qed.

End Frames.

(* ================================================================== *)
(** ** The frame outside the Playing phase *)

Section Idle.

Variable host : Host.

Lemma shipLogic_not_playing g dt w :
  isPlaying g = false -> shipLogic host g dt w = w.
Proof.
  intro H. unfold shipLogic. destruct (shipRef w); [|reflexivity].
  rewrite H. reflexivity.
Qed.

Lemma resize_refs inp w :
  let w0 := resize inp w in
  shipRef w0 = shipRef w /\ ufoRef w0 = ufoRef w
  /\ asteroidsRef w0 = asteroidsRef w /\ bulletsRef w0 = bulletsRef w
  /\ particlesRef w0 = particlesRef w /\ powerUpsRef w0 = powerUpsRef w
  /\ missilesRef w0 = missilesRef w /\ timers w0 = timers w
  /\ react w0 = react w /\ randomCount w0 = randomCount w
  /\ keysRef w0 = keysRef w.
Proof. unfold resize. destruct (_ || _); cbn; repeat split. Qed.

Lemma enemyDt_ship w1 w2 dt :
  shipRef w1 = shipRef w2 -> enemyDt w1 dt = enemyDt w2 dt.
Proof. intro H. unfold enemyDt, timeSlowActive. rewrite H. reflexivity. Qed.

(** The update half of a frame outside the Playing phase: every
    collection goes through its own pass, nothing else is written. *)
Lemma update_idle g inp dt w :
  isPlaying g = false ->
  let edt := enemyDt w dt in
  let smoke := updateMissiles host dt (missilesRef w)
                 (bulletsUpdate edt dt w) in
  let w' := update host g inp dt w in
  bulletsRef w' = purge (map (updateBullet edt dt) (bulletsRef w))
  /\ missilesRef w' = purge (fst smoke)
  /\ asteroidsRef w' =
       map (updateAsteroid edt (canvasWidth w) (canvasHeight w))
           (asteroidsRef w)
  /\ powerUpsRef w' =
       purge (map (updatePowerUp dt (canvasWidth w) (canvasHeight w))
                  (powerUpsRef w))
  /\ particlesRef w' =
       purge (map (updateParticle dt) (particlesRef (snd smoke)))
  /\ react w' = react w /\ shipRef w' = shipRef w /\ ufoRef w' = ufoRef w
  /\ timers w' = timers w.
Proof.
  intros Hp edt smoke w'. subst w' smoke. unfold update.
  rewrite Hp, shipLogic_not_playing by exact Hp. fold edt.
  unfold missilesUpdate.
  change (missilesRef (bulletsUpdate edt dt w)) with (missilesRef w).
  pose proof (updateMissiles_sparks host dt (missilesRef w)
                (bulletsUpdate edt dt w)) as (ps & k & S).
  destruct (updateMissiles host dt (missilesRef w) (bulletsUpdate edt dt w))
    as [ms w1].
  cbn [fst snd] in *. subst w1. cbn. repeat split; reflexivity.
Qed.

Theorem idle_frame render inp w :
  gameState render = GAME_OVER \/ gameState render = LEVEL_TRANSITION ->
  let dt := frameDt inp w in
  let edt := enemyDt w dt in
  let w0 := resize inp (with_previousTimeRef (time inp) w) in
  let smoke := updateMissiles host dt (missilesRef w)
                 (bulletsUpdate edt dt w0) in
  let w' := animate host render inp w in
  bulletsRef w' = purge (map (updateBullet edt dt) (bulletsRef w))
  /\ missilesRef w' = purge (fst smoke)
  /\ asteroidsRef w' =
       map (updateAsteroid edt (canvasWidth w0) (canvasHeight w0))
           (asteroidsRef w)
  /\ powerUpsRef w' =
       purge (map (updatePowerUp dt (canvasWidth w0) (canvasHeight w0))
                  (powerUpsRef w))
  /\ particlesRef w' =
       purge (map (updateParticle dt) (particlesRef (snd smoke)))
  /\ react w' = react w /\ shipRef w' = shipRef w /\ ufoRef w' = ufoRef w
  /\ timers w' = timers w.
Proof.
  intros Hg dt edt w0 smoke w'.
  assert (isPlaying (gameState render) = false
          /\ active (gameState render) = true)
    as [Hp Ha] by (destruct Hg as [-> | ->]; split; reflexivity).
  destruct (resize_refs inp (with_previousTimeRef (time inp) w))
    as (Hs & Hu & Has & Hb & Hpa & Hpu & Hm & Ht & Hr & _).
  fold w0 in Hs, Hu, Has, Hb, Hpa, Hpu, Hm, Ht, Hr.
  cbn in Hs, Hu, Has, Hb, Hpa, Hpu, Hm, Ht, Hr.
  pose proof (update_idle (gameState render) inp dt w0 Hp) as U.
  cbn zeta in U. rewrite (enemyDt_ship w0 w dt Hs) in U. fold edt in U.
  rewrite Hb, Hm, Has, Hpu, Hr, Hs, Hu, Ht in U. fold smoke in U.
  assert (w' = update host (gameState render) inp dt w0) as ->.
  { subst w'. unfold animate. rewrite Ha, Hp. fold dt. fold w0.
    set (wu := update host (gameState render) inp dt w0) in *.
    destruct U as (_ & _ & Ea & _ & _ & _ & _ & Eu & _).
    unfold levelClear. rewrite Hp.
    destruct (asteroidsRef wu); [destruct (ufoRef wu)|]; reflexivity. }
  exact U.
Qed.

End Idle.

(* ================================================================== *)
(** ** The frame: the update half *)

Section UpdateFacts.

Variable host : Host.

Lemma shipThrust_shape dt s w :
  sameBody s (fst (shipThrust host dt s w))
  /\ sparks w (snd (shipThrust host dt s w)).
Proof.
  unfold shipThrust, sameBody.
  destruct (_ || _); [destruct (Num.gtb _ _)|]; cbn [fst snd];
    (split; [cbn; repeat split; reflexivity|]).
  - apply sparks_push.
  - apply sparks_drawn.
  - apply sparks_refl.
Qed.

Lemma fireBullet_shots s a w :
  exists b, shots w (fireBullet host s a w) [b] /\ owner b = OwnerShip.
Proof. eexists. split; [exists 1%nat; reflexivity | reflexivity]. Qed.

Lemma shots_trans w1 w2 w3 f g :
  shots w1 w2 f -> shots w2 w3 g -> shots w1 w3 (f ++ g).
Proof.
  intros (k & ->) (j & ->). exists (k + j)%nat.
  destruct w1; unfold drawn; cbn. rewrite app_assoc, Nat.add_assoc.
  reflexivity.
Qed.

Lemma shots_nil w : shots w w [].
Proof.
  exists 0%nat. destruct w; unfold drawn; cbn.
  rewrite app_nil_r, Nat.add_0_r. reflexivity.
Qed.

Lemma shipShoot_shape dt s w :
  let r := shipShoot host dt s w in
  sameBody s (fst r) /\ vel (fst r) = vel s
  /\ exists fired, shots w (snd r) fired
                   /\ Forall (fun b => owner b = OwnerShip) fired.
Proof.
  unfold shipShoot, sameBody.
  destruct (_ && _); [destruct (Num.gtb _ _)|]; cbn [fst snd];
    (split; [cbn; repeat split; reflexivity|]); (split; [reflexivity|]).
  - destruct (fireBullet_shots (with_cooldown FIRE_RATE
                 (with_cooldown (countDown dt (cooldown s)) s)) 0 w)
      as (b1 & S1 & O1).
    match goal with |- context [fireBullet host ?s (-0.2) ?w] =>
      destruct (fireBullet_shots s (-0.2) w) as (b2 & S2 & O2) end.
    match goal with |- context [fireBullet host ?s 0.2 ?w] =>
      destruct (fireBullet_shots s 0.2 w) as (b3 & S3 & O3) end.
    exists ([b1] ++ [b2] ++ [b3]). split.
    + eapply shots_trans; [exact S1|]. eapply shots_trans; eassumption.
    + repeat constructor; assumption.
  - destruct (fireBullet_shots (with_cooldown FIRE_RATE
                 (with_cooldown (countDown dt (cooldown s)) s)) 0 w)
      as (b1 & S1 & O1).
    exists [b1]. split; [exact S1 | repeat constructor; assumption].
  - exists []. split; [apply shots_nil | constructor].
Qed.

(** Ship Logic on a live craft in the Playing phase: the craft is
    rewritten, bullets and particles are pushed, draws are made. *)
Lemma shipLogic_playing dt w ship :
  shipRef w = Some ship -> isDead ship = false ->
  exists ship' fired ps k,
    shipLogic host PLAYING dt w
    = with_shipRef (Some ship')
        (with_bulletsRef (bulletsRef w ++ fired)
           (with_particlesRef (particlesRef w ++ ps) (drawn k w)))
    /\ isDead ship' = false
    /\ pos ship' = wrapPosition
                     {| px := px (pos ship) + px (vel ship') * dt;
                        py := py (pos ship) + py (vel ship') * dt |}
                     (canvasWidth w) (canvasHeight w)
    /\ Forall (fun b => owner b = OwnerShip) fired
    /\ invulnerable ship' = countDown dt (invulnerable ship)
    /\ powerupShieldTimer ship' = countDown dt (powerupShieldTimer ship)
    /\ rad ship' = rad ship.
Proof.
  intros Hs Hd. unfold shipLogic. rewrite Hs, Hd.
  cbn [isPlaying andb negb].
  set (s1 := shipTurn (keysRef w) dt (shipTimers dt ship)).
  assert (isDead s1 = false /\ pos s1 = pos ship
          /\ invulnerable s1 = invulnerable ship
          /\ powerupShieldTimer s1 = countDown dt (powerupShieldTimer ship)
          /\ rad s1 = rad ship) as (D1 & P1 & I1 & T1 & R1).
  { subst s1. unfold shipTurn, shipTimers.
    destruct (_ || _); destruct (_ || _); cbn; auto. }
  clearbody s1.
  destruct (shipThrust_shape dt s1 w) as ((D2 & P2 & R2 & I2 & T2) & ps & j & S2).
  destruct (shipThrust host dt s1 w) as [s2 w2]. cbn [fst snd] in *.
  destruct (shipShoot_shape dt s2 w2)
    as ((D3 & P3 & R3 & I3 & T3) & V3 & fired & (k & S3) & O3).
  destruct (shipShoot host dt s2 w2) as [s3 w3]. cbn [fst snd] in *.
  exists (shipMove dt (canvasWidth w3) (canvasHeight w3) s3), fired, ps,
         (j + k)%nat.
  subst w3 w2. split.
  { destruct w; unfold drawn; cbn. rewrite Nat.add_assoc. reflexivity. }
  unfold shipMove. cbn.
  unfold isDead, pos, rad, vel in *. cbn in *.
  repeat split; congruence.
Qed.

Lemma ufoDrift_shape edt ufo w :
  let r := ufoDrift host edt ufo w in
  pos (fst r) = {| px := px (pos ufo) + px (vel ufo) * edt;
                   py := py (pos ufo) + py (vel ufo) * edt |}
  /\ exists k, snd r = with_randomCount k w.
Proof.
  unfold ufoDrift. destruct (Num.leb _ 0); cbn [fst snd].
  - split; [reflexivity|]. eexists. reflexivity.
  - split; [reflexivity|]. exists (randomCount w). destruct w; reflexivity.
Qed.

Lemma ufoShoot_shape edt ufo w :
  let r := ufoShoot host edt ufo w in
  pos (fst r) = pos ufo
  /\ exists fired, shots w (snd r) fired
                   /\ Forall (fun b => owner b = OwnerUfo) fired.
Proof.
  unfold ufoShoot. destruct (shipRef w) as [ship|].
  - destruct (_ && _); cbn [fst snd]; (split; [reflexivity|]).
    + eexists [_]. split; [exists 2%nat; reflexivity | repeat constructor].
    + exists []. split; [apply shots_nil | constructor].
  - cbn [fst snd]. split; [reflexivity|].
    exists []. split; [apply shots_nil | constructor].
Qed.

(** UFO Logic writes the hostile unit, its spawn timers, the bullets it
    fires and the draw count. *)
Lemma ufoLogic_shape inp edt w :
  exists u' bs l n k,
    ufoLogic host inp edt w
    = with_ufoRef u'
        (with_bulletsRef bs
           (with_lastUfoSpawnTimeRef l
              (with_nextUfoSpawnDelayRef n (with_randomCount k w))))
    /\ (exists fired, bs = bulletsRef w ++ fired
                      /\ Forall (fun b => owner b = OwnerUfo) fired)
    /\ (forall ufo ufo', ufoRef w = Some ufo -> u' = Some ufo' ->
        pos ufo' = {| px := px (pos ufo) + px (vel ufo) * edt;
                      py := py (pos ufo) + py (vel ufo) * edt |}).
Proof.
  unfold ufoLogic. destruct (ufoRef w) as [ufo|] eqn:Hu.
  - destruct (ufoDrift_shape edt ufo w) as (P1 & k1 & S1).
    destruct (ufoDrift host edt ufo w) as [u1 w1]. cbn [fst snd] in *.
    set (gone := ufoGone u1 w1).
    set (w2 := if gone then with_lastUfoSpawnTimeRef (now inp) w1 else w1).
    destruct (ufoShoot_shape edt u1 w2) as (P2 & fired & (k2 & S2) & O2).
    destruct (ufoShoot host edt u1 w2) as [u2 w3]. cbn [fst snd] in *.
    exists (if gone then None else Some u2), (bulletsRef w ++ fired),
           (if gone then now inp else lastUfoSpawnTimeRef w),
           (nextUfoSpawnDelayRef w), (k1 + k2)%nat.
    split; [|split].
    + subst w3 w2 w1. destruct gone; destruct w; reflexivity.
    + exists fired. auto.
    + intros u u' Eu Eu'. injection Eu as <-.
      destruct gone; [discriminate Eu'|]. injection Eu' as <-. congruence.
  - destruct (Num.gtb _ _).
    + match goal with
      | |- exists _ _ _ _ _, ?R = _ /\ _ =>
          exists (ufoRef R), (bulletsRef w), (lastUfoSpawnTimeRef R),
                 (nextUfoSpawnDelayRef R), (randomCount R)
      end.
      split; [|split].
      * unfold spawnUfo, drawn. destruct w; cbn. reflexivity.
      * exists []. split; [symmetry; apply app_nil_r | constructor].
      * intros u u' Eu. discriminate Eu.
    + exists None, (bulletsRef w), (lastUfoSpawnTimeRef w),
             (nextUfoSpawnDelayRef w), (randomCount w).
      split; [|split].
      * rewrite <- Hu. destruct w; reflexivity.
      * exists []. split; [symmetry; apply app_nil_r | constructor].
      * intros u u' Eu. discriminate Eu.
Qed.

Lemma shipLogic_shape g dt w :
  exists sh' bs ps k,
    shipLogic host g dt w
    = with_shipRef sh'
        (with_bulletsRef bs (with_particlesRef ps (with_randomCount k w)))
    /\ (exists fired, bs = bulletsRef w ++ fired
                      /\ Forall (fun b => owner b = OwnerShip) fired)
    /\ shipStepped g dt (canvasWidth w) (canvasHeight w) (shipRef w) sh'.
Proof.
  destruct (shipRef w) as [ship|] eqn:Hs.
  - destruct (isPlaying g && negb (isDead ship)) eqn:C.
    + apply andb_prop in C as [Hg Hd]. destruct g; try discriminate Hg.
      apply negb_true_iff in Hd.
      destruct (shipLogic_playing dt w ship Hs Hd)
        as (ship' & fired & ps & k & E & D & P & O & I & T & R).
      exists (Some ship'), (bulletsRef w ++ fired), (particlesRef w ++ ps),
             (randomCount w + k)%nat.
      split; [exact E|]. split; [exists fired; split; [reflexivity|exact O]|].
      cbn [shipStepped]. exists ship'. rewrite Hd. cbn [isPlaying negb andb].
      repeat split; try assumption; congruence.
    + exists (Some ship), (bulletsRef w), (particlesRef w), (randomCount w).
      split; [|split].
      * unfold shipLogic. rewrite Hs, C. rewrite <- Hs.
        destruct w; reflexivity.
      * exists []. split; [symmetry; apply app_nil_r | constructor].
      * cbn [shipStepped]. exists ship. rewrite C. repeat split.
  - exists None, (bulletsRef w), (particlesRef w), (randomCount w).
    split; [|split].
    + unfold shipLogic. rewrite Hs. rewrite <- Hs. destruct w; reflexivity.
    + exists []. split; [symmetry; apply app_nil_r | constructor].
    + reflexivity.
Qed.

Lemma missilesUpdate_shape dt w :
  exists ms ps k,
    missilesUpdate host dt w
    = with_missilesRef ms (with_particlesRef ps (with_randomCount k w)).
Proof.
  unfold missilesUpdate.
  pose proof (updateMissiles_sparks host dt (missilesRef w) w) as (ps & k & S).
  destruct (updateMissiles host dt (missilesRef w) w) as [ms w1].
  cbn [snd] in S. subst w1.
  exists (purge ms), (particlesRef w ++ ps), (randomCount w + k)%nat.
  destruct w; reflexivity.
Qed.

(** The update half of a frame, field by field. *)
Lemma update_shape g inp dt w :
  let edt := enemyDt w dt in
  exists sh' u' bs ms ps l n k,
    update host g inp dt w
    = {| react := react w;
         shipRef := sh';
         ufoRef := u';
         asteroidsRef := map (updateAsteroid edt (canvasWidth w)
                                             (canvasHeight w))
                             (asteroidsRef w);
         bulletsRef := bs;
         particlesRef := ps;
         powerUpsRef := purge (map (updatePowerUp dt (canvasWidth w)
                                                  (canvasHeight w))
                                   (powerUpsRef w));
         missilesRef := ms;
         keysRef := keysRef w;
         lastUfoSpawnTimeRef := l;
         nextUfoSpawnDelayRef := n;
         previousTimeRef := previousTimeRef w;
         canvasWidth := canvasWidth w;
         canvasHeight := canvasHeight w;
         timers := timers w;
         randomCount := k |}
    /\ shipStepped g dt (canvasWidth w) (canvasHeight w) (shipRef w) sh'
    /\ (exists fromShip fromUfo,
          bs = purge (map (updateBullet edt dt)
                          (bulletsRef w ++ fromShip ++ fromUfo))
          /\ Forall (fun b => owner b = OwnerShip) fromShip
          /\ Forall (fun b => owner b = OwnerUfo) fromUfo)
    /\ (if isPlaying g
        then forall ufo ufo', ufoRef w = Some ufo -> u' = Some ufo' ->
               pos ufo' = {| px := px (pos ufo) + px (vel ufo) * edt;
                             py := py (pos ufo) + py (vel ufo) * edt |}
        else u' = ufoRef w).
Proof.
  intro edt. unfold update. fold edt.
  destruct (shipLogic_shape g dt w) as (sh' & bs1 & ps1 & k1 & E1 & (f1 & B1 & O1) & S1).
  rewrite E1. set (w1 := with_shipRef sh' _).
  assert (exists u' bs2 l n k2,
            (if isPlaying g then ufoLogic host inp edt w1 else w1)
            = with_ufoRef u' (with_bulletsRef bs2
                (with_lastUfoSpawnTimeRef l
                   (with_nextUfoSpawnDelayRef n (with_randomCount k2 w1))))
            /\ (exists fired, bs2 = bulletsRef w1 ++ fired
                   /\ Forall (fun b => owner b = OwnerUfo) fired)
            /\ (if isPlaying g
                then forall ufo ufo', ufoRef w1 = Some ufo -> u' = Some ufo' ->
                   pos ufo' = {| px := px (pos ufo) + px (vel ufo) * edt;
                                 py := py (pos ufo) + py (vel ufo) * edt |}
                else u' = ufoRef w1))
    as (u' & bs2 & l & n & k2 & E2 & (f2 & B2 & O2) & U2).
  { destruct (isPlaying g).
    - destruct (ufoLogic_shape inp edt w1) as (u' & bs2 & l & n & k2 & E & F & U).
      exists u', bs2, l, n, k2. auto.
    - exists (ufoRef w1), (bulletsRef w1), (lastUfoSpawnTimeRef w1),
             (nextUfoSpawnDelayRef w1), (randomCount w1).
      split; [|split].
      + subst w1. destruct w; reflexivity.
      + exists []. split; [symmetry; apply app_nil_r | constructor].
      + reflexivity. }
  rewrite E2. set (w2 := with_ufoRef u' _).
  set (w3 := bulletsUpdate edt dt w2).
  destruct (missilesUpdate_shape dt w3) as (ms & ps & k & E3).
  rewrite E3.
  exists sh', u', (purge (map (updateBullet edt dt) bs2)), ms,
         (purge (map (updateParticle dt) ps)), l, n, k.
  split; [|split; [|split]].
  - subst w3 w2 w1. destruct w; reflexivity.
  - exact S1.
  - exists f1, f2. subst w1. cbn in B2. subst bs2 bs1.
    rewrite app_assoc. auto.
  - subst w1. cbn in U2. exact U2.
Qed.

End UpdateFacts.

(* ================================================================== *)
(** ** The frame: collision resolution *)

Lemma hull_refl s : hull s s.
Proof. unfold hull. auto 10. Qed.

Lemma hull_trans s1 s2 s3 : hull s1 s2 -> hull s2 s3 -> hull s1 s3.
Proof.
  intros (P1 & R1 & I1 & T1 & D1) (P2 & R2 & I2 & T2 & D2).
  unfold hull. do 3 (split; [congruence|]). split.
  - destruct T2 as [->| ->]; auto.
  - intro D. destruct (D1 D) as [A B]. destruct (D2 A). split; congruence.
Qed.

Lemma hullOpt_refl o : hullOpt o o.
Proof. destruct o; cbn; [apply hull_refl | exact I]. Qed.

Lemma hullOpt_trans o1 o2 o3 : hullOpt o1 o2 -> hullOpt o2 o3 -> hullOpt o1 o3.
Proof.
  destruct o1, o2, o3; cbn; try tauto. apply hull_trans.
Qed.

Lemma noDeath_refl w : noDeath w w.
Proof. unfold noDeath. auto. Qed.

Lemma settles_refl render w : settles render w w.
Proof.
  constructor; auto.
  - intros a H. exists a. auto.
  - intros p H. left. exists p. auto.
  - apply hullOpt_refl.
  - left. apply noDeath_refl.
Qed.

Lemma exposed_hull w w' :
  shipAlive w = false -> exposed w -> hullOpt (shipRef w) (shipRef w') ->
  exposed w' /\ shipAlive w' = false.
Proof.
  unfold exposed, shipAlive, hullOpt.
  destruct (shipRef w) as [s|]; [|tauto].
  destruct (shipRef w') as [s'|]; [|tauto].
  intros A [E1 E2] (P & R & I & T & D).
  apply negb_false_iff in A. destruct (D A) as [D' T'].
  rewrite T', I, D'. auto.
Qed.

Lemma settles_trans render w1 w2 w3 :
  settles render w1 w2 -> settles render w2 w3 -> settles render w1 w3.
Proof.
  intros [C1 L1 A1 P1 U1 S1 D1] [C2 L2 A2 P2 U2 S2 D2].
  constructor.
  - destruct C1, C2. split; congruence.
  - congruence.
  - intros a H. destruct (A2 a H) as (a2 & H2 & E2).
    destruct (A1 a2 H2) as (a1 & H1 & E1). exists a1. split; congruence.
  - intros p H. destruct (P2 p H) as [(p2 & H2 & E2)|[(a2 & H2 & E2)|(u2 & H2 & E2)]].
    + destruct (P1 p2 H2) as [(p1 & H1 & E1)|[(a1 & H1 & E1)|(u1 & H1 & E1)]].
      * left. exists p1. split; congruence.
      * right. left. exists a1. split; congruence.
      * right. right. exists u1. split; congruence.
    + destruct (A1 a2 H2) as (a1 & H1 & E1).
      right. left. exists a1. split; congruence.
    + right. right. exists u2. split; [|assumption].
      destruct U1 as [<-|E]; [assumption | congruence].
  - destruct U2 as [->|E]; [assumption | right; assumption].
  - eapply hullOpt_trans; eassumption.
  - destruct D1 as [(N1 & N2 & N3 & N4)|(O1 & O2 & O3 & O4 & O5)].
    + destruct D2 as [(M1 & M2 & M3 & M4)|(Q1 & Q2 & Q3 & Q4 & Q5)].
      * left. unfold noDeath. repeat split; congruence.
      * right. unfold oneDeath. rewrite <- N1, <- N2, <- N3, <- N4.
        auto.
    + destruct D2 as [(M1 & M2 & M3 & M4)|(Q1 & Q2 & Q3 & Q4 & Q5)].
      * right. unfold oneDeath. rewrite M1, M2, M3.
        destruct (exposed_hull w2 w3 O2 O4 S2) as [E A].
        repeat split; assumption.
      * congruence.
Qed.

Lemma settles_of_calm render w w' :
  calm w w' ->
  (forall a, In a (asteroidsRef w') ->
     exists a0, In a0 (asteroidsRef w) /\ pos a = pos a0) ->
  (forall p, In p (powerUpsRef w') ->
     (exists p0, In p0 (powerUpsRef w) /\ pos p = pos p0)
     \/ (exists a0, In a0 (asteroidsRef w) /\ pos p = pos a0)
     \/ (exists u0, ufoRef w = Some u0 /\ pos p = pos u0)) ->
  (ufoRef w' = ufoRef w \/ ufoRef w' = None) ->
  settles render w w'.
Proof.
  intros (C1 & C2 & L & V & G & T & S) A P U.
  constructor; auto.
  - rewrite S. apply hullOpt_refl.
  - left. unfold noDeath, shipAlive. rewrite S. auto.
Qed.

(** Steps that keep the obstacles, the power-ups and the hostile unit as
    well. *)
Lemma settles_same render w w' :
  calm w w' -> asteroidsRef w' = asteroidsRef w ->
  powerUpsRef w' = powerUpsRef w -> ufoRef w' = ufoRef w ->
  settles render w w'.
Proof.
  intros C A P U. apply settles_of_calm; auto.
  - rewrite A. intros a H. exists a. auto.
  - rewrite P. intros p H. left. exists p. auto.
Qed.

Section CollisionFacts.

Variable host : Host.
Variable render : ReactState.

Lemma sparks_settles w w' : sparks w w' -> settles render w w'.
Proof.
  intros (ps & k & ->). apply settles_same; unfold calm; cbn; auto 10.
Qed.

Lemma firstHit_split {A} (hit : A -> bool) l pre a post :
  firstHit hit l = Some (pre, a, post) ->
  l = pre ++ a :: post /\ hit a = true /\ Forall (fun x => hit x = false) pre.
Proof.
  revert pre. induction l as [|x l IH]; intros pre H; [discriminate H|].
  cbn [firstHit] in H. destruct (hit x) eqn:Hx.
  - injection H as <- <- <-. auto.
  - destruct (firstHit hit l) as [[[pre' a'] post']|]; [|discriminate H].
    injection H as <- <- <-. destruct (IH pre' eq_refl) as (-> & Ha & Hpre).
    auto.
Qed.

Lemma spawnPowerUp_shape p w :
  exists pus k,
    spawnPowerUp host p w
    = with_powerUpsRef (powerUpsRef w ++ pus) (drawn k w)
    /\ Forall (fun q => pos q = p) pus.
Proof.
  unfold spawnPowerUp. destruct (Num.gtb _ _).
  - exists [], 1%nat. split; [|constructor].
    destruct w; unfold drawn; cbn. rewrite app_nil_r. reflexivity.
  - eexists [_], 5%nat. split; [reflexivity | repeat constructor].
Qed.

Lemma childAsteroid_shape a w :
  exists c k,
    childAsteroid host a w = with_asteroidsRef (asteroidsRef w ++ [c]) (drawn k w)
    /\ pos c = pos a /\ size c = nextSize (size a) /\ isDead c = false
    /\ rad c = cfgRadius (ASTEROID_CONFIG (nextSize (size a))).
Proof.
  unfold childAsteroid. do 2 eexists. split; [reflexivity|].
  cbn. auto.
Qed.

Lemma splitAsteroid_shape a w :
  exists cs k,
    splitAsteroid host a w
    = with_asteroidsRef (asteroidsRef w ++ cs) (drawn k w)
    /\ brood a cs.
Proof.
  destruct (childAsteroid_shape a w) as (c1 & k1 & E1 & F1).
  destruct (childAsteroid_shape a (childAsteroid host a w))
    as (c2 & k2 & E2 & F2).
  assert (childAsteroid host a (childAsteroid host a w)
          = with_asteroidsRef (asteroidsRef w ++ [c1; c2])
                              (drawn (k1 + k2) w)) as E.
  { rewrite E2, E1. destruct w; unfold drawn; cbn.
    rewrite <- app_assoc, Nat.add_assoc. reflexivity. }
  unfold splitAsteroid, brood.
  destruct (size a) eqn:Sz.
  - exists [c1; c2], (k1 + k2)%nat. split; [exact E|]. split; [reflexivity|].
    repeat constructor; tauto.
  - exists [c1; c2], (k1 + k2)%nat. split; [exact E|]. split; [reflexivity|].
    repeat constructor; tauto.
  - exists [], 0%nat. split; [|split; [reflexivity | constructor]].
    destruct w; unfold drawn; cbn. rewrite app_nil_r, Nat.add_0_r.
    reflexivity.
Qed.

(** A craft-owned bullet against the obstacles, on a hit: the state
    after, field by field. *)
Lemma bulletVsAsteroids_hit b w pre a post :
  firstHit (fun a => negb (isDead a) && collide b a) (asteroidsRef w)
  = Some (pre, a, post) ->
  exists cs pus ps k,
    bulletVsAsteroids host b w
    = (kill b,
       with_asteroidsRef (pre ++ kill a :: post ++ cs)
         (with_powerUpsRef (powerUpsRef w ++ pus)
            (with_particlesRef (particlesRef w ++ ps)
               (setScore (fun prev => prev + bulletScore (size a))%Z
                  (drawn k w)))))
    /\ brood a cs /\ Forall (fun q => pos q = pos a) pus.
Proof.
  intro F. unfold bulletVsAsteroids. rewrite F.
  set (w1 := with_asteroidsRef _ w).
  destruct (spawnPowerUp_shape (pos a) w1) as (pus & k1 & E1 & P1).
  rewrite E1. set (w2 := with_powerUpsRef _ _).
  destruct (createExplosion_sparks host (pos a) (color (entity a)) 10 w2)
    as (ps & k2 & E2).
  rewrite E2. set (w3 := with_particlesRef _ _).
  destruct (splitAsteroid_shape a
              (setScore (fun prev => prev + bulletScore (size a))%Z w3))
    as (cs & k3 & E3 & B3).
  rewrite E3. exists cs, pus, ps, (k1 + k2 + k3)%nat.
  split; [|auto]. f_equal. subst w3 w2 w1.
  destruct w; unfold drawn, setScore; cbn.
  rewrite <- !app_assoc, !Nat.add_assoc. reflexivity.
Qed.

Lemma bulletVsAsteroids_miss b w :
  firstHit (fun a => negb (isDead a) && collide b a) (asteroidsRef w) = None ->
  bulletVsAsteroids host b w = (b, w).
Proof. intro F. unfold bulletVsAsteroids. rewrite F. reflexivity. Qed.

Lemma bulletVsAsteroids_settles b w :
  settles render w (snd (bulletVsAsteroids host b w)).
Proof.
  destruct (firstHit (fun a => negb (isDead a) && collide b a)
                     (asteroidsRef w)) as [[[pre a] post]|] eqn:F.
  - destruct (bulletVsAsteroids_hit b w _ _ _ F) as (cs & pus & ps & k & E & (_ & B) & P).
    rewrite E. cbn [snd]. apply firstHit_split in F as (L & _ & _).
    apply settles_of_calm; [unfold calm; cbn; auto 10 | | | left; reflexivity].
    + cbn. rewrite L. intros x Hx.
      apply in_app_or in Hx as [Hx|[<-|Hx]].
      * exists x. split; [apply in_or_app; auto | reflexivity].
      * exists a. split; [apply in_or_app; right; left; reflexivity
                         | reflexivity].
      * apply in_app_or in Hx as [Hx|Hx].
        -- exists x. split; [apply in_or_app; right; right; exact Hx
                            | reflexivity].
        -- exists a. split; [apply in_or_app; right; left; reflexivity|].
           rewrite Forall_forall in B. apply B, Hx.
    + cbn. rewrite L. intros p Hp. apply in_app_or in Hp as [Hp|Hp].
      * left. exists p. auto.
      * right. left. exists a.
        split; [apply in_or_app; right; left; reflexivity|].
        rewrite Forall_forall in P. apply P, Hp.
  - rewrite bulletVsAsteroids_miss by exact F. apply settles_refl.
Qed.

Lemma bulletVsUfo_settles inp b w :
  settles render w (snd (bulletVsUfo host inp b w)).
Proof.
  unfold bulletVsUfo. destruct (ufoRef w) as [ufo|] eqn:U;
    [|apply settles_refl].
  destruct (_ && _); cbn [snd]; [|apply settles_refl].
  destruct (spawnPowerUp_shape (pos ufo) w) as (pus & k1 & E1 & P1).
  rewrite E1. set (w1 := with_powerUpsRef _ _).
  destruct (createExplosion_sparks host (pos ufo) (color (entity ufo)) 20 w1)
    as (ps & k2 & E2).
  rewrite E2. subst w1.
  apply settles_of_calm; [unfold calm; cbn; auto 10 | | | right; reflexivity].
  - cbn. intros a Ha. exists a. auto.
  - cbn. intros p Hp. apply in_app_or in Hp as [Hp|Hp].
    + left. exists p. auto.
    + right. right. exists ufo. split; [exact U|].
      rewrite Forall_forall in P1. apply P1, Hp.
Qed.

(** A craft death: the craft is marked dead on a state [w1] that differs
    from [w] in nothing the relation looks at, then a life is taken. *)
Lemma loseLife_settles w w1 ship :
  shipRef w = Some ship -> isDead ship = false ->
  powerupShieldTimer ship <= 0 -> invulnerable ship <= 0 ->
  shipRef w1 = Some (kill ship) -> react w1 = react w ->
  timers w1 = timers w ->
  canvasWidth w1 = canvasWidth w -> canvasHeight w1 = canvasHeight w ->
  asteroidsRef w1 = asteroidsRef w -> powerUpsRef w1 = powerUpsRef w ->
  (ufoRef w1 = ufoRef w \/ ufoRef w1 = None) ->
  settles render w (loseLife render w1).
Proof.
  intros Hs Hd Hsh Hin Hs1 Hr Ht Hcw Hch Ha Hp Hu.
  assert (shipRef (loseLife render w1) = Some (kill ship)) as S'.
  { unfold loseLife, handleGameOver. destruct (_ <=? _)%Z; cbn; exact Hs1. }
  constructor.
  - unfold loseLife, handleGameOver. destruct (_ <=? _)%Z; cbn; auto.
  - unfold loseLife, handleGameOver. destruct (_ <=? _)%Z; cbn; congruence.
  - intros a H. exists a. split; [|reflexivity]. rewrite <- Ha.
    unfold loseLife, handleGameOver in H. destruct (_ <=? _)%Z; cbn in H; exact H.
  - intros p H. left. exists p. split; [|reflexivity]. rewrite <- Hp.
    unfold loseLife, handleGameOver in H. destruct (_ <=? _)%Z; cbn in H; exact H.
  - unfold loseLife, handleGameOver. destruct (_ <=? _)%Z; cbn; exact Hu.
  - rewrite Hs, S'. cbn. unfold hull. cbn. repeat split; auto; congruence.
  - right. unfold oneDeath, shipAlive, exposed. rewrite Hs, S', Hd. cbn.
    split; [reflexivity|]. split; [reflexivity|].
    unfold loseLife, handleGameOver. rewrite Hr.
    destruct (lives (react w) - 1 <=? 0)%Z eqn:L; cbn; rewrite ?L, ?Hr, ?Ht;
      auto.
Qed.

Lemma onShip_kill w ship :
  shipRef w = Some ship -> onShip kill w = with_shipRef (Some (kill ship)) w.
Proof. intro H. unfold onShip. rewrite H. reflexivity. Qed.

Lemma ufoBulletVsShip_settles b w :
  settles render w (snd (ufoBulletVsShip host render b w)).
Proof.
  unfold ufoBulletVsShip. destruct (shipRef w) as [ship|] eqn:S;
    [|apply settles_refl].
  destruct (ownerIsUfo (owner b) && negb (isDead ship)
            && Num.leb (invulnerable ship) 0) eqn:C;
    [|apply settles_refl].
  apply andb_prop in C as [C Hi]. apply andb_prop in C as [_ Hd].
  apply negb_true_iff in Hd. apply NumFacts.leb_le in Hi.
  destruct (Num.gtb (powerupShieldTimer ship) 0) eqn:Sh.
  - destruct (checkCollision _ _ _ _); apply settles_refl.
  - apply NumFacts.gtb_le in Sh.
    destruct (checkCollision _ _ _ _); cbn [snd]; [|apply settles_refl].
    rewrite (onShip_kill w ship S).
    destruct (createExplosion_sparks host (pos ship) (color (entity ship)) 30
                (with_shipRef (Some (kill ship)) w)) as (ps & k & E).
    rewrite E. eapply loseLife_settles; eauto.
Qed.

Lemma bulletStep_settles inp b w :
  settles render w (snd (bulletStep host render inp b w)).
Proof.
  unfold bulletStep. destruct (isDead b); [apply settles_refl|].
  destruct (ownerIsShip (owner b)).
  - pose proof (bulletVsAsteroids_settles b w) as H1.
    destruct (bulletVsAsteroids host b w) as [b1 w1]. cbn [snd] in H1.
    pose proof (bulletVsUfo_settles inp b1 w1) as H2.
    destruct (bulletVsUfo host inp b1 w1) as [b2 w2]. cbn [snd] in H2.
    eapply settles_trans; [exact H1|].
    eapply settles_trans; [exact H2|]. apply ufoBulletVsShip_settles.
  - apply ufoBulletVsShip_settles.
Qed.

Lemma bulletsLoop_settles inp bs : forall w,
  settles render w (snd (bulletsLoop host render inp bs w)).
Proof.
  induction bs as [|b bs IH]; intro w; cbn [bulletsLoop].
  - apply settles_refl.
  - pose proof (bulletStep_settles inp b w) as H1.
    destruct (bulletStep host render inp b w) as [b' w1]. cbn [snd] in H1.
    pose proof (IH w1) as H2.
    destruct (bulletsLoop host render inp bs w1) as [rest' w2].
    cbn [snd] in *. eapply settles_trans; eassumption.
Qed.

Lemma with_bulletsRef_settles bs w : settles render w (with_bulletsRef bs w).
Proof. apply settles_same; unfold calm; cbn; auto 10. Qed.

Lemma with_missilesRef_settles ms w : settles render w (with_missilesRef ms w).
Proof. apply settles_same; unfold calm; cbn; auto 10. Qed.

Lemma purge_asteroids_settles w :
  settles render w (with_asteroidsRef (purge (asteroidsRef w)) w).
Proof.
  apply settles_of_calm; [unfold calm; cbn; auto 10 | | | left; reflexivity].
  - cbn. intros a Ha. unfold purge in Ha. apply filter_In in Ha as [Ha _].
    exists a. auto.
  - cbn. intros p Hp. left. exists p. auto.
Qed.

Lemma bulletsCollision_settles inp w :
  settles render w (bulletsCollision host render inp w).
Proof.
  unfold bulletsCollision.
  pose proof (bulletsLoop_settles inp (bulletsRef w) w) as H.
  destruct (bulletsLoop host render inp (bulletsRef w) w) as [bs w1].
  cbn [snd] in H. eapply settles_trans; [exact H|].
  eapply settles_trans; [apply with_bulletsRef_settles|].
  apply purge_asteroids_settles.
Qed.

Lemma missileVsUfo_settles inp ufo w :
  ufoRef w = Some ufo -> settles render w (missileVsUfo host inp ufo w).
Proof.
  intro U. unfold missileVsUfo.
  destruct (spawnPowerUp_shape (pos ufo) w) as (pus & k1 & E1 & P1).
  rewrite E1. set (w1 := with_powerUpsRef _ _).
  destruct (createExplosion_sparks host (pos ufo) (color (entity ufo)) 30 w1)
    as (ps & k2 & E2).
  rewrite E2. subst w1.
  apply settles_of_calm; [unfold calm; cbn; auto 10 | | | right; reflexivity].
  - cbn. intros a Ha. exists a. auto.
  - cbn. intros p Hp. apply in_app_or in Hp as [Hp|Hp].
    + left. exists p. auto.
    + right. right. exists ufo. split; [exact U|].
      rewrite Forall_forall in P1. apply P1, Hp.
Qed.

(** A missile against the obstacles, on a hit: the state after, field
    by field. *)
Lemma missileVsAsteroids_hit m w pre a post :
  firstHit (fun a => negb (isDead a) && collide m a) (asteroidsRef w)
  = Some (pre, a, post) ->
  exists ps k,
    missileVsAsteroids host m w
    = (kill m,
       with_asteroidsRef (pre ++ kill a :: post)
         (with_particlesRef (particlesRef w ++ ps)
            (setScore (fun prev => prev + 50)%Z (drawn k w)))).
Proof.
  intro F. unfold missileVsAsteroids. rewrite F.
  set (w1 := with_asteroidsRef _ w).
  destruct (createExplosion_sparks host (pos a) (color (entity a)) 15 w1)
    as (ps & k & E).
  rewrite E. exists ps, k. f_equal.
Qed.

Lemma missileVsAsteroids_settles m w :
  settles render w (snd (missileVsAsteroids host m w)).
Proof.
  destruct (firstHit (fun a => negb (isDead a) && collide m a)
                     (asteroidsRef w)) as [[[pre a] post]|] eqn:F.
  - destruct (missileVsAsteroids_hit m w _ _ _ F) as (ps & k & E).
    rewrite E. cbn [snd]. apply firstHit_split in F as (L & _ & _).
    apply settles_of_calm; [unfold calm; cbn; auto 10 | | | left; reflexivity].
    + cbn. rewrite L. intros x Hx.
      apply in_app_or in Hx as [Hx|[<-|Hx]].
      * exists x. split; [apply in_or_app; auto | reflexivity].
      * exists a. split; [apply in_or_app; right; left; reflexivity
                         | reflexivity].
      * exists x. split; [apply in_or_app; right; right; exact Hx
                         | reflexivity].
    + cbn. intros p Hp. left. exists p. auto.
  - unfold missileVsAsteroids. rewrite F. apply settles_refl.
Qed.

Lemma missileStep_settles inp m w :
  settles render w (snd (missileStep host inp m w)).
Proof.
  unfold missileStep. destruct (isDead m); [apply settles_refl|].
  destruct (ufoRef w) as [ufo|] eqn:U.
  - destruct (collide m ufo); cbn [snd].
    + apply missileVsUfo_settles, U.
    + apply missileVsAsteroids_settles.
  - apply missileVsAsteroids_settles.
Qed.

Lemma missilesLoop_settles inp ms : forall w,
  settles render w (snd (missilesLoop host inp ms w)).
Proof.
  induction ms as [|m ms IH]; intro w; cbn [missilesLoop].
  - apply settles_refl.
  - pose proof (missileStep_settles inp m w) as H1.
    destruct (missileStep host inp m w) as [m' w1]. cbn [snd] in H1.
    pose proof (IH w1) as H2.
    destruct (missilesLoop host inp ms w1) as [rest' w2].
    cbn [snd] in *. eapply settles_trans; eassumption.
Qed.

Lemma missilesCollision_settles inp w :
  settles render w (missilesCollision host inp w).
Proof.
  unfold missilesCollision.
  pose proof (missilesLoop_settles inp (missilesRef w) w) as H.
  destruct (missilesLoop host inp (missilesRef w) w) as [ms w1].
  cbn [snd] in H. eapply settles_trans; [exact H|].
  apply with_missilesRef_settles.
Qed.

Lemma applyPowerUp_hull t s : isDead s = false -> hull s (applyPowerUp t s).
Proof.
  intro D. unfold hull. destruct t; cbn; repeat split; auto; congruence.
Qed.

Lemma pickUps_shape ps : forall ship w,
  isDead ship = false ->
  let r := pickUps ps ship w in
  hull ship (snd (fst r)) /\ isDead (snd (fst r)) = false
  /\ Forall2 (fun p p' => pos p' = pos p) ps (fst (fst r))
  /\ exists msg, snd r = setAiMessage msg w.
Proof.
  induction ps as [|p ps IH]; intros ship w D; cbn [pickUps].
  - cbn. split; [apply hull_refl|]. split; [exact D|]. split; [constructor|].
    exists (aiMessage (react w)). destruct w as [[] ]; reflexivity.
  - destruct (checkCollision _ _ _ _).
    + assert (isDead (applyPowerUp (ptype p) ship) = false) as D'
        by (destruct (ptype p); exact D).
      specialize (IH (applyPowerUp (ptype p) ship)
                     (setAiMessage ("ACQUIRED: " ++ powerUpLabel (ptype p)) w)
                     D').
      destruct (pickUps ps _ _) as [[rest' ship'] w'].
      cbn [fst snd] in *. destruct IH as (H & D2 & F & msg & E).
      split; [eapply hull_trans; [apply applyPowerUp_hull, D | exact H]|].
      split; [exact D2|]. split; [constructor; [reflexivity | exact F]|].
      exists msg. rewrite E. destruct w as [[] ]; reflexivity.
    + specialize (IH ship w D).
      destruct (pickUps ps ship w) as [[rest' ship'] w'].
      cbn [fst snd] in *. destruct IH as (H & D2 & F & msg & E).
      split; [exact H|]. split; [exact D2|].
      split; [constructor; [reflexivity | exact F]|]. exists msg. exact E.
Qed.

Lemma pickUpPowerUps_settles w : settles render w (pickUpPowerUps w).
Proof.
  unfold pickUpPowerUps. destruct (shipRef w) as [ship|] eqn:S;
    [|apply settles_refl].
  destruct (isDead ship) eqn:D; cbn [negb]; [apply settles_refl|].
  pose proof (pickUps_shape (powerUpsRef w) ship w D) as H.
  destruct (pickUps (powerUpsRef w) ship w) as [[ps ship'] w'].
  cbn [fst snd] in H. destruct H as (H & D' & F & msg & ->).
  constructor; cbn; auto.
  - intros a Ha. exists a. auto.
  - intros p Hp. left. clear - F Hp.
    induction F as [|x y l l' E F IH]; [destruct Hp|].
    destruct Hp as [<-|Hp].
    + exists x. split; [left; reflexivity | exact E].
    + destruct (IH Hp) as (p0 & I0 & E0). exists p0. split; [right|]; auto.
  - rewrite S. exact H.
  - left. unfold noDeath, shipAlive. cbn. rewrite S, D, D'. auto.
Qed.

Lemma shipVsBodies_settles inp w :
  settles render w (shipVsBodies host render inp w).
Proof.
  unfold shipVsBodies. destruct (shipRef w) as [ship|] eqn:S;
    [|apply settles_refl].
  destruct (negb (isDead ship) && Num.leb (invulnerable ship) 0) eqn:C;
    [|apply settles_refl].
  apply andb_prop in C as [Hd Hi]. apply negb_true_iff in Hd.
  apply NumFacts.leb_le in Hi.
  assert (forall B (I : IsEntity B) (obj : B),
            checkDeath ship obj = true -> powerupShieldTimer ship <= 0) as CD.
  { intros B I obj. unfold checkDeath.
    destruct (Num.gtb (powerupShieldTimer ship) 0) eqn:G; [discriminate|].
    intros _. apply NumFacts.gtb_le in G. exact G. }
  destruct (existsb (checkDeath ship) (asteroidsRef w)) eqn:EA.
  - apply existsb_exists in EA as (a & _ & Ha).
    rewrite (onShip_kill w ship S).
    destruct (createExplosion_sparks host (pos ship) (color (entity ship)) 30
                (with_shipRef (Some (kill ship)) w)) as (ps & k & E).
    rewrite E. pose proof (CD _ _ _ Ha). eapply loseLife_settles; eauto.
  - destruct (ufoRef w) as [ufo|] eqn:U; [|apply settles_refl].
    destruct (checkDeath ship ufo) eqn:EU; [|apply settles_refl].
    rewrite (onShip_kill w ship S).
    destruct (createExplosion_sparks host (pos ship) (color (entity ship)) 30
                (with_shipRef (Some (kill ship)) w)) as (ps & k & E).
    rewrite E. set (w1 := with_particlesRef _ _).
    destruct (createExplosion_sparks host (pos ufo) (color (entity ufo)) 20 w1)
      as (ps2 & k2 & E2).
    rewrite E2. subst w1. pose proof (CD _ _ _ EU).
    eapply loseLife_settles; eauto.
Qed.

Theorem collisions_settles inp w :
  settles render w (collisions host render inp w).
Proof.
  unfold collisions.
  eapply settles_trans; [apply pickUpPowerUps_settles|].
  eapply settles_trans; [apply bulletsCollision_settles|].
  eapply settles_trans; [apply missilesCollision_settles|].
  apply shipVsBodies_settles.
Qed.

End CollisionFacts.

(* ================================================================== *)
(** ** The frame as a whole *)

Section FrameFacts.

Variable host : Host.
Variable render : ReactState.

Lemma animate_levelClear inp w :
  animate host render inp w
  = if active (gameState render)
    then levelClear render (beforeLevelClear host render inp w)
    else beforeLevelClear host render inp w.
Proof.
  unfold animate, beforeLevelClear. destruct (active _); reflexivity.
Qed.

Lemma shipStepped_alive g dt width height w w' :
  shipStepped g dt width height (shipRef w) (shipRef w') ->
  shipAlive w' = shipAlive w.
Proof.
  intros H. unfold shipAlive. unfold shipStepped in H.
  destruct (shipRef w) as [s|].
  - destruct H as (s' & -> & D & _). rewrite D. reflexivity.
  - rewrite H. reflexivity.
Qed.

(** A frame up to the Level Clear check: the craft has died at most
    once, and only in the Playing phase. *)
Lemma frame_life inp w :
  let w1 := beforeLevelClear host render inp w in
  level (react w1) = level (react w)
  /\ (noDeath w w1
      \/ (oneDeath render w w1 /\ gameState render = PLAYING)).
Proof.
  unfold beforeLevelClear.
  set (dt := frameDt inp w).
  set (w0 := resize inp (with_previousTimeRef (time inp) w)).
  destruct (resize_refs inp (with_previousTimeRef (time inp) w))
    as (Hs & _ & _ & _ & _ & _ & _ & Ht & Hr & _).
  fold w0 in Hs, Ht, Hr. cbn in Hs, Ht, Hr.
  assert (noDeath w w0) as N0.
  { unfold noDeath, shipAlive. rewrite Hs, Ht, Hr. auto. }
  destruct (active (gameState render)); [|rewrite Hr; auto].
  destruct (update_shape host (gameState render) inp dt w0)
    as (sh' & u' & bs & ms & ps & l & n & k & E & St & _).
  set (wu := update host (gameState render) inp dt w0) in *.
  assert (noDeath w wu /\ level (react wu) = level (react w)) as [Nu Lu].
  { assert (shipAlive wu = shipAlive w0) as A.
    { eapply shipStepped_alive. rewrite E. exact St. }
    unfold noDeath. rewrite A. rewrite E. cbn. rewrite Hr, Ht.
    unfold shipAlive. rewrite Hs. auto. }
  destruct (isPlaying (gameState render)) eqn:P; [|auto].
  destruct (collisions_settles host render inp wu) as [_ Lc _ _ _ _ D].
  split; [congruence|].
  destruct Nu as (N1 & N2 & N3 & N4).
  destruct D as [(M1 & M2 & M3 & M4)|(O1 & O2 & O3 & O4 & O5)].
  - left. unfold noDeath. repeat split; congruence.
  - right. split; [|destruct (gameState render); try discriminate P;
                    reflexivity].
    unfold oneDeath. rewrite <- N1, <- N2, <- N3, <- N4. auto.
Qed.

End FrameFacts.

(* ================================================================== *)
(** ** The invariant of the reachable states *)

Lemma commit_sync s w : gameState (render (commit s w)) = gameState (react w).
Proof.
  unfold commit. cbn.
  destruct (GameState_eqb (gameState (react w)) (gameState (render s))) eqn:E;
    [|reflexivity].
  destruct (gameState (react w)), (gameState (render s));
    try discriminate E; reflexivity.
Qed.

Lemma Inv_core s :
  Inv s <-> gameState (render s) = phase s /\ coreOk (core (world s)).
Proof.
  unfold coreOk, core, phase. split.
  - intros [A B C D E]. auto.
  - intros (A & B & C & D & E). constructor; assumption.
Qed.

Lemma Inv_commit s w : coreOk (core w) -> Inv (commit s w).
Proof.
  intro H. apply Inv_core. split; [apply commit_sync | exact H].
Qed.

Lemma pending_app f w t w' :
  timers w' = timers w ++ [t] ->
  pending f w' = (pending f w + if f t then 1 else 0)%nat.
Proof.
  intro E. unfold pending. rewrite E, filter_app, length_app. cbn.
  destruct (f t); reflexivity.
Qed.

Lemma pending_same f w w' : timers w' = timers w -> pending f w' = pending f w.
Proof. intro E. unfold pending. rewrite E. reflexivity. Qed.

Lemma pending_setTimeout f t w :
  pending f (setTimeout t w)
  = (pending f w + if f t then 1 else 0)%nat.
Proof. apply pending_app. reflexivity. Qed.

Section FrameInv.

Variable host : Host.

Lemma levelClear_core render w :
  let w' := levelClear render w in
  lives (react w') = lives (react w) /\ shipAlive w' = shipAlive w
  /\ pending isRespawn w' = pending isRespawn w
  /\ pending isGameOver w' = pending isGameOver w
  /\ (gameState (react w') = gameState (react w)
      \/ (gameState render = PLAYING
          /\ gameState (react w') = LEVEL_TRANSITION)).
Proof.
  unfold levelClear. destruct (asteroidsRef w); [|auto 10].
  destruct (ufoRef w); [auto 10|].
  destruct (isPlaying (gameState render)) eqn:P; [|auto 10].
  assert (gameState render = PLAYING) as G
    by (destruct (gameState render); try discriminate P; reflexivity).
  unfold startNextLevel.
  rewrite !pending_setTimeout. cbn. rewrite !Nat.add_0_r. auto 10.
Qed.

(** A frame keeps the invariant. *)
Lemma frame_coreOk render inp w :
  gameState render = gameState (react w) ->
  coreOk (core w) -> coreOk (core (animate host render inp w)).
Proof.
  intros Sy (L & A & R & O). rewrite animate_levelClear.
  destruct (frame_life host render inp w) as (_ & F).
  set (w1 := beforeLevelClear host render inp w) in *.
  assert (coreOk (core w1)
          /\ (gameState (react w1) = gameState (react w)
              \/ gameState (react w1) = GAME_OVER)) as [(L1 & A1 & R1 & O1) G1].
  { unfold coreOk, core.
    destruct F as [(N1 & N2 & N3 & N4)|((D1 & D2 & D3 & D4 & D5) & P)].
    - rewrite N1, N2, N4, (pending_same isRespawn _ _ N3),
        (pending_same isGameOver _ _ N3). auto.
    - destruct (A D1) as (A1 & A2 & A3).
      rewrite D2, D3.
      destruct (lives (react w1) <=? 0)%Z eqn:Z; destruct D5 as [G T].
      + apply Z.leb_le in Z.
        rewrite (pending_app isRespawn _ _ _ T),
          (pending_app isGameOver _ _ _ T).
        cbn. rewrite A2, A3, G. split; [|auto].
        split; [lia|]. split; [discriminate|]. split; [auto|].
        right. repeat split; auto; lia.
      + apply Z.leb_gt in Z.
        rewrite (pending_app isRespawn _ _ _ T),
          (pending_app isGameOver _ _ _ T).
        cbn. rewrite A2, A3, G. split; [|auto].
        split; [lia|]. split; [discriminate|]. split; [|auto].
        right. repeat split; auto; try lia. left. congruence. }
  destruct (active (gameState render)); [|unfold coreOk, core; auto].
  destruct (levelClear_core render w1) as (E1 & E2 & E3 & E4 & E5).
  unfold coreOk, core. rewrite E1, E2, E3, E4.
  split; [exact L1|]. split; [exact A1|].
  destruct E5 as [->|[P ->]]; [auto|].
  split.
  - destruct R1 as [?|(? & ? & ? & ?)]; auto 10.
  - destruct O1 as [?|(? & ? & ? & ?)]; auto 10.
Qed.

End FrameInv.

Lemma filter_removeNth {A} (f : A -> bool) i : forall l t,
  nth_error l i = Some t ->
  List.length (filter f l)
  = (List.length (filter f (removeNth i l)) + if f t then 1 else 0)%nat.
Proof.
  unfold removeNth.
  induction i as [|i IH]; intros [|x l] t H; try discriminate H.
  - injection H as ->. cbn. destruct (f t); cbn; lia.
  - cbn [nth_error] in H. specialize (IH l t H).
    cbn [firstn skipn app filter] in *.
    destruct (f x); cbn [List.length]; lia.
Qed.

Lemma pending_timerOff f i t w :
  nth_error (timers w) i = Some t ->
  pending f w = (pending f (timerOff i w) + if f t then 1 else 0)%nat.
Proof. intro H. unfold pending. cbn. apply filter_removeNth, H. Qed.

Lemma core_ext w w' :
  lives (react w') = lives (react w) ->
  gameState (react w') = gameState (react w) ->
  timers w' = timers w -> shipAlive w' = shipAlive w ->
  core w' = core w.
Proof.
  intros L G T A. unfold core, pending. rewrite L, G, T, A. reflexivity.
Qed.

Lemma core_setGameState g w :
  core (setGameState g w)
  = (lives (react w), g, pending isRespawn w, pending isGameOver w,
     shipAlive w).
Proof. reflexivity. Qed.

Lemma onShip_core f w :
  (forall s, isDead (f s) = isDead s) -> core (onShip f w) = core w.
Proof.
  intro H. apply core_ext; unfold onShip, shipAlive;
    destruct (shipRef w) as [s|] eqn:S; cbn; rewrite ?S, ?H; reflexivity.
Qed.

Lemma coreOk_playing l g r o a :
  coreOk (l, g, r, o, a) -> coreOk (l, PLAYING, r, o, a).
Proof.
  intros (L & A & R & O). unfold coreOk. split; [exact L|]. split; [exact A|].
  split.
  - destruct R as [?|(? & ? & ? & ?)]; auto 10.
  - destruct O as [?|(? & ? & ? & ?)]; auto 10.
Qed.

Section EventInv.

Variable host : Host.

Lemma pickSpot_frame fuel width height : forall w x y w',
  pickSpot host fuel width height w = Some (x, y, w') ->
  exists k, w' = with_randomCount k w.
Proof.
  induction fuel as [|fuel IH]; intros w x y w' H; [discriminate H|].
  cbn [pickSpot] in H. destruct (_ && _).
  - destruct (IH _ _ _ _ H) as (k & ->). eexists. reflexivity.
  - injection H as <- <- <-. eexists. reflexivity.
Qed.

Lemma newAsteroids_frame fuel n width height : forall w l w',
  newAsteroids host fuel n width height w = Some (l, w') ->
  exists k, w' = with_randomCount k w.
Proof.
  induction n as [|n IH]; intros w l w' H; cbn [newAsteroids] in H.
  - injection H as <- <-. exists (randomCount w). destruct w; reflexivity.
  - unfold newLargeAsteroid in H.
    destruct (pickSpot host fuel width height w) as [[[x y] w1]|] eqn:P;
      [|discriminate H].
    destruct (pickSpot_frame _ _ _ _ _ _ _ P) as (k1 & ->).
    destruct (newAsteroids host fuel n width height _) as [[l2 w2]|] eqn:N;
      [|discriminate H].
    injection H as <- <-. destruct (IH _ _ _ N) as (k2 & ->).
    eexists. reflexivity.
Qed.

Lemma spawnAsteroids_frame fuel count lm width height w w' :
  spawnAsteroids host fuel count lm width height w = Some w' ->
  exists l k, w' = with_asteroidsRef (asteroidsRef w ++ l)
                     (with_randomCount k w).
Proof.
  unfold spawnAsteroids.
  destruct (newAsteroids host fuel _ width height w) as [[l w1]|] eqn:N;
    [|discriminate].
  intro H. injection H as <-.
  destruct (newAsteroids_frame _ _ _ _ _ _ _ N) as (k & ->).
  exists l, k. reflexivity.
Qed.

Lemma startGame_coreOk tnow w :
  coreOk (core w) ->
  gameState (react w) = MENU \/ gameState (react w) = HIGH_SCORES ->
  coreOk (core (startGame tnow w)).
Proof.
  intros (L & A & R & O) G. unfold coreOk, core, startGame.
  rewrite !pending_setTimeout. cbn.
  assert (pending isRespawn w = 0%nat) as R0.
  { destruct R as [?|(_ & _ & _ & [E|E])]; [assumption| |];
      destruct G as [G|G]; congruence. }
  assert (pending isGameOver w = 0%nat) as O0.
  { destruct O as [?|(_ & _ & _ & [E|[E|E]])]; [assumption| | |];
      destruct G as [G|G]; congruence. }
  unfold pending in *. cbn. rewrite R0, O0. cbn.
  split; [lia|]. split; [intros _; split; [lia|auto]|]. auto.
Qed.

Lemma handleKeyDown_coreOk g code tnow w :
  g = gameState (react w) -> coreOk (core w) ->
  coreOk (core (handleKeyDown host g code tnow w)).
Proof.
  intros -> H. unfold handleKeyDown.
  set (w1 := with_keysRef _ w).
  assert (coreOk (core w1)) as H1 by exact H.
  assert (gameState (react w1) = gameState (react w)) as G1 by reflexivity.
  destruct (gameState (react w)) eqn:G; try exact H.
  - (* MENU *)
    destruct (String.eqb code "Space"); cbn [andb isPlaying];
      rewrite ?andb_false_r; [|exact H1].
    apply startGame_coreOk; [exact H1 | left; exact G1].
  - (* PLAYING *)
    rewrite andb_false_r, andb_true_r.
    destruct (isMissileKey code); [|exact H1].
    destruct (shipRef w1) as [ship|] eqn:S; [|exact H1].
    destruct (negb (isDead ship) && (0 <? missileAmmo ship)%Z) eqn:C;
      [|exact H1].
    apply andb_prop in C as [D _].
    unfold coreOk, core, pending, shipAlive in *. cbn. rewrite S in H1.
    exact H1.
  - rewrite !andb_false_r. exact H1.
  - rewrite !andb_false_r. exact H1.
  - rewrite !andb_false_r. exact H1.
Qed.

Lemma timerOff_coreOk i t w :
  nth_error (timers w) i = Some t -> coreOk (core w) ->
  isRespawn t = false -> isGameOver t = false ->
  coreOk (core (timerOff i w)).
Proof.
  intros N H R O.
  pose proof (pending_timerOff isRespawn i _ w N) as PR.
  pose proof (pending_timerOff isGameOver i _ w N) as PO.
  rewrite R, O, Nat.add_0_r in *. unfold core in *.
  rewrite <- PR, <- PO. exact H.
Qed.

Lemma runTimer_coreOk fuel tnow i t w w' :
  nth_error (timers w) i = Some t -> coreOk (core w) ->
  runTimer host fuel tnow t (timerOff i w) = Some w' ->
  coreOk (core w').
Proof.
  intros N C H.
  pose proof (pending_timerOff isRespawn i _ w N) as PR.
  pose proof (pending_timerOff isGameOver i _ w N) as PO.
  destruct t as [|nl|sc hs|cl]; cbn [runTimer isRespawn isGameOver] in *.
  - (* startGame's callback *)
    pose proof (timerOff_coreOk i _ w N C eq_refl eq_refl) as C0.
    destruct (spawnAsteroids host fuel 3 0 _ _ _) as [w1|] eqn:Sp;
      [|discriminate H].
    injection H as <-.
    destruct (spawnAsteroids_frame _ _ _ _ _ _ _ Sp) as (l & k & ->).
    rewrite core_setGameState.
    apply (coreOk_playing _ (gameState (react (timerOff i w)))).
    exact C0.
  - (* startNextLevel's callback *)
    pose proof (timerOff_coreOk i _ w N C eq_refl eq_refl) as C0.
    destruct (spawnAsteroids host fuel 3 nl _ _ _) as [w1|] eqn:Sp;
      [|discriminate H].
    injection H as <-.
    destruct (spawnAsteroids_frame _ _ _ _ _ _ _ Sp) as (l & k & ->).
    set (w0 := timerOff i w) in *.
    set (w1 := onShip _ w0).
    assert (core w1 = core w0) as E by (apply onShip_core; reflexivity).
    change (coreOk (lives (react w1), PLAYING, pending isRespawn w1,
                    pending isGameOver w1, shipAlive w1)).
    apply (coreOk_playing _ (gameState (react w1))).
    change (coreOk (core w1)). rewrite E. exact C0.
  - (* handleGameOver's callback *)
    injection H as <-. rewrite core_setGameState.
    destruct C as (L & A & R & O).
    change (lives (react (timerOff i w))) with (lives (react w)).
    change (shipAlive (timerOff i w)) with (shipAlive w).
    destruct O as [O|(O1 & O2 & O3 & O4)]; [lia|].
    destruct R as [R|(R1 & R2 & R3 & R4)]; [|lia].
    unfold coreOk. rewrite O2. split; [exact L|]. split; [discriminate|].
    split; left; lia.
  - (* the deferred respawn *)
    injection H as <-. destruct C as (L & A & R & O).
    destruct R as [R|(R1 & R2 & R3 & R4)]; [lia|].
    destruct O as [O|(O1 & O2 & O3 & O4)]; [|lia].
    assert (pending isRespawn (timerOff i w) = 0%nat) as R0 by lia.
    assert (pending isGameOver (timerOff i w) = 0%nat) as O0 by lia.
    destruct (0 <? cl)%Z.
    + unfold coreOk, core.
      change (pending isRespawn (resetShip _ _ ?x)) with (pending isRespawn x).
      change (pending isGameOver (resetShip _ _ ?x))
        with (pending isGameOver x).
      rewrite R0, O0. cbn. split; [exact L|]. split; [auto|]. auto.
    + unfold coreOk, core. rewrite R0, O0.
      change (shipAlive (timerOff i w)) with (shipAlive w). rewrite R2.
      split; [exact L|]. split; [discriminate|]. auto.
Qed.

End EventInv.

Lemma coreOk_leave l g g' r o a :
  coreOk (l, g, r, o, a) ->
  g = MENU \/ g = HIGH_SCORES \/ g = ENTER_INITIALS ->
  coreOk (l, g', r, o, a).
Proof.
  intros (L & A & R & O) G. unfold coreOk.
  split; [exact L|]. split; [exact A|]. split; left.
  - destruct R as [?|(_ & _ & _ & [E|E])]; [assumption| |];
      destruct G as [G|[G|G]]; congruence.
  - destruct O as [?|(_ & _ & _ & [E|[E|E]])]; [assumption| | |];
      destruct G as [G|[G|G]]; congruence.
Qed.

(** Every event keeps the invariant. *)
Lemma step_Inv host e s s' : Inv s -> step host e s = Some s' -> Inv s'.
Proof.
  intros I H. apply Inv_core in I as [Sy C]. unfold phase in Sy.
  destruct e as [inp|code tnow|code|i fuel tnow|tnow| | |str|tnow];
    cbn [step] in H.
  - injection H as <-. apply Inv_commit, frame_coreOk; assumption.
  - injection H as <-. apply Inv_commit, handleKeyDown_coreOk;
      [reflexivity | assumption].
  - injection H as <-. apply Inv_commit. exact C.
  - destruct (nth_error (timers (world s)) i) as [t|] eqn:N; [|discriminate H].
    destruct (runTimer host fuel tnow t _) as [w'|] eqn:R; [|discriminate H].
    injection H as <-. apply Inv_commit.
    exact (runTimer_coreOk host fuel tnow i t (world s) w' N C R).
  - unfold phase in H.
    destruct (gameState (react (world s))) eqn:G; try discriminate H;
      injection H as <-; apply Inv_commit, startGame_coreOk; auto.
  - unfold phase in H.
    destruct (gameState (react (world s))) eqn:G; try discriminate H.
    injection H as <-. apply Inv_commit. rewrite core_setGameState.
    apply (coreOk_leave _ MENU); [|auto]. rewrite <- G. exact C.
  - unfold phase in H.
    destruct (gameState (react (world s))) eqn:G; try discriminate H.
    injection H as <-. apply Inv_commit. rewrite core_setGameState.
    apply (coreOk_leave _ HIGH_SCORES); [|auto]. rewrite <- G. exact C.
  - unfold phase in H.
    destruct (gameState (react (world s))) eqn:G; try discriminate H.
    injection H as <-. apply Inv_commit. exact C.
  - unfold phase in H.
    destruct (gameState (react (world s))) eqn:G; try discriminate H.
    destruct (initials (react (world s))); [discriminate H|].
    injection H as <-. apply Inv_commit.
    change (coreOk (lives (react (world s)), HIGH_SCORES,
                    pending isRespawn (world s),
                    pending isGameOver (world s), shipAlive (world s))).
    apply (coreOk_leave _ ENTER_INITIALS); [|auto]. rewrite <- G. exact C.
Qed.

Lemma initial_Inv hs width height : Inv (initialSys hs width height).
Proof.
  constructor; cbn; try reflexivity; try lia; try discriminate; auto.
Qed.

Theorem reachable_Inv host s : reachable host s -> Inv s.
Proof.
  induction 1 as [hs width height | s e s' _ IH H].
  - apply initial_Inv.
  - exact (step_Inv host e s s' IH H).
Qed.

Lemma run_reachable host es : forall s s',
  reachable host s -> run host es s = Some s' -> reachable host s'.
Proof.
  induction es as [|e es IH]; intros s s' R H; cbn [run] in H.
  - injection H as <-. exact R.
  - destruct (step host e s) as [s1|] eqn:E; [|discriminate H].
    apply (IH s1 s'); [|exact H]. exact (reach_step host s e s1 R E).
Qed.

(* ================================================================== *)
(** ** Lemmas of the claims *)

Lemma firstHit_intro {A} (hit : A -> bool) pre a post :
  hit a = true -> Forall (fun x => hit x = false) pre ->
  firstHit hit (pre ++ a :: post) = Some (pre, a, post).
Proof.
  intros Ha Hpre. induction Hpre as [|x pre Hx _ IH]; cbn [app firstHit].
  - rewrite Ha. reflexivity.
  - rewrite Hx, IH. reflexivity.
Qed.

Section ClaimLemmas.

Variable host : Host.

Lemma bulletVsUfo_dead inp b w :
  isDead b = true -> bulletVsUfo host inp b w = (b, w).
Proof.
  intro D. unfold bulletVsUfo. destruct (ufoRef w); [|reflexivity].
  rewrite D. reflexivity.
Qed.

Lemma ufoBulletVsShip_shipOwned render b w :
  owner b = OwnerShip -> ufoBulletVsShip host render b w = (b, w).
Proof.
  intro O. unfold ufoBulletVsShip. destruct (shipRef w); [|reflexivity].
  rewrite O. reflexivity.
Qed.

Lemma missileVsUfo_shape inp ufo w :
  exists pus ps k,
    missileVsUfo host inp ufo w
    = with_ufoRef None
        (with_lastUfoSpawnTimeRef (now inp)
           (with_powerUpsRef (powerUpsRef w ++ pus)
              (with_particlesRef (particlesRef w ++ ps)
                 (setScore (fun prev => prev + 500)%Z (drawn k w))))).
Proof.
  unfold missileVsUfo.
  destruct (spawnPowerUp_shape host (pos ufo) w) as (pus & k1 & E1 & _).
  rewrite E1. set (w1 := with_powerUpsRef _ _).
  destruct (createExplosion_sparks host (pos ufo) (color (entity ufo)) 30 w1)
    as (ps & k2 & E2).
  rewrite E2. subst w1. exists pus, ps, (k1 + k2)%nat.
  destruct w; unfold drawn, setScore; cbn. rewrite Nat.add_assoc.
  reflexivity.
Qed.

Lemma bulletVsUfo_hit inp b ufo w :
  ufoRef w = Some ufo -> isDead b = false -> collide b ufo = true ->
  exists pus ps k,
    bulletVsUfo host inp b w
    = (kill b,
       with_ufoRef None
         (with_lastUfoSpawnTimeRef (now inp)
            (with_powerUpsRef (powerUpsRef w ++ pus)
               (with_particlesRef (particlesRef w ++ ps)
                  (setScore (fun prev => prev + 500)%Z (drawn k w)))))).
Proof.
  intros U D C. unfold bulletVsUfo. rewrite U, D, C. cbn [negb andb].
  destruct (spawnPowerUp_shape host (pos ufo) w) as (pus & k1 & E1 & _).
  rewrite E1. set (w1 := with_powerUpsRef _ _).
  destruct (createExplosion_sparks host (pos ufo) (color (entity ufo)) 20 w1)
    as (ps & k2 & E2).
  rewrite E2. subst w1. exists pus, ps, (k1 + k2)%nat. f_equal.
  destruct w; unfold drawn, setScore; cbn. rewrite Nat.add_assoc.
  reflexivity.
Qed.

(** Collision resolution never kills a craft whose shield is up. *)
Lemma collisions_shielded render inp w ship :
  shipRef w = Some ship -> 0 < powerupShieldTimer ship ->
  noDeath w (collisions host render inp w).
Proof.
  intros S Sh.
  destruct (collisions_settles host render inp w) as [_ _ _ _ _ H D].
  destruct D as [N|(_ & _ & _ & X & _)]; [exact N|]. exfalso.
  unfold exposed in X. unfold hullOpt in H. rewrite S in H.
  destruct (shipRef (collisions host render inp w)) as [s'|]; [|exact X].
  destruct H as (_ & _ & _ & [T|T] & _); destruct X as [X _];
    rewrite T in X; [|unfold POWERUP_DURATION in X]; lra.
Qed.

Lemma levelClear_life render w :
  lives (react (levelClear render w)) = lives (react w)
  /\ shipAlive (levelClear render w) = shipAlive w.
Proof.
  destruct (levelClear_core render w) as (L & A & _). auto.
Qed.

Lemma enemyDt_slow w dt ship :
  shipRef w = Some ship -> 0 < powerupTimeSlowTimer ship ->
  enemyDt w dt = dt * 0.3.
Proof.
  intros S T. unfold enemyDt, timeSlowActive. rewrite S.
  apply NumFacts.gtb_gt in T. rewrite T. reflexivity.
Qed.

(** The bounds of the field are those of the canvas the frame drew on. *)
Lemma resize_canvas inp w :
  canvasWidth (resize inp w) == innerWidth inp
  /\ canvasHeight (resize inp w) == innerHeight inp.
Proof.
  unfold resize.
  destruct (Qeq_bool (canvasWidth w) (innerWidth inp)) eqn:Ew;
    destruct (Qeq_bool (canvasHeight w) (innerHeight inp)) eqn:Eh;
    cbn [negb orb canvasWidth canvasHeight with_canvasHeight
         with_canvasWidth];
    try (split; reflexivity).
  apply Qeq_bool_iff in Ew. apply Qeq_bool_iff in Eh. auto.
Qed.

Lemma updateAsteroid_inField edt width height a :
  0 <= width -> 0 <= height ->
  inField width height (pos (updateAsteroid edt width height a)).
Proof.
  intros W H. unfold updateAsteroid. apply wrapPosition_inField; assumption.
Qed.

Lemma updatePowerUp_inField dt width height p :
  0 <= width -> 0 <= height ->
  inField width height (pos (updatePowerUp dt width height p)).
Proof.
  intros W H. unfold updatePowerUp. apply wrapPosition_inField; assumption.
Qed.

Lemma levelClear_refs render w :
  let w' := levelClear render w in
  asteroidsRef w' = asteroidsRef w /\ powerUpsRef w' = powerUpsRef w
  /\ shipRef w' = shipRef w /\ canvasWidth w' = canvasWidth w
  /\ canvasHeight w' = canvasHeight w /\ bulletsRef w' = bulletsRef w
  /\ ufoRef w' = ufoRef w.
Proof.
  cbn zeta. unfold levelClear.
  destruct (asteroidsRef w) eqn:A; [|rewrite A; auto 10].
  destruct (ufoRef w) eqn:U; [rewrite A, U; auto 10|].
  destruct (isPlaying (gameState render)); cbn; rewrite A, U; auto 10.
Qed.

Lemma purge_In {T} `{IsEntity T} (x : T) l : In x (purge l) -> In x l.
Proof. unfold purge. intro I. apply filter_In in I. tauto. Qed.

(** A frame, as far as lives, deaths and the callbacks of a death go. *)
Lemma frame_deaths render inp w :
  let w1 := beforeLevelClear host render inp w in
  let w' := animate host render inp w in
  (lives (react w') = lives (react w) /\ shipAlive w' = shipAlive w
   /\ pending isGameOver w' = pending isGameOver w
   /\ pending isRespawn w' = pending isRespawn w)
  \/ (gameState render = PLAYING
      /\ shipAlive w = true /\ shipAlive w' = false
      /\ lives (react w') = (lives (react w) - 1)%Z
      /\ if (lives (react w') <=? 0)%Z
         then pending isGameOver w' = (pending isGameOver w + 1)%nat
              /\ pending isRespawn w' = pending isRespawn w
              /\ gameState (react w1) = GAME_OVER
         else pending isGameOver w' = pending isGameOver w
              /\ pending isRespawn w' = (pending isRespawn w + 1)%nat).
Proof.
  intros w1 w'.
  destruct (frame_life host render inp w) as (_ & F). fold w1 in F.
  assert (lives (react w') = lives (react w1) /\ shipAlive w' = shipAlive w1
          /\ pending isRespawn w' = pending isRespawn w1
          /\ pending isGameOver w' = pending isGameOver w1)
    as (L & A & R & O).
  { subst w'. rewrite animate_levelClear. fold w1.
    destruct (active (gameState render)); [|auto].
    destruct (levelClear_core render w1) as (? & ? & ? & ? & _). auto. }
  rewrite L, A, R, O.
  destruct F as [(N1 & N2 & N3 & N4)|((D1 & D2 & D3 & D4 & D5) & P)].
  - left. rewrite N1, N4, (pending_same isRespawn _ _ N3),
      (pending_same isGameOver _ _ N3). auto.
  - right. split; [exact P|]. split; [exact D1|]. split; [exact D2|].
    split; [exact D3|].
    destruct (lives (react w1) <=? 0)%Z; destruct D5 as [G T];
      rewrite (pending_app isRespawn _ _ _ T),
        (pending_app isGameOver _ _ _ T); cbn [isRespawn isGameOver];
      rewrite ?Nat.add_0_r; auto.
Qed.

Lemma nth_error_pending f i t w :
  nth_error (timers w) i = Some t -> f t = true -> (1 <= pending f w)%nat.
Proof.
  intros N F. rewrite (pending_timerOff f i t w N), F. lia.
Qed.

Lemma runTimer_alive fuel tnow t w w' :
  runTimer host fuel tnow t w = Some w' -> isRespawn t = false ->
  shipAlive w' = shipAlive w.
Proof.
  intros H R. destruct t as [|nl|sc hs|cl]; try discriminate R;
    cbn [runTimer] in H.
  - destruct (spawnAsteroids host fuel 3 0 _ _ _) as [w1|] eqn:Sp;
      [|discriminate H].
    injection H as <-.
    destruct (spawnAsteroids_frame _ _ _ _ _ _ _ _ Sp) as (l & k & ->).
    reflexivity.
  - destruct (spawnAsteroids host fuel 3 nl _ _ _) as [w1|] eqn:Sp;
      [|discriminate H].
    injection H as <-.
    destruct (spawnAsteroids_frame _ _ _ _ _ _ _ _ Sp) as (l & k & ->).
    unfold onShip, shipAlive. cbn. destruct (shipRef w) eqn:S; cbn;
      rewrite ?S; reflexivity.
  - injection H as <-. reflexivity.
Qed.

End ClaimLemmas.

(* ================================================================== *)
(** ** The scenarios, run *)

(** The run of [deathRun] ends with the craft dead, two lives left and
    one respawn pending. *)
Example deathScene_state :
  (lives (react (world deathScene)), phase deathScene,
   timers (world deathScene), shipAlive (world deathScene))
  = (2%Z, PLAYING, [TRespawn 3], false).
Proof. vm_compute. reflexivity. Qed.

Lemma deathScene_reachable : reachable sampleHost deathScene.
Proof.
  apply (run_reachable sampleHost deathRun (initialSys [] 800 600));
    [apply reach_init | vm_compute; reflexivity].
Qed.

(** When that respawn comes due the craft is alive again. *)
Example deathScene_respawn :
  option_map (fun s => (shipAlive (world s), timers (world s)))
             (step sampleHost (ETimer 0 0 0) deathScene)
  = Some (true, []).
Proof. vm_compute. reflexivity. Qed.

(** Losing the last life: the phase is GameOver and the continuation of
    [handleGameOver] is the one callback pending. *)
Example lastLife_frame :
  let w' := animate sampleHost (reactIn PLAYING) (frameAt 1) lastLifeWorld in
  (lives (react w'), gameState (react w'), timers w', shipAlive w')
  = (0%Z, GAME_OVER, [TGameOver 0 []], false).
Proof. vm_compute. reflexivity. Qed.

(** Losing the last life against the hostile unit when no obstacle is
    left: [handleGameOver] runs, then the level-clear check of the same
    frame starts the next level, whose phase is the one written last. *)
Example ram_frame :
  let w' := animate sampleHost (reactIn PLAYING) (frameAt 1) ramWorld in
  (lives (react w'), gameState (react w'), timers w', shipAlive w')
  = (0%Z, LEVEL_TRANSITION, [TGameOver 0 []; TNextLevel 2], false).
Proof. vm_compute. reflexivity. Qed.

(* ================================================================== *)
(** * Further properties of the code *)

(** ** utils/gameMath.ts *)

Lemma ltb_compat x x' y y' :
  x == x' -> y == y' -> Num.ltb x y = Num.ltb x' y'.
Proof.
  intros Hx Hy. destruct (Num.ltb x' y') eqn:E.
  - apply NumFacts.ltb_lt in E. apply NumFacts.ltb_lt. lra.
  - apply NumFacts.ltb_ge in E. apply NumFacts.ltb_ge. lra.
Qed.

Lemma randomRange_bounds r min max :
  0 <= r < 1 -> min <= max ->
  min <= randomRange r min max <= max
  /\ (min < max -> randomRange r min max < max).
Proof.
  intros [R0 R1] M. unfold randomRange.
  assert (0 <= r * (max - min)) as A by (apply Qmult_le_0_compat; lra).
  assert (0 <= (1 - r) * (max - min)) as B
    by (apply Qmult_le_0_compat; lra).
  split; [split|]; [nra | nra |].
  intro S. assert (0 < (1 - r) * (max - min)) as C
    by (apply Qmult_lt_0_compat; lra).
  nra.
Qed.

(** X1.  [randomRange(min, max)] scales a draw of [Math.random()], which
    lies in [0, 1), into the closed interval between its bounds,
    whichever way round they are given (computing exactly).  The upper
    bound is not left out: on doubles the largest draw, [1 - 2^-53],
    gives exactly 1 between the bounds 0.5 and 1. *)
Theorem X1_randomRange_bounds r min max :
  0 <= r < 1 ->
  (min <= max -> min <= randomRange r min max <= max)
  /\ (max <= min -> max <= randomRange r min max <= min)
  /\ Binary64.randomRange Binary64.lastDraw Binary64.half Binary64.one
     = Binary64.one.
Proof.
  intro R. split; [intro M; apply randomRange_bounds; assumption|].
  split; [|reflexivity].
  intro M. destruct R as [R0 R1]. unfold randomRange.
  assert (0 <= r * (min - max)) as A by (apply Qmult_le_0_compat; lra).
  assert (0 <= (1 - r) * (min - max)) as B
    by (apply Qmult_le_0_compat; lra).
  split; nra.
Qed.

(** X2.  [checkCollision] does not depend on the order of the two
    bodies. *)
Theorem X2_checkCollision_sym pos1 radius1 pos2 radius2 :
  checkCollision pos1 radius1 pos2 radius2
  = checkCollision pos2 radius2 pos1 radius1.
Proof.
  unfold checkCollision, distance2. cbn zeta. f_equal.
  - apply ltb_compat; [reflexivity | ring].
  - apply ltb_compat; ring.
Qed.

(** X3.  On a canvas of non-negative size [wrapPosition] leaves a
    position inside the field where it is, and wrapping twice is
    wrapping once. *)
Theorem X3_wrapPosition_fixes width height p :
  0 <= width -> 0 <= height ->
  (inField width height p -> wrapPosition p width height = p)
  /\ wrapPosition (wrapPosition p width height) width height
     = wrapPosition p width height.
Proof.
  intros W H.
  assert (forall q, inField width height q -> wrapPosition q width height = q)
    as F.
  { intros [x y] [[X0 X1] [Y0 Y1]]. cbn [px py] in *.
    unfold wrapPosition. cbn [px py].
    apply NumFacts.ltb_ge in X0, Y0. rewrite X0, Y0.
    apply NumFacts.gtb_le in X1, Y1. rewrite X1, Y1. reflexivity. }
  split; [apply F|]. apply F. apply wrapPosition_inField; assumption.
Qed.

(** X5.  With a cosine and a sine on the unit circle, [rotatePoint]
    keeps the distance of a point to the origin. *)
Theorem X5_rotatePoint_norm host p angle :
  unitCircle host ->
  norm2 (rotatePoint (Math_cos host) (Math_sin host) p angle) == norm2 p.
Proof.
  intro U. unfold norm2, rotatePoint. cbn [px py].
  specialize (U angle).
  set (c := Math_cos host angle) in *. set (s := Math_sin host angle) in *.
  transitivity ((px p * px p + py p * py p) * (c * c + s * s)); [ring|].
  rewrite U. ring.
Qed.

Lemma rnd_unit host w k : unitDraws host -> 0 <= rnd host w k < 1.
Proof. intro U. apply U. Qed.

Lemma vertex_norm host radius d angle :
  unitCircle host -> 0 <= d < 1 -> 0 <= radius ->
  let r := radius * randomRange d 0.7 1.3 in
  let v := {| px := Math_cos host angle * r; py := Math_sin host angle * r |} in
  (0.7 * radius) * (0.7 * radius) <= norm2 v
  /\ norm2 v <= (1.3 * radius) * (1.3 * radius).
Proof.
  intros U D R r v. specialize (U angle).
  assert (norm2 v == r * r) as E.
  { unfold norm2, v. cbn [px py].
    set (c := Math_cos host angle) in *. set (s := Math_sin host angle) in *.
    transitivity ((c * c + s * s) * (r * r)); [ring|]. rewrite U. ring. }
  rewrite E.
  destruct (randomRange_bounds d 0.7 1.3 D) as [[L H] _]; [lra|].
  assert (0.7 * radius <= r <= 1.3 * radius) as [Lr Hr].
  { unfold r. split; nra. }
  split; nra.
Qed.

(** X6.  [generateAsteroidVertices(radius, n)] gives [n] vertices; with
    a cosine and a sine on the unit circle and draws in [0, 1), each
    vertex is between 0.7 and 1.3 radii away from the centre. *)
Theorem X6_generateAsteroidVertices_ring host radius n w k :
  List.length (generateAsteroidVertices host radius n w k) = n
  /\ (unitCircle host -> unitDraws host -> 0 <= radius ->
      Forall (fun v => (0.7 * radius) * (0.7 * radius) <= norm2 v
                       /\ norm2 v <= (1.3 * radius) * (1.3 * radius))
             (generateAsteroidVertices host radius n w k)).
Proof.
  unfold generateAsteroidVertices. split.
  - rewrite length_map, length_seq. reflexivity.
  - intros C D R. apply Forall_forall. intros v I.
    apply in_map_iff in I as (i & <- & _).
    apply vertex_norm; [exact C | apply rnd_unit, D | exact R].
Qed.

(* ================================================================== *)
(** ** The spawners *)

(** X7.  [createExplosion(pos, color, count)] adds exactly [count]
    particles, each alive, at [pos] and of the colour given, makes five
    draws for each, and changes nothing else. *)
Theorem X7_createExplosion_exact host p c n : forall w,
  exists ps,
    createExplosion host p c n w
    = with_particlesRef (particlesRef w ++ ps) (drawn (5 * n) w)
    /\ List.length ps = n
    /\ Forall (fun q => pos q = p /\ color (entity q) = c
                        /\ isDead q = false /\ maxLife q = 1.0) ps.
Proof.
  induction n as [|n IH]; intro w; cbn [createExplosion].
  - exists []. split; [|split; [reflexivity | constructor]].
    destruct w; unfold drawn; cbn. rewrite app_nil_r, Nat.add_0_r.
    reflexivity.
  - destruct (IH (explosionParticle host p c w)) as (ps & E & L & F).
    rewrite E. unfold explosionParticle.
    match goal with |- context [pushParticle ?q _] =>
      remember q as q0 eqn:Q; exists (q0 :: ps) end.
    split; [|split].
    + clear Q E F. destruct w; unfold drawn, pushParticle.
      cbn -[Nat.mul Nat.add]. rewrite <- app_assoc. cbn [app].
      replace (5 * S n)%nat with (5 + 5 * n)%nat by lia.
      rewrite Nat.add_assoc. reflexivity.
    + cbn. rewrite L. reflexivity.
    + constructor; [|exact F]. subst q0. cbn. auto.
Qed.

Lemma Qfloor_unique x z :
  inject_Z z <= x -> x < inject_Z (z + 1) -> Qfloor x = z.
Proof.
  intros L H.
  pose proof (Qfloor_le x) as F1. pose proof (Qlt_floor x) as F2.
  assert (inject_Z (Qfloor x) < inject_Z (z + 1)) as A by lra.
  assert (inject_Z z < inject_Z (Qfloor x + 1)) as B by lra.
  rewrite <- Zlt_Qlt in A, B. lia.
Qed.

Lemma Qhalf x : x / 2 == x * (1 # 2).
Proof. field. Qed.

Lemma Math_abs_spec x :
  0 <= Math_abs x /\ (Math_abs x == x \/ Math_abs x == - x)
  /\ x <= Math_abs x /\ - x <= Math_abs x.
Proof.
  unfold Math_abs. destruct (Num.ltb x 0) eqn:E.
  - apply NumFacts.ltb_lt in E.
    split; [lra|]. split; [right; reflexivity | lra].
  - apply NumFacts.ltb_ge in E.
    split; [lra|]. split; [left; reflexivity | lra].
Qed.

Lemma pickType_quarter r : 0 <= r < 1 -> pickType r = quarter r.
Proof.
  intros [R0 R1]. unfold pickType, quarter.
  destruct (Num.ltb r (1 # 4)) eqn:A;
    [apply NumFacts.ltb_lt in A | apply NumFacts.ltb_ge in A].
  { rewrite (Qfloor_unique (r * 4) 0); [reflexivity | |];
      unfold inject_Z; simpl Z.add; lra. }
  destruct (Num.ltb r (1 # 2)) eqn:B;
    [apply NumFacts.ltb_lt in B | apply NumFacts.ltb_ge in B].
  { rewrite (Qfloor_unique (r * 4) 1); [reflexivity | |];
      unfold inject_Z; simpl Z.add; lra. }
  destruct (Num.ltb r (3 # 4)) eqn:C;
    [apply NumFacts.ltb_lt in C | apply NumFacts.ltb_ge in C].
  { rewrite (Qfloor_unique (r * 4) 2); [reflexivity | |];
      unfold inject_Z; simpl Z.add; lra. }
  rewrite (Qfloor_unique (r * 4) 3); [reflexivity | |];
    unfold inject_Z; simpl Z.add; lra.
Qed.

(** X8.  [spawnPowerUp] drops nothing when its first draw is above
    [POWERUP_DROP_RATE], and then makes no other draw.  Otherwise it adds
    one power-up, alive for 15 seconds, of radius 15, where the destroyed
    body was and in the colour of its type; with draws in [0, 1) each of
    the four types has a quarter of the draws, and the drift is at most
    20 on each axis. *)
Theorem X8_spawnPowerUp_drop host p w :
  (POWERUP_DROP_RATE < rnd host w 0 -> spawnPowerUp host p w = drawn 1 w)
  /\ (rnd host w 0 <= POWERUP_DROP_RATE ->
      exists q,
        spawnPowerUp host p w = pushPowerUp q (drawn 5 w)
        /\ pos q = p /\ isDead q = false /\ rad q = 15
        /\ powerUpLife q == 15
        /\ color (entity q) = powerUpColor (ptype q)
        /\ (unitDraws host ->
            ptype q = quarter (rnd host w 1)
            /\ -20 <= px (vel q) <= 20 /\ -20 <= py (vel q) <= 20)).
Proof.
  unfold spawnPowerUp. split; intro H.
  - apply NumFacts.gtb_gt in H. rewrite H. reflexivity.
  - apply NumFacts.gtb_le in H. rewrite H.
    eexists. split; [reflexivity|]. cbn -[pickType].
    do 3 (split; [reflexivity|]). split; [lra|]. split; [reflexivity|].
    intro U. split; [apply pickType_quarter, U|].
    split; apply randomRange_bounds; try apply U; lra.
Qed.

Lemma pickSpot_spot host fuel width height : forall w x y w',
  pickSpot host fuel width height w = Some (x, y, w') ->
  ~ nearCentre width height {| px := x; py := y |}
  /\ (unitDraws host -> 0 <= width -> 0 <= height ->
      0 <= x <= width /\ 0 <= y <= height).
Proof.
  induction fuel as [|fuel IH]; intros w x y w' H; [discriminate H|].
  cbn [pickSpot] in H.
  destruct (_ && _) eqn:E; [exact (IH _ _ _ _ H)|].
  injection H as <- <- <-. split.
  - unfold nearCentre. cbn [px py]. intros [A B].
    apply NumFacts.ltb_lt in A, B. rewrite A, B in E. discriminate E.
  - intros U W Hh. split; apply randomRange_bounds; try apply U; assumption.
Qed.

Lemma newAsteroids_rocks host fuel n width height : forall w l w',
  newAsteroids host fuel n width height w = Some (l, w') ->
  List.length l = n
  /\ Forall (largeRock width height) l
  /\ (unitDraws host -> 0 <= width -> 0 <= height ->
      Forall (fun a => 0 <= px (pos a) <= width /\ 0 <= py (pos a) <= height)
             l).
Proof.
  induction n as [|n IH]; intros w l w' H; cbn [newAsteroids] in H.
  - injection H as <- <-. repeat split; constructor.
  - unfold newLargeAsteroid in H.
    destruct (pickSpot host fuel width height w) as [[[x y] w1]|] eqn:P;
      [|discriminate H].
    destruct (newAsteroids host fuel n width height _) as [[l2 w2]|] eqn:N;
      [|discriminate H].
    injection H as <- <-. destruct (IH _ _ _ N) as (L & F & B).
    destruct (pickSpot_spot _ _ _ _ _ _ _ _ P) as (C & D).
    split; [cbn; rewrite L; reflexivity|]. split.
    + constructor; [|exact F]. unfold largeRock. cbn.
      repeat split; try reflexivity. exact C.
    + intros U W Hh. constructor; [|apply B; assumption].
      cbn. apply D; assumption.
Qed.

Lemma spawnAsteroids_placed host fuel count lm width height w w' :
  spawnAsteroids host fuel count lm width height w = Some w' ->
  exists l,
    asteroidsRef w' = asteroidsRef w ++ l
    /\ List.length l = Z.to_nat (count + lm)
    /\ Forall (largeRock width height) l
    /\ (unitDraws host -> 0 <= width -> 0 <= height ->
        Forall (fun a => 0 <= px (pos a) <= width
                         /\ 0 <= py (pos a) <= height) l).
Proof.
  unfold spawnAsteroids.
  destruct (newAsteroids host fuel _ width height w) as [[l w1]|] eqn:N;
    [|discriminate].
  intro H. injection H as <-.
  destruct (newAsteroids_frame _ _ _ _ _ _ _ _ N) as (k & ->).
  destruct (newAsteroids_rocks _ _ _ _ _ _ _ _ N) as (L & F & B).
  exists l. repeat split; assumption.
Qed.

(** X9.  When [spawnAsteroids(count, levelMultiplier, width, height)]
    returns, it has appended [count + levelMultiplier] obstacles to those
    already there: each large, alive, with ten vertices and outside the
    square of half side 150 around the centre of the canvas; with draws
    in [0, 1) each is on the canvas. *)
Theorem X9_spawnAsteroids_rocks host fuel count lm width height w w' :
  spawnAsteroids host fuel count lm width height w = Some w' ->
  exists l,
    asteroidsRef w' = asteroidsRef w ++ l
    /\ List.length l = Z.to_nat (count + lm)
    /\ Forall (largeRock width height) l
    /\ (unitDraws host -> 0 <= width -> 0 <= height ->
        Forall (fun a => 0 <= px (pos a) <= width
                         /\ 0 <= py (pos a) <= height) l).
Proof. exact (spawnAsteroids_placed host fuel count lm width height w w'). Qed.

Lemma pickSpot_small host fuel width height : forall w,
  unitDraws host -> 0 <= width < 300 -> 0 <= height < 300 ->
  pickSpot host fuel width height w = None.
Proof.
  induction fuel as [|fuel IH]; intros w U W Hh; [reflexivity|].
  cbn [pickSpot].
  destruct (randomRange_bounds (rnd host w 0) 0 width) as [[X0 X1] _];
    [apply U | lra |].
  destruct (randomRange_bounds (rnd host w 1) 0 height) as [[Y0 Y1] _];
    [apply U | lra |].
  assert (Num.ltb (Math_abs (randomRange (rnd host w 0) 0 width - width / 2))
                  150 = true) as A.
  { apply NumFacts.ltb_lt.
    destruct (Math_abs_spec (randomRange (rnd host w 0) 0 width - width / 2))
      as (_ & [E|E] & _); rewrite E, Qhalf; lra. }
  assert (Num.ltb (Math_abs (randomRange (rnd host w 1) 0 height - height / 2))
                  150 = true) as B.
  { apply NumFacts.ltb_lt.
    destruct (Math_abs_spec (randomRange (rnd host w 1) 0 height - height / 2))
      as (_ & [E|E] & _); rewrite E, Qhalf; lra. }
  rewrite A, B. cbn [andb]. apply IH; assumption.
Qed.

(** X10.  On a canvas less than 300 wide and less than 300 high every
    position drawn is within 150 of the centre on both axes, so the
    position search of [spawnAsteroids] never ends: whatever the number of
    attempts allowed, a call that has an obstacle to place does not
    return. *)
Theorem X10_spawnAsteroids_small host fuel count lm width height w :
  unitDraws host -> 0 <= width < 300 -> 0 <= height < 300 ->
  (0 < count + lm)%Z ->
  spawnAsteroids host fuel count lm width height w = None.
Proof.
  intros U W Hh C. unfold spawnAsteroids.
  destruct (Z.to_nat (count + lm)) as [|n] eqn:E; [lia|].
  cbn [newAsteroids]. unfold newLargeAsteroid.
  rewrite pickSpot_small by assumption. reflexivity.
Qed.

(* ================================================================== *)
(** ** The update half of the frame *)

Lemma frameDt_bounds inp w :
  frameDt inp w <= 0.1
  /\ (previousTimeRef w <= time inp -> 0 <= frameDt inp w)
  /\ (time inp - previousTimeRef w <= 100 ->
      frameDt inp w == (time inp - previousTimeRef w) / 1000).
Proof.
  unfold frameDt, Num.min.
  assert ((time inp - previousTimeRef w) / 1000
          == (time inp - previousTimeRef w) * (1 # 1000)) as E by field.
  destruct (Num.ltb _ _) eqn:C;
    [apply NumFacts.ltb_lt in C | apply NumFacts.ltb_ge in C];
    rewrite ?E in *; repeat split; intros; lra.
Qed.

(** X11.  The frame delta is at most a tenth of a second; it is not
    negative when the timestamps do not go back, and it is the time
    elapsed when that is at most 100 ms. *)
Theorem X11_frameDt_clamped inp w :
  frameDt inp w <= 0.1
  /\ (previousTimeRef w <= time inp -> 0 <= frameDt inp w)
  /\ (time inp - previousTimeRef w <= 100 ->
      frameDt inp w == (time inp - previousTimeRef w) / 1000).
Proof. exact (frameDt_bounds inp w). Qed.

Lemma fireBullet_one host s a w :
  exists b, shots w (fireBullet host s a w) [b]
            /\ shipBullet host b
            /\ angle (entity b) = angle (entity s) + a.
Proof.
  unfold fireBullet. eexists. split; [exists 1%nat; reflexivity|].
  split; [|reflexivity]. unfold shipBullet. cbn.
  repeat (split; [reflexivity|]). intro U. unfold norm2. cbn [px py].
  specialize (U (angle (entity s) + a)).
  set (c := Math_cos host _) in *. set (d := Math_sin host _) in *.
  transitivity ((c * c + d * d) * (BULLET_SPEED * BULLET_SPEED)); [ring|].
  rewrite U. ring.
Qed.

(** X12.  The Shoot step of Ship Logic fires only with a fire key held
    and the cooldown run out: then one bullet along the heading, and two
    more at 0.2 rad to either side while multi-shot lasts, and the
    cooldown restarts at [FIRE_RATE].  Otherwise it fires nothing.  Each
    bullet is the craft's own, alive, with the full [BULLET_LIFE], and
    flies at [BULLET_SPEED]. *)
Theorem X12_shipShoot_volley host dt ship w :
  let r := shipShoot host dt ship w in
  let trigger := keysRef w "Space"%string || keysRef w "ControlLeft"%string in
  let ready := Num.leb (countDown dt (cooldown ship)) 0 in
  let multi := Num.gtb (powerupMultiShotTimer ship) 0 in
  exists fired,
    shots w (snd r) fired
    /\ Forall (shipBullet host) fired
    /\ if trigger && ready
       then cooldown (fst r) = FIRE_RATE
            /\ map (fun b => angle (entity b)) fired
               = map (fun o => angle (entity ship) + o)
                     (0 :: if multi then [-0.2; 0.2] else [])
       else fired = [] /\ cooldown (fst r) = countDown dt (cooldown ship).
Proof.
  cbv zeta. unfold shipShoot.
  set (s1 := with_cooldown (countDown dt (cooldown ship)) ship).
  change (cooldown s1) with (countDown dt (cooldown ship)).
  destruct (_ && Num.leb _ _).
  - set (s2 := with_cooldown FIRE_RATE s1).
    change (powerupMultiShotTimer s2) with (powerupMultiShotTimer ship).
    destruct (fireBullet_one host s2 0 w) as (b0 & S0 & B0 & A0).
    destruct (Num.gtb (powerupMultiShotTimer ship) 0); cbn [fst snd].
    + destruct (fireBullet_one host s2 (-0.2) (fireBullet host s2 0 w))
        as (b1 & S1 & B1 & A1).
      destruct (fireBullet_one host s2 0.2
                  (fireBullet host s2 (-0.2) (fireBullet host s2 0 w)))
        as (b2 & S2 & B2 & A2).
      exists [b0; b1; b2]. split; [|split; [|split]].
      * exact (shots_trans _ _ _ _ _
                 (shots_trans _ _ _ _ _ S0 S1) S2).
      * repeat (constructor; [assumption|]). constructor.
      * reflexivity.
      * cbn [map]. rewrite A0, A1, A2. reflexivity.
    + exists [b0]. split; [exact S0|]. split; [constructor; [exact B0 | constructor]|].
      split; [reflexivity|]. cbn [map]. rewrite A0. reflexivity.
  - exists []. cbn [fst snd]. split; [apply shots_nil|].
    split; [constructor|]. split; reflexivity.
Qed.

Lemma purge_living {T} `{IsEntity T} (life : T -> Q) (l : list T) :
  Forall (fun x => isDead x = false -> 0 < life x) l ->
  living life (purge l).
Proof.
  intro F. unfold living, purge. apply Forall_forall. intros x I.
  apply filter_In in I as [I D]. apply negb_true_iff in D.
  split; [exact D|]. rewrite Forall_forall in F. exact (F x I D).
Qed.

Lemma updateBullet_live edt dt b :
  isDead (updateBullet edt dt b) = false ->
  0 < bulletLife (updateBullet edt dt b).
Proof.
  unfold updateBullet. cbv zeta.
  destruct (Num.leb _ _) eqn:E; [discriminate|].
  intros _. apply NumFacts.leb_gt in E. exact E.
Qed.

Lemma updatePowerUp_live dt width height p :
  isDead (updatePowerUp dt width height p) = false ->
  0 < powerUpLife (updatePowerUp dt width height p).
Proof.
  unfold updatePowerUp. cbv zeta.
  destruct (Num.leb _ _) eqn:E; [discriminate|].
  intros _. apply NumFacts.leb_gt in E. exact E.
Qed.

Lemma updateParticle_live dt p :
  isDead (updateParticle dt p) = false ->
  0 < particleLife (updateParticle dt p).
Proof.
  unfold updateParticle. cbv zeta.
  destruct (Num.leb _ _) eqn:E; [discriminate|].
  intros _. apply NumFacts.leb_gt in E. exact E.
Qed.

Lemma updateMissile_live host dt m w :
  isDead (fst (updateMissile host dt m w)) = false ->
  0 < missileLife (fst (updateMissile host dt m w)).
Proof.
  unfold updateMissile. cbv zeta.
  destruct (Num.leb _ _) eqn:E, (Num.gtb _ _); cbn [fst];
    try discriminate; intros _; apply NumFacts.leb_gt in E; exact E.
Qed.

Lemma updateMissiles_live host dt ms : forall w,
  Forall (fun m => isDead m = false -> 0 < missileLife m)
         (fst (updateMissiles host dt ms w)).
Proof.
  induction ms as [|m ms IH]; intro w; cbn [updateMissiles].
  - constructor.
  - pose proof (updateMissile_live host dt m w) as L.
    destruct (updateMissile host dt m w) as [m' w1]. cbn [fst] in L.
    specialize (IH w1).
    destruct (updateMissiles host dt ms w1) as [rest' w2]. cbn [fst] in *.
    constructor; assumption.
Qed.

Lemma map_live {A T} `{IsEntity T} (life : T -> Q) (f : A -> T) (l : list A) :
  (forall a, isDead (f a) = false -> 0 < life (f a)) ->
  Forall (fun x => isDead x = false -> 0 < life x) (map f l).
Proof.
  intro F. apply Forall_forall. intros x I.
  apply in_map_iff in I as (a & <- & _). apply F.
Qed.

(** X13.  When the update half of a frame is done, every bullet, missile,
    power-up and particle left in its collection is alive and has time
    left to live. *)
Theorem X13_update_living host g inp dt w :
  let w' := update host g inp dt w in
  living bulletLife (bulletsRef w')
  /\ living missileLife (missilesRef w')
  /\ living powerUpLife (powerUpsRef w')
  /\ living particleLife (particlesRef w').
Proof.
  cbv zeta. unfold update.
  set (w1 := if isPlaying g then _ else _).
  set (w2 := bulletsUpdate (enemyDt w dt) dt w1).
  assert (living bulletLife (bulletsRef w2)) as B.
  { apply purge_living, map_live, updateBullet_live. }
  set (w3 := missilesUpdate host dt w2).
  assert (living missileLife (missilesRef w3) /\ bulletsRef w3 = bulletsRef w2
          /\ powerUpsRef w3 = powerUpsRef w2) as (M & Eb & Ep).
  { unfold w3, missilesUpdate.
    pose proof (updateMissiles_live host dt (missilesRef w2) w2) as L.
    pose proof (updateMissiles_sparks host dt (missilesRef w2) w2) as S.
    destruct (updateMissiles host dt (missilesRef w2) w2) as [ms w'].
    cbn [fst snd] in *. destruct S as (ps & k & ->).
    split; [apply purge_living; exact L|]. split; reflexivity. }
  split; [cbn; rewrite Eb; exact B|].
  split; [exact M|]. split.
  - apply purge_living, map_live, updatePowerUp_live.
  - apply purge_living, map_live, updateParticle_live.
Qed.

Lemma min_cases x y :
  (Num.min x y == x /\ x <= y) \/ (Num.min x y == y /\ y <= x).
Proof.
  unfold Num.min. destruct (Num.ltb y x) eqn:E.
  - apply NumFacts.ltb_lt in E. right. split; [reflexivity | lra].
  - apply NumFacts.ltb_ge in E. left. split; [reflexivity | lra].
Qed.

(** X14.  Homing Logic turns a missile towards its target by at most
    [MISSILE_TURN_SPEED * dt] and never past it, and leaves its position,
    its life and its dead flag alone; on the unit circle its speed
    afterwards is [MISSILE_SPEED]. *)
Theorem X14_homing_bounded host dt target m :
  0 <= dt ->
  let current := Math_atan2 host (py (vel m)) (px (vel m)) in
  let diff := normalizeAngle
                (Math_atan2 host (py (pos target) - py (pos m))
                                 (px (pos target) - px (pos m)) - current) in
  let m' := homing host dt target m in
  (exists turn,
      angle (entity m') == current + turn
      /\ - (MISSILE_TURN_SPEED * dt) <= turn <= MISSILE_TURN_SPEED * dt
      /\ (0 <= diff -> 0 <= turn <= diff)
      /\ (diff <= 0 -> diff <= turn <= 0))
  /\ pos m' = pos m /\ isDead m' = isDead m
  /\ missileLife m' = missileLife m
  /\ (unitCircle host ->
      norm2 (vel m') == MISSILE_SPEED * MISSILE_SPEED).
Proof.
  intros D current diff m'. split; [|split; [|split; [|split]]];
    try reflexivity.
  - exists (Num.min (Math_abs diff) (MISSILE_TURN_SPEED * dt)
            * Math_sign diff).
    split; [reflexivity|].
    assert (0 <= MISSILE_TURN_SPEED * dt) as T
        by (unfold MISSILE_TURN_SPEED; lra).
    set (t := MISSILE_TURN_SPEED * dt) in *.
    destruct (min_cases (Math_abs diff) t) as [[E L]|[E L]];
      rewrite E; clear E;
      unfold Math_sign, Math_abs in *;
      destruct (Num.gtb diff 0) eqn:G, (Num.ltb diff 0) eqn:N;
      try apply NumFacts.gtb_gt in G; try apply NumFacts.gtb_le in G;
      try apply NumFacts.ltb_lt in N; try apply NumFacts.ltb_ge in N;
      repeat split; intros; try lra; try nra.
  - intro U. unfold m', homing. cbv zeta. unfold norm2. cbn [px py].
    match goal with |- context [Math_cos host ?a] =>
      specialize (U a); set (c := Math_cos host a) in *;
      set (d := Math_sin host a) in * end.
    cbn. fold c d.
    transitivity ((c * c + d * d) * (MISSILE_SPEED * MISSILE_SPEED)); [ring|].
    rewrite U. ring.
Qed.

Lemma ufoDrift_course host edt ufo w :
  let r := ufoDrift host edt ufo w in
  px (vel (fst r)) = px (vel ufo)
  /\ px (pos (fst r)) = px (pos ufo) + px (vel ufo) * edt
  /\ canvasWidth (snd r) = canvasWidth w
  /\ lastUfoSpawnTimeRef (snd r) = lastUfoSpawnTimeRef w
  /\ (unitDraws host ->
      py (vel (fst r)) = py (vel ufo) \/ -50 <= py (vel (fst r)) <= 50).
Proof.
  cbv zeta. unfold ufoDrift. cbv zeta.
  destruct (Num.leb _ _); cbn; repeat (split; [reflexivity|]); intro U.
  - right. apply randomRange_bounds; [apply U | lra].
  - left. reflexivity.
Qed.

Lemma ufoShoot_course host edt ufo w :
  let r := ufoShoot host edt ufo w in
  vel (fst r) = vel ufo /\ pos (fst r) = pos ufo
  /\ lastUfoSpawnTimeRef (snd r) = lastUfoSpawnTimeRef w
  /\ ufoRef (snd r) = ufoRef w.
Proof.
  cbv zeta. unfold ufoShoot. cbv zeta.
  destruct (shipRef w) as [ship|]; [|repeat split].
  destruct (_ && _); repeat split.
Qed.

(** X15.  A hostile unit crosses the field at the horizontal speed it
    entered with.  UFO Logic removes it, and restarts the spawn clock,
    exactly when it is more than 50 past the edge it flies towards;
    otherwise it stays, advanced by one slowed step, and its vertical
    speed is either unchanged or re-rolled within 50. *)
Theorem X15_ufoLogic_crossing host inp edt w ufo :
  ufoRef w = Some ufo ->
  let x' := px (pos ufo) + px (vel ufo) * edt in
  let w' := ufoLogic host inp edt w in
  if (Num.gtb (px (vel ufo)) 0 && Num.gtb x' (canvasWidth w + 50))
     || (Num.ltb (px (vel ufo)) 0 && Num.ltb x' (-50))
  then ufoRef w' = None /\ lastUfoSpawnTimeRef w' = now inp
  else exists u',
         ufoRef w' = Some u'
         /\ px (vel u') = px (vel ufo) /\ px (pos u') = x'
         /\ lastUfoSpawnTimeRef w' = lastUfoSpawnTimeRef w
         /\ (unitDraws host ->
             py (vel u') = py (vel ufo) \/ -50 <= py (vel u') <= 50).
Proof.
  intros E x' w'. unfold w', ufoLogic. rewrite E.
  pose proof (ufoDrift_course host edt ufo w) as D. cbv zeta in D.
  destruct (ufoDrift host edt ufo w) as [u1 w1]. cbn [fst snd] in D.
  destruct D as (Vx & Px & Cw & Lt & Vy).
  unfold ufoGone. rewrite Vx, Px, Cw. fold x'.
  destruct ((Num.gtb (px (vel ufo)) 0 && Num.gtb x' (canvasWidth w + 50))
            || (Num.ltb (px (vel ufo)) 0 && Num.ltb x' (-50))).
  - pose proof (ufoShoot_course host edt u1
                  (with_lastUfoSpawnTimeRef (now inp) w1)) as S.
    cbv zeta in S. destruct (ufoShoot host edt u1 _) as [u2 w2].
    cbn [fst snd] in S. destruct S as (_ & _ & L2 & _).
    split; [reflexivity|]. cbn. rewrite L2. reflexivity.
  - pose proof (ufoShoot_course host edt u1 w1) as S.
    cbv zeta in S. destruct (ufoShoot host edt u1 w1) as [u2 w2].
    cbn [fst snd] in S. destruct S as (V2 & P2 & L2 & _).
    exists u2. split; [reflexivity|].
    rewrite V2, P2. split; [exact Vx|]. split; [exact Px|].
    split; [cbn; rewrite L2; exact Lt | exact Vy].
Qed.

Lemma ufoDrift_rest host edt ufo w :
  let r := ufoDrift host edt ufo w in
  shootCooldown (fst r) = shootCooldown ufo
  /\ pos (fst r) = {| px := px (pos ufo) + px (vel ufo) * edt;
                      py := py (pos ufo) + py (vel ufo) * edt |}
  /\ shipRef (snd r) = shipRef w /\ bulletsRef (snd r) = bulletsRef w.
Proof.
  cbv zeta. unfold ufoDrift. cbv zeta.
  destruct (Num.leb _ _); cbn; repeat split.
Qed.

(** X16.  A hostile unit that leaves the field in the frame in which
    its fire countdown runs out still fires: the unit is gone from
    [ufoRef], and one hostile bullet has been added where it was. *)
Theorem X16_ufoLogic_parting_shot host inp edt w ufo ship :
  ufoRef w = Some ufo -> shipRef w = Some ship -> isDead ship = false ->
  let x' := px (pos ufo) + px (vel ufo) * edt in
  (Num.gtb (px (vel ufo)) 0 && Num.gtb x' (canvasWidth w + 50))
  || (Num.ltb (px (vel ufo)) 0 && Num.ltb x' (-50)) = true ->
  shootCooldown ufo - edt <= 0 ->
  let w' := ufoLogic host inp edt w in
  ufoRef w' = None
  /\ exists b, bulletsRef w' = bulletsRef w ++ [b]
               /\ owner b = OwnerUfo /\ isDead b = false
               /\ pos b = {| px := x';
                             py := py (pos ufo) + py (vel ufo) * edt |}.
Proof.
  intros E S A x' G C w'. unfold w', ufoLogic. rewrite E.
  pose proof (ufoDrift_course host edt ufo w) as D. cbv zeta in D.
  pose proof (ufoDrift_rest host edt ufo w) as R. cbv zeta in R.
  destruct (ufoDrift host edt ufo w) as [u1 w1]. cbn [fst snd] in D, R.
  destruct D as (Vx & Px & Cw & _). destruct R as (Sc & Pu & Sh & Bu).
  unfold ufoGone. rewrite Vx, Px, Cw. fold x'. rewrite G.
  unfold ufoShoot. cbv zeta.
  change (shipRef (with_lastUfoSpawnTimeRef (now inp) w1)) with (shipRef w1).
  rewrite Sh, S, A.
  change (shootCooldown (with_shootCooldown (shootCooldown u1 - edt) u1))
    with (shootCooldown u1 - edt).
  rewrite Sc. apply NumFacts.leb_le in C. rewrite C. cbn [andb negb].
  split; [reflexivity|]. eexists. split; [|split; [|split]].
  - cbn. rewrite Bu. reflexivity.
  - reflexivity.
  - reflexivity.
  - cbn. change (pos (with_shootCooldown (shootCooldown ufo - edt) u1))
      with (pos u1). rewrite Pu. reflexivity.
Qed.

(* ================================================================== *)
(** ** Collision resolution *)

Lemma applyPowerUp_body t ship :
  pos (applyPowerUp t ship) = pos ship
  /\ rad (applyPowerUp t ship) = rad ship.
Proof. destruct t; split; reflexivity. Qed.

Section PickUps.

Variable hit : PowerUp -> bool.

Lemma pickUps_at ps : forall ship w,
  (forall s p, pos s = pos ship -> rad s = rad ship -> reaches s p = hit p) ->
  let r := pickUps ps ship w in
  let ship' := snd (fst r) in
  fst (fst r) = map (fun p => if hit p then kill p else p) ps
  /\ missileAmmo ship'
     = (missileAmmo ship
        + Z.of_nat (List.length
                      (filter (fun p => hit p && isType MISSILE p) ps)))%Z
  /\ powerupMultiShotTimer ship'
     = (if took hit MULTI_SHOT ps then POWERUP_DURATION
        else powerupMultiShotTimer ship)
  /\ powerupShieldTimer ship'
     = (if took hit SHIELD ps then POWERUP_DURATION
        else powerupShieldTimer ship)
  /\ powerupTimeSlowTimer ship'
     = (if took hit TIME_SLOW ps then POWERUP_DURATION
        else powerupTimeSlowTimer ship).
Proof.
  induction ps as [|p ps IH]; intros ship w H; cbn [pickUps].
  - cbn. rewrite Z.add_0_r. repeat split.
  - fold (reaches ship p). rewrite (H ship p eq_refl eq_refl).
    unfold took in *. cbn [map filter existsb].
    destruct (hit p) eqn:R; cbn [andb orb].
    + specialize (IH (applyPowerUp (ptype p) ship)
                     (setAiMessage ("ACQUIRED: " ++ powerUpLabel (ptype p)) w)).
      destruct (pickUps ps _ _) as [[rest' ship'] w'].
      cbv zeta in IH. cbn [fst snd] in *.
      destruct IH as (E & A & M & S & T).
      { intros s q Ps Rs. apply H.
        - rewrite Ps. apply applyPowerUp_body.
        - rewrite Rs. apply applyPowerUp_body. }
      rewrite E, A, M, S, T. clear E A M S T H.
      unfold isType. destruct (ptype p); cbn [andb orb applyPowerUp];
        (split; [reflexivity|]); (split; [cbn; try lia|]);
        repeat split;
        try (destruct (existsb _ ps); reflexivity).
      all: cbn [List.length]; lia.
    + specialize (IH ship w H).
      destruct (pickUps ps ship w) as [[rest' ship'] w'].
      cbv zeta in IH. cbn [fst snd] in *.
      destruct IH as (E & A & M & S & T).
      rewrite E. repeat split; assumption.
Qed.

End PickUps.

(** X17.  The loop of Ship Picking up PowerUps marks dead every power-up
    the craft reaches, and those alone, in one pass; the craft gets one
    missile for each missile pick-up, and each of its three countdowns is
    restarted at [POWERUP_DURATION] when a pick-up of its type was
    reached and is left alone otherwise. *)
Theorem X17_pickUps_spec ps ship w :
  let r := pickUps ps ship w in
  let ship' := snd (fst r) in
  fst (fst r) = map (fun p => if reaches ship p then kill p else p) ps
  /\ missileAmmo ship'
     = (missileAmmo ship
        + Z.of_nat (List.length
                      (filter (fun p => reaches ship p && isType MISSILE p)
                              ps)))%Z
  /\ powerupMultiShotTimer ship'
     = restarted MULTI_SHOT ship ps (powerupMultiShotTimer ship)
  /\ powerupShieldTimer ship'
     = restarted SHIELD ship ps (powerupShieldTimer ship)
  /\ powerupTimeSlowTimer ship'
     = restarted TIME_SLOW ship ps (powerupTimeSlowTimer ship).
Proof.
  unfold restarted. apply (pickUps_at (reaches ship)).
  intros s p Ps Rs. unfold reaches. rewrite Ps, Rs. reflexivity.
Qed.

(** X18.  A missile that reaches no hostile unit destroys the first live
    obstacle it touches, whatever its size: the obstacle is marked dead
    where it stands in the list, nothing is split off and no power-up is
    dropped, and the score grows by 50. *)
Theorem X18_missileStep_wreck host inp m w pre a post :
  isDead m = false ->
  (forall u, ufoRef w = Some u -> collide m u = false) ->
  asteroidsRef w = pre ++ a :: post ->
  Forall (fun x => negb (isDead x) && collide m x = false) pre ->
  isDead a = false -> collide m a = true ->
  let r := missileStep host inp m w in
  isDead (fst r) = true
  /\ asteroidsRef (snd r) = pre ++ kill a :: post
  /\ score (react (snd r)) = (score (react w) + 50)%Z
  /\ powerUpsRef (snd r) = powerUpsRef w.
Proof.
  intros D U E F A C r.
  assert (firstHit (fun a => negb (isDead a) && collide m a) (asteroidsRef w)
          = Some (pre, a, post)) as H.
  { rewrite E. apply firstHit_intro; [rewrite A, C; reflexivity | exact F]. }
  assert (r = missileVsAsteroids host m w) as ->.
  { unfold r, missileStep. rewrite D.
    destruct (ufoRef w) as [u|]; [rewrite (U u eq_refl)|]; reflexivity. }
  destruct (missileVsAsteroids_hit host m w pre a post H) as (ps & k & ->).
  cbn [fst snd]. repeat split.
Qed.

Lemma missileStep_rocks host inp m w :
  List.length (asteroidsRef (snd (missileStep host inp m w)))
  = List.length (asteroidsRef w).
Proof.
  assert (List.length (asteroidsRef (snd (missileVsAsteroids host m w)))
          = List.length (asteroidsRef w)) as V.
  { destruct (firstHit (fun a => negb (isDead a) && collide m a)
                       (asteroidsRef w)) as [[[pre a] post]|] eqn:H.
    - destruct (missileVsAsteroids_hit host m w pre a post H)
        as (ps & k & ->).
      cbn [snd]. destruct (firstHit_split _ _ _ _ _ H) as (E & _).
      rewrite E. cbn. rewrite !length_app. reflexivity.
    - unfold missileVsAsteroids. rewrite H. reflexivity. }
  unfold missileStep. destruct (isDead m); [reflexivity|].
  destruct (ufoRef w) as [u|]; [|exact V].
  destruct (collide m u); [|exact V]. cbn [snd].
  destruct (missileVsUfo_shape host inp u w) as (pus & ps & k & ->).
  reflexivity.
Qed.

Lemma missilesLoop_rocks host inp ms : forall w,
  List.length (asteroidsRef (snd (missilesLoop host inp ms w)))
  = List.length (asteroidsRef w).
Proof.
  induction ms as [|m ms IH]; intro w; cbn [missilesLoop]; [reflexivity|].
  pose proof (missileStep_rocks host inp m w) as S.
  destruct (missileStep host inp m w) as [m' w1]. cbn [snd] in S.
  specialize (IH w1).
  destruct (missilesLoop host inp ms w1) as [rest' w2]. cbn [snd] in *.
  congruence.
Qed.

Lemma loseLife_refs render w :
  asteroidsRef (loseLife render w) = asteroidsRef w
  /\ shipRef (loseLife render w) = shipRef w
  /\ lives (react (loseLife render w)) = (lives (react w) - 1)%Z
  /\ score (react (loseLife render w)) = score (react w)
  /\ level (react (loseLife render w)) = level (react w).
Proof.
  unfold loseLife, handleGameOver. destruct (_ <=? _)%Z; cbn; repeat split.
Qed.

Lemma createExplosion_refs host p c n w :
  asteroidsRef (createExplosion host p c n w) = asteroidsRef w
  /\ shipRef (createExplosion host p c n w) = shipRef w
  /\ react (createExplosion host p c n w) = react w
  /\ ufoRef (createExplosion host p c n w) = ufoRef w.
Proof.
  destruct (createExplosion_sparks host p c n w) as (ps & k & ->).
  repeat split.
Qed.

Lemma onShip_refs f w :
  asteroidsRef (onShip f w) = asteroidsRef w
  /\ react (onShip f w) = react w.
Proof. unfold onShip. destruct (shipRef w); split; reflexivity. Qed.

Lemma saucerOff_refs t x :
  asteroidsRef (with_lastUfoSpawnTimeRef t (with_ufoRef None x))
  = asteroidsRef x
  /\ shipRef (with_lastUfoSpawnTimeRef t (with_ufoRef None x)) = shipRef x
  /\ react (with_lastUfoSpawnTimeRef t (with_ufoRef None x)) = react x.
Proof. repeat split. Qed.

Lemma shipVsBodies_rocks host render inp w :
  asteroidsRef (shipVsBodies host render inp w) = asteroidsRef w.
Proof.
  unfold shipVsBodies. cbv zeta.
  destruct (shipRef w) as [ship|] eqn:S; [|reflexivity].
  destruct (_ && _); [|reflexivity].
  destruct (existsb _ _).
  - rewrite (proj1 (loseLife_refs _ _)).
    rewrite (proj1 (createExplosion_refs _ _ _ _ _)).
    apply onShip_refs.
  - destruct (ufoRef w) as [ufo|]; [|reflexivity].
    destruct (checkDeath ship ufo); [|reflexivity].
    rewrite (proj1 (loseLife_refs _ _)).
    rewrite (proj1 (saucerOff_refs _ _)).
    rewrite !(proj1 (createExplosion_refs _ _ _ _ _)).
    apply onShip_refs.
Qed.

(** X19.  Missiles Collision and Ship vs Bodies neither remove nor add
    an obstacle; so when obstacles are left after the bullets' pass, be
    they all destroyed by missiles, the Level Clear check of the frame
    does nothing. *)
Theorem X19_missiles_never_clear host render inp w :
  let w1 := missilesCollision host inp w in
  let w2 := shipVsBodies host render inp w1 in
  List.length (asteroidsRef w2) = List.length (asteroidsRef w)
  /\ (asteroidsRef w <> [] -> levelClear render w2 = w2).
Proof.
  cbv zeta.
  assert (List.length (asteroidsRef
            (shipVsBodies host render inp (missilesCollision host inp w)))
          = List.length (asteroidsRef w)) as L.
  { rewrite shipVsBodies_rocks. unfold missilesCollision.
    pose proof (missilesLoop_rocks host inp (missilesRef w) w) as M.
    destruct (missilesLoop host inp (missilesRef w) w) as [ms w1].
    exact M. }
  split; [exact L|]. intro N. unfold levelClear.
  destruct (asteroidsRef (shipVsBodies _ _ _ _)); [|reflexivity].
  destruct (asteroidsRef w); [contradiction | discriminate L].
Qed.

(** X20.  Ship vs Bodies does not read the dead flag of an obstacle: a
    craft that is alive, neither invulnerable nor shielded, dies on any
    obstacle of the list it overlaps, one already destroyed included, and
    loses a life. *)
Theorem X20_shipVsBodies_wreck host render inp w ship a :
  shipRef w = Some ship -> isDead ship = false ->
  invulnerable ship <= 0 -> powerupShieldTimer ship <= 0 ->
  In a (asteroidsRef w) ->
  checkCollision (pos ship) (rad ship * 0.7) (pos a) (rad a) = true ->
  let w' := shipVsBodies host render inp w in
  shipAlive w' = false
  /\ lives (react w') = (lives (react w) - 1)%Z.
Proof.
  intros S D I Sh A C w'. unfold w', shipVsBodies. cbv zeta. rewrite S, D.
  apply NumFacts.leb_le in I. rewrite I. cbn [negb andb].
  assert (existsb (checkDeath ship) (asteroidsRef w) = true) as ->.
  { apply existsb_exists. exists a. split; [exact A|].
    unfold checkDeath. apply NumFacts.gtb_le in Sh. rewrite Sh. exact C. }
  match goal with |- context [loseLife _ ?x] =>
    destruct (loseLife_refs render x) as (_ & Es & El & _) end.
  unfold shipAlive. rewrite Es, El.
  destruct (createExplosion_refs host (pos ship) (color (entity ship)) 30
              (onShip kill w)) as (_ & Ec & Er & _).
  rewrite Ec, Er, (proj2 (onShip_refs _ _)), (onShip_kill w ship S).
  split; reflexivity.
Qed.

(* ================================================================== *)
(** ** The counters *)

Lemma gains_refl w : gains w w.
Proof. unfold gains. lia. Qed.

Lemma gains_trans w1 w2 w3 : gains w1 w2 -> gains w2 w3 -> gains w1 w3.
Proof. unfold gains. lia. Qed.

Lemma gains_react w w' : react w' = react w -> gains w w'.
Proof. unfold gains. intros ->. lia. Qed.

Section Score.

Variable host : Host.
Variable render : ReactState.

Lemma bulletVsAsteroids_gains b w :
  gains w (snd (bulletVsAsteroids host b w)).
Proof.
  destruct (firstHit (fun a => negb (isDead a) && collide b a)
                     (asteroidsRef w)) as [[[pre a] post]|] eqn:F.
  - destruct (bulletVsAsteroids_hit host b w _ _ _ F)
      as (cs & pus & ps & k & -> & _).
    unfold gains. cbn. destruct (size a); cbn; lia.
  - rewrite (bulletVsAsteroids_miss host) by exact F. apply gains_refl.
Qed.

Lemma bulletVsUfo_gains inp b w :
  gains w (snd (bulletVsUfo host inp b w)).
Proof.
  destruct (ufoRef w) as [ufo|] eqn:U.
  - destruct (isDead b) eqn:D.
    + rewrite (bulletVsUfo_dead host) by exact D. apply gains_refl.
    + destruct (collide b ufo) eqn:C.
      * destruct (bulletVsUfo_hit host inp b ufo w U D C)
          as (pus & ps & k & ->).
        unfold gains. cbn. lia.
      * unfold bulletVsUfo. rewrite U, D, C. apply gains_refl.
  - unfold bulletVsUfo. rewrite U. apply gains_refl.
Qed.

Lemma death_gains (ship : Ship) w :
  gains w (loseLife render
             (createExplosion host (pos ship) (color (entity ship)) 30
                (onShip kill w))).
Proof.
  unfold gains.
  match goal with |- context [loseLife _ ?x] =>
    destruct (loseLife_refs render x) as (_ & _ & _ & -> & _) end.
  destruct (createExplosion_refs host (pos ship) (color (entity ship)) 30
              (onShip kill w)) as (_ & _ & -> & _).
  rewrite (proj2 (onShip_refs _ _)). lia.
Qed.

Lemma ufoBulletVsShip_gains b w :
  gains w (snd (ufoBulletVsShip host render b w)).
Proof.
  unfold ufoBulletVsShip. cbv zeta.
  destruct (shipRef w) as [ship|]; [|apply gains_refl].
  destruct (_ && _); [|apply gains_refl].
  destruct (Num.gtb _ _).
  - destruct (checkCollision _ _ _ _); apply gains_refl.
  - destruct (checkCollision _ _ _ _); [|apply gains_refl].
    unfold snd. exact (death_gains ship w).
Qed.

Lemma bulletStep_gains inp b w :
  gains w (snd (bulletStep host render inp b w)).
Proof.
  unfold bulletStep. destruct (isDead b); [apply gains_refl|].
  destruct (ownerIsShip (owner b)).
  - pose proof (bulletVsAsteroids_gains b w) as H1.
    destruct (bulletVsAsteroids host b w) as [b1 w1]. cbn [snd] in H1.
    pose proof (bulletVsUfo_gains inp b1 w1) as H2.
    destruct (bulletVsUfo host inp b1 w1) as [b2 w2]. cbn [snd] in H2.
    eapply gains_trans; [exact H1|].
    eapply gains_trans; [exact H2|]. apply ufoBulletVsShip_gains.
  - apply ufoBulletVsShip_gains.
Qed.

Lemma bulletsLoop_gains inp bs : forall w,
  gains w (snd (bulletsLoop host render inp bs w)).
Proof.
  induction bs as [|b bs IH]; intro w; cbn [bulletsLoop].
  - apply gains_refl.
  - pose proof (bulletStep_gains inp b w) as H1.
    destruct (bulletStep host render inp b w) as [b' w1]. cbn [snd] in H1.
    pose proof (IH w1) as H2.
    destruct (bulletsLoop host render inp bs w1) as [rest' w2].
    cbn [snd] in *. eapply gains_trans; eassumption.
Qed.

Lemma missileStep_gains inp m w :
  gains w (snd (missileStep host inp m w)).
Proof.
  assert (gains w (snd (missileVsAsteroids host m w))) as V.
  { destruct (firstHit (fun a => negb (isDead a) && collide m a)
                       (asteroidsRef w)) as [[[pre a] post]|] eqn:H.
    - destruct (missileVsAsteroids_hit host m w pre a post H)
        as (ps & k & ->).
      unfold gains. cbn. lia.
    - unfold missileVsAsteroids. rewrite H. apply gains_refl. }
  unfold missileStep. destruct (isDead m); [apply gains_refl|].
  destruct (ufoRef w) as [u|]; [|exact V].
  destruct (collide m u); [|exact V]. cbn [snd].
  destruct (missileVsUfo_shape host inp u w) as (pus & ps & k & ->).
  unfold gains. cbn. lia.
Qed.

Lemma missilesLoop_gains inp ms : forall w,
  gains w (snd (missilesLoop host inp ms w)).
Proof.
  induction ms as [|m ms IH]; intro w; cbn [missilesLoop].
  - apply gains_refl.
  - pose proof (missileStep_gains inp m w) as S.
    destruct (missileStep host inp m w) as [m' w1]. cbn [snd] in S.
    specialize (IH w1).
    destruct (missilesLoop host inp ms w1) as [rest' w2]. cbn [snd] in *.
    eapply gains_trans; eassumption.
Qed.

Lemma pickUpPowerUps_gains w : gains w (pickUpPowerUps w).
Proof.
  unfold pickUpPowerUps. destruct (shipRef w) as [ship|]; [|apply gains_refl].
  destruct (isDead ship) eqn:D; cbn [negb]; [apply gains_refl|].
  pose proof (pickUps_shape (powerUpsRef w) ship w D) as H.
  destruct (pickUps (powerUpsRef w) ship w) as [[ps ship'] w'].
  cbn [fst snd] in H. destruct H as (_ & _ & _ & msg & ->).
  unfold gains. cbn. lia.
Qed.

Lemma shipVsBodies_gains inp w : gains w (shipVsBodies host render inp w).
Proof.
  unfold shipVsBodies. cbv zeta.
  destruct (shipRef w) as [ship|]; [|apply gains_refl].
  destruct (_ && _); [|apply gains_refl].
  destruct (existsb _ _); [exact (death_gains ship w)|].
  destruct (ufoRef w) as [ufo|]; [|apply gains_refl].
  destruct (checkDeath ship ufo); [|apply gains_refl].
  unfold gains.
  rewrite (proj1 (proj2 (proj2 (proj2 (loseLife_refs _ _))))).
  rewrite (proj2 (proj2 (saucerOff_refs _ _))).
  rewrite !(proj1 (proj2 (proj2 (createExplosion_refs _ _ _ _ _)))).
  rewrite (proj2 (onShip_refs _ _)). lia.
Qed.

Lemma collisions_gains inp w : gains w (collisions host render inp w).
Proof.
  unfold collisions.
  eapply gains_trans; [apply pickUpPowerUps_gains|].
  eapply gains_trans; [|apply shipVsBodies_gains].
  set (w1 := pickUpPowerUps w).
  apply (gains_trans _ (bulletsCollision host render inp w1)).
  - unfold bulletsCollision.
    pose proof (bulletsLoop_gains inp (bulletsRef w1) w1) as H.
    destruct (bulletsLoop host render inp (bulletsRef w1) w1) as [bs w2].
    exact H.
  - set (w3 := bulletsCollision host render inp w1). unfold missilesCollision.
    pose proof (missilesLoop_gains inp (missilesRef w3) w3) as H.
    destruct (missilesLoop host inp (missilesRef w3) w3) as [ms w4].
    exact H.
Qed.

Lemma update_react g inp dt w : react (update host g inp dt w) = react w.
Proof.
  destruct (update_shape host g inp dt w)
    as (sh' & u' & bs & ms & ps & l & n & k & -> & _).
  reflexivity.
Qed.

Lemma resize_react inp w : react (resize inp w) = react w.
Proof. unfold resize. destruct (_ || _); reflexivity. Qed.

Lemma levelClear_tally w :
  let w' := levelClear render w in
  score (react w') = score (react w)
  /\ (level (react w') = level (react w)
      \/ level (react w') = (level render + 1)%Z).
Proof.
  cbv zeta. unfold levelClear.
  destruct (asteroidsRef w); [|auto].
  destruct (ufoRef w); [auto|].
  destruct (isPlaying _); [|auto].
  split; [reflexivity | right; reflexivity].
Qed.

Lemma frame_tally inp w :
  let w' := animate host render inp w in
  (score (react w) <= score (react w'))%Z
  /\ (lives (react w') = lives (react w)
      \/ lives (react w') = (lives (react w) - 1)%Z)
  /\ (level (react w') = level (react w)
      \/ level (react w') = (level render + 1)%Z).
Proof.
  cbv zeta. split; [|split].
  - rewrite animate_levelClear.
    assert (gains w (beforeLevelClear host render inp w)) as G.
    { unfold beforeLevelClear. cbv zeta.
      set (w0 := resize inp _).
      assert (react w0 = react w) as R0
          by (unfold w0; rewrite resize_react; reflexivity).
      destruct (active _); [|apply gains_react; exact R0].
      set (w1 := update host _ inp _ w0).
      assert (react w1 = react w) as R1
          by (unfold w1; rewrite update_react; exact R0).
      destruct (isPlaying _); [|apply gains_react; exact R1].
      eapply gains_trans; [apply gains_react; exact R1|].
      apply collisions_gains. }
    destruct (active _); [|exact G].
    unfold gains in G. rewrite (proj1 (levelClear_tally _)). exact G.
  - destruct (frame_deaths host render inp w) as [(L & _)|(_ & _ & _ & L & _)];
      auto.
  - rewrite animate_levelClear.
    destruct (frame_life host render inp w) as (L & _).
    destruct (active _); [|left; exact L].
    destruct (levelClear_tally (beforeLevelClear host render inp w))
      as (_ & [E|E]); rewrite E; auto.
Qed.

(** X21.  In a frame the score never goes down, the life count stays or
    drops by one, and the level stays or becomes the level of the frame's
    closure plus one. *)
Theorem X21_frame_tally inp w :
  let w' := animate host render inp w in
  (score (react w) <= score (react w'))%Z
  /\ (lives (react w') = lives (react w)
      \/ lives (react w') = (lives (react w) - 1)%Z)
  /\ (level (react w') = level (react w)
      \/ level (react w') = (level render + 1)%Z).
Proof. exact (frame_tally inp w). Qed.

End Score.

Lemma commit_bounded s w :
  inBounds (render s) -> inBounds (react w) -> bounded (commit s w).
Proof.
  intros R W. unfold bounded, commit. cbn [world render].
  split; [exact W|]. destruct (GameState_eqb _ _); assumption.
Qed.

Lemma startGame_bounds tnow w : inBounds (react (startGame tnow w)).
Proof. unfold inBounds. cbn. lia. Qed.

Lemma handleKeyDown_bounds host g code tnow w :
  inBounds (react w) -> inBounds (react (handleKeyDown host g code tnow w)).
Proof.
  intro B. unfold handleKeyDown.
  set (w1 := with_keysRef _ w).
  assert (inBounds (react w1)) as B1 by exact B.
  destruct g; try exact B.
  - destruct (String.eqb code "Space"); cbn [andb isPlaying];
      rewrite ?andb_false_r; [apply startGame_bounds | exact B1].
  - rewrite andb_false_r, andb_true_r.
    destruct (isMissileKey code); [|exact B1].
    destruct (shipRef w1) as [ship|]; [|exact B1].
    destruct (_ && _); exact B1.
  - rewrite !andb_false_r. exact B1.
  - rewrite !andb_false_r. exact B1.
  - rewrite !andb_false_r. exact B1.
Qed.

Lemma runTimer_bounds host fuel tnow t w w' :
  runTimer host fuel tnow t w = Some w' ->
  inBounds (react w) -> inBounds (react w').
Proof.
  intros H B. destruct t as [|nl|sc hs|cl]; cbn [runTimer] in H.
  - destruct (spawnAsteroids host fuel 3 0 _ _ _) as [w1|] eqn:Sp;
      [|discriminate H].
    injection H as <-.
    destruct (spawnAsteroids_frame _ _ _ _ _ _ _ _ Sp) as (l & k & ->).
    exact B.
  - destruct (spawnAsteroids host fuel 3 nl _ _ _) as [w1|] eqn:Sp;
      [|discriminate H].
    injection H as <-.
    destruct (spawnAsteroids_frame _ _ _ _ _ _ _ _ Sp) as (l & k & ->).
    unfold inBounds. cbn. rewrite (proj2 (onShip_refs _ _)). exact B.
  - injection H as <-. exact B.
  - injection H as <-. destruct (0 <? cl)%Z; exact B.
Qed.

Lemma frame_bounds host render inp w :
  inBounds render -> inBounds (react w) ->
  inBounds (react (animate host render inp w)).
Proof.
  intros (_ & _ & Lr) (S & L & V).
  destruct (frame_tally host render inp w) as (S' & L' & V').
  unfold inBounds. split; [lia|]. split; [destruct L'; lia|].
  destruct V' as [E|E]; rewrite E; lia.
Qed.

Lemma step_bounded host e s s' :
  bounded s -> step host e s = Some s' -> bounded s'.
Proof.
  intros [W R] H.
  destruct e as [inp|code tnow|code|i fuel tnow|tnow| | |str|tnow];
    cbn [step] in H.
  - injection H as <-. apply commit_bounded; [exact R|].
    apply frame_bounds; assumption.
  - injection H as <-. apply commit_bounded; [exact R|].
    apply handleKeyDown_bounds. exact W.
  - injection H as <-. apply commit_bounded; assumption.
  - destruct (nth_error (timers (world s)) i) as [t|]; [|discriminate H].
    destruct (runTimer host fuel tnow t _) as [w'|] eqn:T; [|discriminate H].
    injection H as <-. apply commit_bounded; [exact R|].
    exact (runTimer_bounds host fuel tnow t _ w' T W).
  - destruct (phase s); try discriminate H; injection H as <-;
      apply commit_bounded; try exact R; apply startGame_bounds.
  - destruct (phase s); try discriminate H. injection H as <-.
    apply commit_bounded; assumption.
  - destruct (phase s); try discriminate H. injection H as <-.
    apply commit_bounded; assumption.
  - destruct (phase s); try discriminate H. injection H as <-.
    apply commit_bounded; assumption.
  - destruct (phase s); try discriminate H.
    destruct (initials _); [discriminate H|]. injection H as <-.
    apply commit_bounded; assumption.
Qed.

(** X22.  Whatever the page has been through, the score is not negative,
    the life count is between 0 and 3 and the level is at least 1. *)
Theorem X22_reachable_bounds host s :
  reachable host s ->
  let r := react (world s) in
  (0 <= score r)%Z /\ (0 <= lives r <= 3)%Z /\ (1 <= level r)%Z.
Proof.
  intro H. cbv zeta.
  assert (bounded s) as [(S & L & V) _].
  { induction H as [hs width height | s e s' _ IH St].
    - split; unfold inBounds; cbn; lia.
    - exact (step_bounded host e s s' IH St). }
  pose proof (inv_lives _ (reachable_Inv host s H)). lia.
Qed.

Lemma beforeLevelClear_guard host render inp w ship s :
  shipRef w = Some ship -> 0.1 < invulnerable ship ->
  shipRef (beforeLevelClear host render inp w) = Some s ->
  0 < invulnerable s.
Proof.
  intros S I. unfold beforeLevelClear.
  set (dt := frameDt inp w).
  assert (dt <= 0.1) as D by apply frameDt_bounds.
  set (w0 := resize inp (with_previousTimeRef (time inp) w)).
  destruct (resize_refs inp (with_previousTimeRef (time inp) w))
    as (Hs & _).
  fold w0 in Hs. cbn in Hs. rewrite S in Hs.
  destruct (active (gameState render));
    [|rewrite Hs; intro E; injection E as <-; lra].
  destruct (update_shape host (gameState render) inp dt w0)
    as (sh' & u' & bs & ms & ps & l & n & k & E & St & _).
  set (wu := update host (gameState render) inp dt w0) in *.
  assert (exists s1, shipRef wu = Some s1 /\ 0 < invulnerable s1)
    as (s1 & S1 & I1).
  { rewrite E. cbn [shipRef]. unfold shipStepped in St. rewrite Hs in St.
    destruct St as (ship' & -> & _ & _ & C). exists ship'.
    split; [reflexivity|].
    destruct (isPlaying _ && _).
    - destruct C as (_ & -> & _). unfold countDown.
      destruct (Num.gtb (invulnerable ship) 0); lra.
    - rewrite C. lra. }
  destruct (isPlaying (gameState render));
    [|rewrite S1; intro X; injection X as <-; exact I1].
  destruct (collisions_settles host render inp wu) as [_ _ _ _ _ H _].
  unfold hullOpt in H. rewrite S1 in H. intro X. rewrite X in H.
  destruct H as (_ & _ & -> & _). exact I1.
Qed.

(** X23.  A craft with more than a tenth of a second of invulnerability
    left cannot die in the next frame: the life count, the craft's being
    alive and the pending respawn and game-over callbacks are as
    before. *)
Theorem X23_frame_invulnerable host render inp w ship :
  shipRef w = Some ship -> 0.1 < invulnerable ship ->
  let w' := animate host render inp w in
  lives (react w') = lives (react w) /\ shipAlive w' = shipAlive w
  /\ pending isRespawn w' = pending isRespawn w
  /\ pending isGameOver w' = pending isGameOver w.
Proof.
  intros S I. cbv zeta.
  destruct (frame_deaths host render inp w)
    as [(L & A & G & R)|(_ & A1 & A2 & _)]; [auto|].
  exfalso.
  assert (shipAlive (animate host render inp w)
          = shipAlive (beforeLevelClear host render inp w)) as B.
  { rewrite animate_levelClear. destruct (active _); [|reflexivity].
    apply levelClear_life. }
  destruct (frame_life host render inp w) as (_ & [N|[O _]]).
  - destruct N as (_ & _ & _ & A). congruence.
  - destruct O as (_ & _ & _ & X & _). unfold exposed in X.
    destruct (shipRef (beforeLevelClear host render inp w)) as [s|] eqn:E;
      [|exact X].
    pose proof (beforeLevelClear_guard host render inp w ship s S I E).
    lra.
Qed.

(* ================================================================== *)
(** ** Handlers and deferred callbacks *)

(** X24.  In the Playing phase a missile key pressed with the craft alive
    launches one missile when there is ammunition, and takes one from it;
    the missile is alive for 3 seconds, heads where the craft heads, and
    on the unit circle starts one craft radius away at [MISSILE_SPEED].
    Without ammunition the key launches nothing. *)
Theorem X24_missile_launch host code tnow w ship :
  isMissileKey code = true -> shipRef w = Some ship -> isDead ship = false ->
  let w' := handleKeyDown host PLAYING code tnow w in
  if (0 <? missileAmmo ship)%Z
  then exists m,
         shipRef w'
         = Some (with_missileAmmo (missileAmmo ship - 1) ship)
         /\ missilesRef w' = missilesRef w ++ [m]
         /\ isDead m = false /\ missileLife m == 3
         /\ angle (entity m) = angle (entity ship)
         /\ (unitCircle host ->
             norm2 (vel m) == MISSILE_SPEED * MISSILE_SPEED
             /\ norm2 {| px := px (pos m) - px (pos ship);
                         py := py (pos m) - py (pos ship) |}
                == rad ship * rad ship)
  else shipRef w' = shipRef w /\ missilesRef w' = missilesRef w.
Proof.
  intros K S D w'. unfold w', handleKeyDown.
  set (w1 := with_keysRef _ w).
  rewrite andb_false_r, K. cbn [andb isPlaying].
  change (shipRef w1) with (shipRef w). rewrite S, D. cbn [negb andb].
  destruct (0 <? missileAmmo ship)%Z; [|split; [exact S | reflexivity]].
  eexists. split; [reflexivity|]. split; [reflexivity|].
  split; [reflexivity|]. split; [cbn; lra|]. split; [reflexivity|].
  intro U. unfold norm2. cbn [newMissile pos vel entity missileEntity
    Missile_IsEntity position velocity px py].
  unfold rotatePoint. cbn [px py].
  specialize (U (angle (entity (with_missileAmmo (missileAmmo ship - 1) ship)))).
  set (c := Math_cos host _) in *. set (d := Math_sin host _) in *.
  change (rad (with_missileAmmo (missileAmmo ship - 1) ship)) with (rad ship).
  change (pos (with_missileAmmo (missileAmmo ship - 1) ship)) with (pos ship).
  set (x := px (pos ship)). set (y := py (pos ship)). set (r := rad ship).
  split.
  - transitivity ((c * c + d * d) * (MISSILE_SPEED * MISSILE_SPEED)); [ring|].
    rewrite U. ring.
  - transitivity ((c * c + d * d) * (r * r)); [ring|]. rewrite U. ring.
Qed.

(** X25.  When the deferred callback of [startGame] returns (on a canvas
    under 300 x 300 it does not: the position search of [spawnAsteroids]
    never ends there), [startGame] followed by it gives a game in the
    Playing phase with score 0, 3 lives, level 1, a new craft at the
    centre, exactly three large obstacles outside the square around it,
    and no hostile unit, bullet, missile, power-up or particle; the keys
    held are kept. *)
Theorem X25_new_game host fuel tnow tnow' w w' :
  runTimer host fuel tnow' TStartGame (startGame tnow w) = Some w' ->
  let width := canvasWidth w in
  let height := canvasHeight w in
  gameState (react w') = PLAYING
  /\ score (react w') = 0%Z /\ lives (react w') = 3%Z
  /\ level (react w') = 1%Z
  /\ shipRef w' = Some (freshShip width height)
  /\ List.length (asteroidsRef w') = 3%nat
  /\ Forall (largeRock width height) (asteroidsRef w')
  /\ ufoRef w' = None /\ bulletsRef w' = [] /\ missilesRef w' = []
  /\ powerUpsRef w' = [] /\ particlesRef w' = []
  /\ keysRef w' = keysRef w.
Proof.
  intro H. cbn [runTimer] in H.
  destruct (spawnAsteroids host fuel 3 0 _ _ _) as [w1|] eqn:Sp;
    [|discriminate H].
  injection H as <-.
  destruct (spawnAsteroids_placed _ _ _ _ _ _ _ _ Sp) as (l & E & L & F & _).
  destruct (spawnAsteroids_frame _ _ _ _ _ _ _ _ Sp) as (l' & k & ->).
  cbn in E. subst l'. cbn. repeat split; assumption.
Qed.

(** X26.  When the deferred callback of [startNextLevel] returns (on a
    canvas under 300 x 300 it does not: the position search of
    [spawnAsteroids] never ends there), it has entered the Playing phase
    with [3 + nextLevel] new large obstacles besides those left,
    restarted the spawn clock, and put the craft back at the centre, at
    rest, with 3 seconds of invulnerability; it does not revive a dead
    craft, and the craft keeps its ammunition and its power-up
    countdowns. *)
Theorem X26_next_level host fuel tnow n w w' :
  runTimer host fuel tnow (TNextLevel n) w = Some w' ->
  let width := canvasWidth w in
  let height := canvasHeight w in
  gameState (react w') = PLAYING
  /\ lastUfoSpawnTimeRef w' = tnow
  /\ (exists l, asteroidsRef w' = asteroidsRef w ++ l
                /\ List.length l = Z.to_nat (3 + n)
                /\ Forall (largeRock width height) l)
  /\ match shipRef w with
     | Some ship =>
         exists ship',
           shipRef w' = Some ship'
           /\ pos ship' = {| px := width / 2; py := height / 2 |}
           /\ vel ship' = {| px := 0; py := 0 |}
           /\ invulnerable ship' == 3
           /\ isDead ship' = isDead ship
           /\ missileAmmo ship' = missileAmmo ship
           /\ powerupShieldTimer ship' = powerupShieldTimer ship
           /\ powerupMultiShotTimer ship' = powerupMultiShotTimer ship
           /\ powerupTimeSlowTimer ship' = powerupTimeSlowTimer ship
     | None => shipRef w' = None
     end
  /\ lives (react w') = lives (react w)
  /\ score (react w') = score (react w)
  /\ bulletsRef w' = bulletsRef w /\ powerUpsRef w' = powerUpsRef w.
Proof.
  intro H. cbn [runTimer] in H. cbv zeta in H.
  destruct (spawnAsteroids host fuel 3 n _ _ _) as [w1|] eqn:Sp;
    [|discriminate H].
  injection H as <-.
  destruct (spawnAsteroids_placed _ _ _ _ _ _ _ _ Sp) as (l & E & L & F & _).
  destruct (spawnAsteroids_frame _ _ _ _ _ _ _ _ Sp) as (l' & k & ->).
  cbn in E. apply app_inv_head in E. subst l'.
  unfold onShip in *. destruct (shipRef w) as [ship|] eqn:S;
    cbn -[Z.add recentre].
  - split; [reflexivity|]. split; [reflexivity|].
    split; [exists l; auto|].
    split; [|repeat split].
    eexists. split; [reflexivity|]. cbn. repeat split; try lra.
  - split; [reflexivity|]. split; [reflexivity|].
    split; [exists l; auto|]. split; [exact S | repeat split].
Qed.

(* ================================================================== *)
(** ** The leaderboard *)

Lemma insertScore_split e l :
  exists pre post,
    l = pre ++ post /\ insertScore e l = pre ++ e :: post
    /\ Forall (fun h => (hsScore e <= hsScore h)%Z) pre
    /\ match post with
       | [] => True
       | h :: _ => (hsScore h < hsScore e)%Z
       end.
Proof.
  induction l as [|h l IH]; cbn [insertScore].
  - exists [], []. repeat split. constructor.
  - destruct (hsScore h <? hsScore e)%Z eqn:C.
    + apply Z.ltb_lt in C. exists [], (h :: l). repeat split; auto.
    + apply Z.ltb_ge in C. destruct IH as (pre & post & -> & -> & F & P).
      exists (h :: pre), post. repeat split; auto.
Qed.

Lemma insertScore_perm e l : Permutation (e :: l) (insertScore e l).
Proof.
  destruct (insertScore_split e l) as (pre & post & -> & -> & _).
  apply Permutation_middle.
Qed.

Lemma insertScore_descending e l :
  descending l -> descending (insertScore e l).
Proof.
  unfold descending. intro S. induction S as [|h l S IH F];
    cbn [insertScore].
  - repeat constructor.
  - destruct (hsScore h <? hsScore e)%Z eqn:C.
    + apply Z.ltb_lt in C. constructor; [constructor; assumption|].
      constructor; [unfold outranks; lia|].
      rewrite Forall_forall in *. intros x I. specialize (F x I).
      unfold outranks in *. lia.
    + apply Z.ltb_ge in C. constructor; [exact IH|].
      rewrite Forall_forall in *. intros x I.
      apply (Permutation_in _ (Permutation_sym (insertScore_perm e l))) in I.
      destruct I as [<-|I]; [exact C | exact (F x I)].
Qed.

Lemma sortScores_snoc l e :
  sortScores (l ++ [e]) = insertScore e (sortScores l).
Proof. unfold sortScores. rewrite fold_left_app. reflexivity. Qed.

Lemma sortScores_rev_ind (P : list HighScore -> list HighScore -> Prop) :
  P [] [] ->
  (forall l e, P l (sortScores l) ->
               P (l ++ [e]) (insertScore e (sortScores l))) ->
  forall l, P l (sortScores l).
Proof.
  intros H0 H1 l. induction l as [|e l IH] using rev_ind; [exact H0|].
  rewrite sortScores_snoc. apply H1, IH.
Qed.

Lemma sortScores_perm l :
  descending (sortScores l) /\ Permutation l (sortScores l).
Proof.
  apply (sortScores_rev_ind
           (fun l s => descending s /\ Permutation l s)).
  - split; constructor.
  - intros l0 e [D P]. split; [apply insertScore_descending, D|].
    eapply Permutation_trans; [|apply insertScore_perm].
    eapply Permutation_trans;
      [apply Permutation_sym, Permutation_cons_append|].
    constructor. exact P.
Qed.

(** X27.  The sort of [submitScore] gives the same entries in descending
    order of score. *)
Theorem X27_sortScores_sorted l :
  descending (sortScores l) /\ Permutation l (sortScores l).
Proof. exact (sortScores_perm l). Qed.

Lemma In_firstn {A} (x : A) l : forall n, In x (firstn n l) -> In x l.
Proof.
  induction l as [|a l IH]; intros [|n] I; cbn [firstn] in I;
    try contradiction.
  destruct I as [<-|I]; [left; reflexivity | right; exact (IH n I)].
Qed.

Lemma firstn_descending n l : descending l -> descending (firstn n l).
Proof.
  unfold descending. intro S. revert n.
  induction S as [|h l S IH F]; intros [|n]; cbn [firstn];
    try constructor; [apply IH|].
  rewrite Forall_forall in *. intros x I. apply F.
  exact (In_firstn x l n I).
Qed.

Lemma findIndex_found {A} (f : A -> bool) l : forall i0 x,
  In x l -> f x = true ->
  exists j y, findIndex f l i0 = (i0 + Z.of_nat j)%Z
              /\ nth_error l j = Some y /\ f y = true.
Proof.
  induction l as [|a l IH]; intros i0 x I Fx; [destruct I|].
  cbn [findIndex]. destruct (f a) eqn:Fa.
  - exists 0%nat, a. rewrite Z.add_0_r. auto.
  - destruct I as [->|I]; [congruence|].
    destruct (IH (i0 + 1)%Z x I Fx) as (j & y & E & N & Fy).
    exists (S j), y. rewrite E. split; [lia | auto].
Qed.

Lemma last_Some_In {A} (l : list A) x :
  last (map Some l) None = Some x -> In x l.
Proof.
  induction l as [|a l IH]; [discriminate|].
  destruct l as [|b l].
  - cbn. intro E. injection E as ->. left. reflexivity.
  - intro E. right. apply IH. exact E.
Qed.

(** X28.  [submitScore] shows the leaderboard: at most ten entries, in
    descending order of score, each an entry of the old board or the one
    just entered.  When the old board has at most ten entries and the
    score passes the test of [handleGameOver], the index stored points at
    an entry of the new board with that score and date. *)
Theorem X28_submitScore_board tnow w :
  let r := react w in
  let r' := react (submitScore tnow w) in
  gameState r' = HIGH_SCORES
  /\ (List.length (highScores r') <= 10)%nat
  /\ descending (highScores r')
  /\ (forall h, In h (highScores r') ->
                In h (highScores r) \/ entered r tnow h)
  /\ ((List.length (highScores r) <= 10)%nat ->
      isHighScore (score r) (highScores r) = true ->
      exists i h, newHighScoreIndex r' = Some (Z.of_nat i)
                  /\ nth_error (highScores r') i = Some h
                  /\ entered r tnow h).
Proof.
  cbv zeta. unfold submitScore. cbv zeta.
  set (name := match substring 0 3 _ with EmptyString => _ | _ => _ end).
  set (e := mkHighScore name (score (react w)) tnow).
  set (hs := highScores (react w)).
  cbn [react with_react gameState with_gameState highScores with_highScores
       newHighScoreIndex with_newHighScoreIndex].
  rewrite sortScores_snoc.
  destruct (sortScores_perm hs) as [D P].
  split; [reflexivity|]. split; [apply firstn_le_length|].
  split; [apply firstn_descending, insertScore_descending, D|].
  split.
  - intros h I. apply In_firstn in I.
    apply (Permutation_in _ (Permutation_sym (insertScore_perm e _))) in I.
    destruct I as [<-|I].
    + right. split; reflexivity.
    + left. exact (Permutation_in _ (Permutation_sym P) I).
  - intros L H.
    destruct (insertScore_split e (sortScores hs))
      as (pre & post & Es & Ei & F & T).
    assert (List.length pre < 10)%nat as Lp.
    { pose proof (Permutation_length P) as Len. rewrite Es in Len.
      rewrite length_app in Len. unfold isHighScore in H.
      apply orb_prop in H as [H|H].
      - apply Nat.ltb_lt in H. fold hs in H. lia.
      - fold hs in H. destruct (last (map Some hs) None) as [h|] eqn:La;
          [|discriminate H].
        apply Z.ltb_lt in H. apply last_Some_In in La.
        apply (Permutation_in _ P) in La. rewrite Es in La.
        apply in_app_or in La as [La|La].
        + rewrite Forall_forall in F. specialize (F h La). cbn in F. lia.
        + destruct post; [destruct La|]. cbn [List.length] in Len. lia. }
    assert (In e (firstn 10 (insertScore e (sortScores hs)))) as I.
    { rewrite Ei. rewrite firstn_app.
      apply in_or_app. right.
      destruct (10 - List.length pre)%nat eqn:X; [lia|]. left. reflexivity. }
    destruct (findIndex_found
                (fun s => Qeq_bool (hsDate s) (hsDate e)
                          && (hsScore s =? hsScore e)%Z)
                _ 0%Z e I) as (j & y & Ej & Nj & Fy).
    { cbn. rewrite Z.eqb_refl, andb_true_r. apply Qeq_bool_iff.
      reflexivity. }
    exists j, y. rewrite Ej. split; [reflexivity|]. split; [exact Nj|].
    apply andb_prop in Fy as [Fd Fs]. apply Qeq_bool_iff in Fd.
    apply Z.eqb_eq in Fs. split; assumption.
Qed.

(* ================================================================== *)
(** ** The commentary service and the stored board *)

Import Commentary.

(** X29.  [generateGameCommentary] never gives the empty string: its
    result is the text of the reply when there is one that is not empty,
    and the fixed line of the context otherwise (no client, a reply
    without text, a failed request); outside the game-over context it
    does not depend on the score. *)
Theorem X29_commentary_never_empty ai context score :
  generateGameCommentary ai context score <> EmptyString
  /\ (forall score',
        context <> game_over ->
        generateGameCommentary ai context score'
        = generateGameCommentary ai context score)
  /\ (forall gen text,
        ai = Some gen -> gen (prompt context score) = Answer (Some text) ->
        text <> EmptyString ->
        generateGameCommentary ai context score = text)
  /\ (generateGameCommentary ai context score = getFallback context
      \/ exists gen, ai = Some gen
           /\ gen (prompt context score)
              = Answer (Some (generateGameCommentary ai context score))).
Proof.
  assert (getFallback context <> EmptyString) as F
      by (destruct context; discriminate).
  unfold generateGameCommentary. split; [|split; [|split]].
  - destruct ai as [gen|]; [|exact F].
    destruct (gen _) as [[[|c s]|]|]; cbn [orFallback];
      try exact F. discriminate.
  - intros score' N. destruct context; try contradiction; reflexivity.
  - intros gen text -> -> N. destruct text; [contradiction | reflexivity].
  - destruct ai as [gen|]; [|left; reflexivity].
    destruct (gen _) as [[[|c s]|]|] eqn:G; cbn [orFallback];
      try (left; reflexivity).
    right. exists gen. split; [reflexivity | exact G].
Qed.

(* ================================================================== *)
(** ** The further properties on the scenarios *)

Lemma steadyHost_unitCircle : unitCircle steadyHost.
Proof. intro a. reflexivity. Qed.

Lemma steadyHost_unitDraws : unitDraws steadyHost.
Proof. intro n. cbn. lra. Qed.

Lemma X1_witness : 50 <= randomRange (1 # 2) 50 150 <= 150.
Proof.
  destruct (X1_randomRange_bounds (1 # 2) 50 150) as [H _]; [lra|].
  apply H. lra.
Defined.

Lemma X3_witness :
  wrapPosition (wrapPosition {| px := 900; py := -10 |} 800 600) 800 600
  = wrapPosition {| px := 900; py := -10 |} 800 600.
Proof.
  destruct (X3_wrapPosition_fixes 800 600 {| px := 900; py := -10 |})
    as [_ H]; [lra | lra | exact H].
Defined.

Lemma X5_witness :
  norm2 (rotatePoint (Math_cos steadyHost) (Math_sin steadyHost)
                     {| px := 5; py := 0 |} 1)
  == norm2 {| px := 5; py := 0 |}.
Proof.
  exact (X5_rotatePoint_norm steadyHost {| px := 5; py := 0 |} 1
           steadyHost_unitCircle).
Defined.

Lemma X6_witness :
  Forall (fun v => (0.7 * 40) * (0.7 * 40) <= norm2 v
                   /\ norm2 v <= (1.3 * 40) * (1.3 * 40))
         (generateAsteroidVertices steadyHost 40 10 (initialWorld [] 800 600) 4).
Proof.
  apply (proj2 (X6_generateAsteroidVertices_ring steadyHost 40 10
                  (initialWorld [] 800 600) 4));
    [apply steadyHost_unitCircle | apply steadyHost_unitDraws | lra].
Defined.

Lemma X8_witness :
  exists q,
    spawnPowerUp steadyHost {| px := 100; py := 100 |} (worldIn PLAYING)
    = pushPowerUp q (drawn 5 (worldIn PLAYING))
    /\ ptype q = MULTI_SHOT.
Proof.
  destruct (proj2 (X8_spawnPowerUp_drop steadyHost {| px := 100; py := 100 |}
                     (worldIn PLAYING)))
    as (q & E & _ & _ & _ & _ & _ & T);
    [vm_compute; intro X; discriminate X|].
  exists q. split; [exact E|].
  destruct (T steadyHost_unitDraws) as (Ty & _). rewrite Ty. reflexivity.
Defined.

Lemma X9_witness :
  exists l,
    asteroidsRef fieldWorld = asteroidsRef (initialWorld [] 800 600) ++ l
    /\ List.length l = 3%nat /\ Forall (largeRock 800 600) l.
Proof.
  assert (spawnAsteroids steadyHost 1 3 0 800 600 (initialWorld [] 800 600)
          = Some fieldWorld) as H by (vm_compute; reflexivity).
  destruct (X9_spawnAsteroids_rocks steadyHost 1 3 0 800 600 _ _ H)
    as (l & E & L & F & _).
  exists l. split; [exact E|]. split; [exact L | exact F].
Defined.

Lemma X10_witness :
  spawnAsteroids steadyHost 7 3 0 200 200 (initialWorld [] 200 200) = None.
Proof.
  apply X10_spawnAsteroids_small;
    [apply steadyHost_unitDraws | lra | lra | lia].
Defined.

Lemma X14_witness :
  pos (homing steadyHost (1 # 10) (saucerAt 600 500) (missileAt 300 100))
  = pos (missileAt 300 100).
Proof.
  destruct (X14_homing_bounded steadyHost (1 # 10) (saucerAt 600 500)
              (missileAt 300 100)) as (_ & P & _); [lra | exact P].
Defined.

Lemma X15_witness :
  exists u',
    ufoRef (ufoLogic sampleHost (frameAt 1) (1 # 10) rocksWorld) = Some u'
    /\ px (vel u') = UFO_SPEED.
Proof.
  pose proof (X15_ufoLogic_crossing sampleHost (frameAt 1) (1 # 10) rocksWorld
                (saucerAt 600 500) eq_refl) as H.
  cbv zeta in H.
  match type of H with
  | (if ?c then _ else _) =>
      let v := eval vm_compute in c in change c with v in H
  end.
  cbv iota in H. destruct H as (u' & E & V & _).
  exists u'. split; [exact E | exact V].
Defined.

Lemma X16_witness :
  ufoRef (ufoLogic steadyHost (frameAt 1) (1 # 10) partingWorld) = None.
Proof.
  destruct (X16_ufoLogic_parting_shot steadyHost (frameAt 1) (1 # 10)
              partingWorld partingSaucer (freshShip 800 600)
              eq_refl eq_refl eq_refl) as [H _];
    [vm_compute; reflexivity | cbn; lra | exact H].
Defined.

Lemma X18_witness :
  score (react (snd (missileStep steadyHost (frameAt 1) (missileAt 300 100)
                       strikeWorld)))
  = (score (react strikeWorld) + 50)%Z.
Proof.
  destruct (X18_missileStep_wreck steadyHost (frameAt 1) (missileAt 300 100)
              strikeWorld [rock small 100 100 false]
              (rock large 300 100 false) [])
    as (_ & _ & S & _);
    [ reflexivity
    | intros u E; discriminate E
    | reflexivity
    | constructor; [vm_compute; reflexivity | constructor]
    | reflexivity
    | vm_compute; reflexivity
    | exact S ].
Defined.

Lemma X19_witness :
  levelClear (reactIn PLAYING)
    (shipVsBodies steadyHost (reactIn PLAYING) (frameAt 1)
       (missilesCollision steadyHost (frameAt 1) strikeWorld))
  = shipVsBodies steadyHost (reactIn PLAYING) (frameAt 1)
      (missilesCollision steadyHost (frameAt 1) strikeWorld).
Proof.
  apply (proj2 (X19_missiles_never_clear steadyHost (reactIn PLAYING)
                  (frameAt 1) strikeWorld)).
  discriminate.
Defined.

Lemma X20_witness :
  shipAlive (shipVsBodies steadyHost (reactIn PLAYING) (frameAt 1)
               wreckRamWorld) = false.
Proof.
  destruct (X20_shipVsBodies_wreck steadyHost (reactIn PLAYING) (frameAt 1)
              wreckRamWorld bareShip (rock small 400 300 true))
    as [A _];
    [ reflexivity | reflexivity | cbn; lra | cbn; lra
    | left; reflexivity | vm_compute; reflexivity | exact A ].
Defined.

Lemma X22_witness :
  let r := react (world deathScene) in
  (0 <= score r)%Z /\ (0 <= lives r <= 3)%Z /\ (1 <= level r)%Z.
Proof. exact (X22_reachable_bounds sampleHost deathScene deathScene_reachable). Defined.

Lemma X23_witness :
  lives (react (animate sampleHost (reactIn PLAYING) (frameAt 1)
                  shieldedWorld))
  = lives (react shieldedWorld).
Proof.
  destruct (X23_frame_invulnerable sampleHost (reactIn PLAYING) (frameAt 1)
              shieldedWorld shieldedShip eq_refl) as [L _];
    [vm_compute; reflexivity | exact L].
Defined.

Lemma X24_witness :
  exists m,
    missilesRef (handleKeyDown steadyHost PLAYING "KeyM" 0 armedWorld)
    = missilesRef armedWorld ++ [m].
Proof.
  pose proof (X24_missile_launch steadyHost "KeyM" 0 armedWorld armedShip
                eq_refl eq_refl eq_refl) as H.
  cbv zeta in H. change (0 <? missileAmmo armedShip)%Z with true in H.
  cbv iota in H. destruct H as (m & _ & E & _). exists m. exact E.
Defined.

Lemma X25_witness : List.length (asteroidsRef newGameWorld) = 3%nat.
Proof.
  assert (runTimer steadyHost 1 0 TStartGame
            (startGame 0 (initialWorld [] 800 600))
          = Some newGameWorld) as H by (vm_compute; reflexivity).
  destruct (X25_new_game steadyHost 1 0 0 _ _ H)
    as (_ & _ & _ & _ & _ & L & _).
  exact L.
Defined.

Lemma X26_witness :
  exists l,
    asteroidsRef nextLevelWorld = asteroidsRef clearedWorld ++ l
    /\ List.length l = 5%nat.
Proof.
  assert (runTimer steadyHost 1 7 (TNextLevel 2) clearedWorld
          = Some nextLevelWorld) as H by (vm_compute; reflexivity).
  destruct (X26_next_level steadyHost 1 7 2 _ _ H)
    as (_ & _ & (l & E & L & _) & _).
  exists l. split; [exact E | exact L].
Defined.

Lemma X28_witness :
  exists i h,
    newHighScoreIndex (react (submitScore 5 entryWorld)) = Some (Z.of_nat i)
    /\ nth_error (highScores (react (submitScore 5 entryWorld))) i = Some h
    /\ hsScore h = 1500%Z.
Proof.
  pose proof (X28_submitScore_board 5 entryWorld) as H. cbv zeta in H.
  destruct H as (_ & _ & _ & _ & H).
  destruct H as (i & h & E & N & S & _);
    [cbn; lia | vm_compute; reflexivity |].
  exists i, h. split; [exact E|]. split; [exact N | exact S].
Defined.

(* ================================================================== *)
(** * The passes of a Playing frame *)

(** ** What each pass keeps *)

Lemma sameShots_refl w : sameShots w w.
Proof. split; reflexivity. Qed.

Lemma sameShots_trans w1 w2 w3 :
  sameShots w1 w2 -> sameShots w2 w3 -> sameShots w1 w3.
Proof. intros [A B] [C D]. split; congruence. Qed.

Lemma sparks_sameShots w w' : sparks w w' -> sameShots w w'.
Proof. intros (ps & k & ->). split; reflexivity. Qed.

Lemma saucerOff_sameShots t x :
  sameShots x (with_lastUfoSpawnTimeRef t (with_ufoRef None x)).
Proof. split; reflexivity. Qed.

Section Passes.

Variable host : Host.
Variable render : ReactState.
Variable inp : FrameInput.

Lemma loseLife_sameShots w : sameShots w (loseLife render w).
Proof.
  unfold loseLife, handleGameOver. destruct (_ <=? _)%Z; split; reflexivity.
Qed.

Lemma death_sameShots (ship : Ship) w :
  sameShots w
    (loseLife render
       (createExplosion host (pos ship) (color (entity ship)) 30
          (onShip kill w))).
Proof.
  eapply sameShots_trans; [|apply loseLife_sameShots].
  eapply sameShots_trans;
    [|apply sparks_sameShots, createExplosion_sparks].
  unfold onShip. destruct (shipRef w); split; reflexivity.
Qed.

Lemma bulletVsAsteroids_sameShots b w :
  sameShots w (snd (bulletVsAsteroids host b w)).
Proof.
  destruct (firstHit (fun a => negb (isDead a) && collide b a)
                     (asteroidsRef w)) as [[[pre a] post]|] eqn:F.
  - destruct (bulletVsAsteroids_hit host b w _ _ _ F)
      as (cs & pus & ps & k & -> & _).
    split; reflexivity.
  - rewrite (bulletVsAsteroids_miss host) by exact F. apply sameShots_refl.
Qed.

Lemma bulletVsUfo_sameShots b w :
  sameShots w (snd (bulletVsUfo host inp b w)).
Proof.
  destruct (ufoRef w) as [ufo|] eqn:U.
  - destruct (isDead b) eqn:D.
    + rewrite (bulletVsUfo_dead host) by exact D. apply sameShots_refl.
    + destruct (collide b ufo) eqn:C.
      * destruct (bulletVsUfo_hit host inp b ufo w U D C)
          as (pus & ps & k & ->).
        split; reflexivity.
      * unfold bulletVsUfo. rewrite U, D, C. apply sameShots_refl.
  - unfold bulletVsUfo. rewrite U. apply sameShots_refl.
Qed.

Lemma ufoBulletVsShip_sameShots b w :
  sameShots w (snd (ufoBulletVsShip host render b w)).
Proof.
  unfold ufoBulletVsShip. cbv zeta.
  destruct (shipRef w) as [ship|]; [|apply sameShots_refl].
  destruct (_ && _); [|apply sameShots_refl].
  destruct (Num.gtb _ _).
  - destruct (checkCollision _ _ _ _); apply sameShots_refl.
  - destruct (checkCollision _ _ _ _); [|apply sameShots_refl].
    unfold snd. exact (death_sameShots ship w).
Qed.

Lemma bulletStep_sameShots b w :
  sameShots w (snd (bulletStep host render inp b w)).
Proof.
  unfold bulletStep. destruct (isDead b); [apply sameShots_refl|].
  destruct (ownerIsShip (owner b)).
  - pose proof (bulletVsAsteroids_sameShots b w) as H1.
    destruct (bulletVsAsteroids host b w) as [b1 w1]. cbn [snd] in H1.
    pose proof (bulletVsUfo_sameShots b1 w1) as H2.
    destruct (bulletVsUfo host inp b1 w1) as [b2 w2]. cbn [snd] in H2.
    eapply sameShots_trans; [exact H1|].
    eapply sameShots_trans; [exact H2|]. apply ufoBulletVsShip_sameShots.
  - apply ufoBulletVsShip_sameShots.
Qed.

Lemma bulletsLoop_sameShots bs : forall w,
  sameShots w (snd (bulletsLoop host render inp bs w)).
Proof.
  induction bs as [|b bs IH]; intro w; cbn [bulletsLoop].
  - apply sameShots_refl.
  - pose proof (bulletStep_sameShots b w) as H1.
    destruct (bulletStep host render inp b w) as [b' w1]. cbn [snd] in H1.
    pose proof (IH w1) as H2.
    destruct (bulletsLoop host render inp bs w1) as [rest' w2].
    cbn [snd] in *. eapply sameShots_trans; eassumption.
Qed.

Lemma missileStep_sameShots m w :
  sameShots w (snd (missileStep host inp m w)).
Proof.
  assert (sameShots w (snd (missileVsAsteroids host m w))) as V.
  { destruct (firstHit (fun a => negb (isDead a) && collide m a)
                       (asteroidsRef w)) as [[[pre a] post]|] eqn:H.
    - destruct (missileVsAsteroids_hit host m w pre a post H)
        as (ps & k & ->).
      split; reflexivity.
    - unfold missileVsAsteroids. rewrite H. apply sameShots_refl. }
  unfold missileStep. destruct (isDead m); [apply sameShots_refl|].
  destruct (ufoRef w) as [u|]; [|exact V].
  destruct (collide m u); [|exact V]. cbn [snd].
  destruct (missileVsUfo_shape host inp u w) as (pus & ps & k & ->).
  split; reflexivity.
Qed.

Lemma missilesLoop_sameShots ms : forall w,
  sameShots w (snd (missilesLoop host inp ms w)).
Proof.
  induction ms as [|m ms IH]; intro w; cbn [missilesLoop].
  - apply sameShots_refl.
  - pose proof (missileStep_sameShots m w) as S.
    destruct (missileStep host inp m w) as [m' w1]. cbn [snd] in S.
    specialize (IH w1).
    destruct (missilesLoop host inp ms w1) as [rest' w2]. cbn [snd] in *.
    eapply sameShots_trans; eassumption.
Qed.

Lemma shipVsBodies_sameShots w : sameShots w (shipVsBodies host render inp w).
Proof.
  unfold shipVsBodies. cbv zeta.
  destruct (shipRef w) as [ship|]; [|apply sameShots_refl].
  destruct (_ && _); [|apply sameShots_refl].
  destruct (existsb _ _); [exact (death_sameShots ship w)|].
  destruct (ufoRef w) as [ufo|]; [|apply sameShots_refl].
  destruct (checkDeath ship ufo); [|apply sameShots_refl].
  eapply sameShots_trans; [|apply loseLife_sameShots].
  eapply sameShots_trans; [|apply saucerOff_sameShots].
  eapply sameShots_trans;
    [|apply sparks_sameShots, createExplosion_sparks].
  eapply sameShots_trans;
    [|apply sparks_sameShots, createExplosion_sparks].
  unfold onShip. destruct (shipRef w); split; reflexivity.
Qed.

Lemma pickUpPowerUps_sameShots w : sameShots w (pickUpPowerUps w).
Proof.
  unfold pickUpPowerUps. destruct (shipRef w) as [ship|]; [|apply sameShots_refl].
  destruct (isDead ship) eqn:D; cbn [negb]; [apply sameShots_refl|].
  pose proof (pickUps_shape (powerUpsRef w) ship w D) as H.
  destruct (pickUps (powerUpsRef w) ship w) as [[ps ship'] w'].
  cbn [fst snd] in H. destruct H as (_ & _ & _ & msg & ->).
  split; reflexivity.
Qed.

Lemma levelClear_sameShots w : sameShots w (levelClear render w).
Proof.
  unfold levelClear. destruct (asteroidsRef w); [|apply sameShots_refl].
  destruct (ufoRef w); [apply sameShots_refl|].
  destruct (isPlaying _); [|apply sameShots_refl]. split; reflexivity.
Qed.

(** The loops, one bullet or missile at a time. *)

Lemma bulletStep_flagged b w :
  flagged b (fst (bulletStep host render inp b w)).
Proof.
  assert (forall x w0, flagged x (fst (ufoBulletVsShip host render x w0)))
    as U.
  { intros x w0. unfold ufoBulletVsShip. cbv zeta.
    destruct (shipRef w0) as [ship|]; [|left; reflexivity].
    destruct (_ && _); [|left; reflexivity].
    destruct (Num.gtb _ _); destruct (checkCollision _ _ _ _);
      unfold fst; (left; reflexivity) || (right; reflexivity). }
  assert (forall x, flagged b x -> flagged b (kill x)) as K.
  { intros x [->| ->]; right; reflexivity. }
  assert (forall x y, flagged b x -> flagged x y -> flagged b y) as T.
  { intros x y [->| ->] [->| ->]; (left; reflexivity) || (right; reflexivity). }
  unfold bulletStep. destruct (isDead b); [left; reflexivity|].
  destruct (ownerIsShip (owner b)); [|apply U].
  assert (flagged b (fst (bulletVsAsteroids host b w))) as A.
  { unfold bulletVsAsteroids. destruct (firstHit _ _) as [[[pre a] post]|];
      unfold fst; [right | left]; reflexivity. }
  destruct (bulletVsAsteroids host b w) as [b1 w1]. cbn [fst] in A.
  assert (flagged b1 (fst (bulletVsUfo host inp b1 w1))) as B.
  { unfold bulletVsUfo. destruct (ufoRef w1) as [ufo|]; [|left; reflexivity].
    destruct (_ && _); unfold fst; [right | left]; reflexivity. }
  destruct (bulletVsUfo host inp b1 w1) as [b2 w2]. cbn [fst] in B.
  eapply T; [|apply U]. eapply T; eassumption.
Qed.

Lemma bulletsLoop_flagged bs : forall w,
  Forall2 flagged bs (fst (bulletsLoop host render inp bs w)).
Proof.
  induction bs as [|b bs IH]; intro w; cbn [bulletsLoop]; [constructor|].
  pose proof (bulletStep_flagged b w) as F.
  destruct (bulletStep host render inp b w) as [b' w1]. cbn [fst] in F.
  specialize (IH w1).
  destruct (bulletsLoop host render inp bs w1) as [rest' w2]. cbn [fst] in *.
  constructor; assumption.
Qed.

Lemma bulletsLoop_app bs1 bs2 w :
  bulletsLoop host render inp (bs1 ++ bs2) w
  = (fst (bulletsLoop host render inp bs1 w)
       ++ fst (bulletsLoop host render inp bs2
                 (snd (bulletsLoop host render inp bs1 w))),
     snd (bulletsLoop host render inp bs2
            (snd (bulletsLoop host render inp bs1 w)))).
Proof.
  revert w. induction bs1 as [|b bs1 IH]; intro w; cbn [app bulletsLoop].
  - cbn [fst snd app]. destruct (bulletsLoop host render inp bs2 w).
    reflexivity.
  - destruct (bulletStep host render inp b w) as [b' w1].
    rewrite (IH w1).
    destruct (bulletsLoop host render inp bs1 w1) as [o1 w2].
    cbn [fst snd app]. reflexivity.
Qed.

Lemma bulletsLoop_cons b bs w :
  bulletsLoop host render inp (b :: bs) w
  = (fst (bulletStep host render inp b w)
       :: fst (bulletsLoop host render inp bs
                 (snd (bulletStep host render inp b w))),
     snd (bulletsLoop host render inp bs
            (snd (bulletStep host render inp b w)))).
Proof.
  cbn [bulletsLoop]. destruct (bulletStep host render inp b w) as [b' w1].
  cbn [fst snd]. destruct (bulletsLoop host render inp bs w1) as [o w2].
  reflexivity.
Qed.

Lemma missileStep_flagged m w : flagged m (fst (missileStep host inp m w)).
Proof.
  assert (flagged m (fst (missileVsAsteroids host m w))) as V.
  { unfold missileVsAsteroids. destruct (firstHit _ _) as [[[pre a] post]|];
      unfold fst; [right | left]; reflexivity. }
  unfold missileStep. destruct (isDead m); [left; reflexivity|].
  destruct (ufoRef w) as [u|]; [|exact V].
  destruct (collide m u); [right; reflexivity | exact V].
Qed.

Lemma missilesLoop_flagged ms : forall w,
  Forall2 flagged ms (fst (missilesLoop host inp ms w)).
Proof.
  induction ms as [|m ms IH]; intro w; cbn [missilesLoop]; [constructor|].
  pose proof (missileStep_flagged m w) as F.
  destruct (missileStep host inp m w) as [m' w1]. cbn [fst] in F.
  specialize (IH w1).
  destruct (missilesLoop host inp ms w1) as [rest' w2]. cbn [fst] in *.
  constructor; assumption.
Qed.

Lemma missilesLoop_app ms1 ms2 w :
  missilesLoop host inp (ms1 ++ ms2) w
  = (fst (missilesLoop host inp ms1 w)
       ++ fst (missilesLoop host inp ms2 (snd (missilesLoop host inp ms1 w))),
     snd (missilesLoop host inp ms2 (snd (missilesLoop host inp ms1 w)))).
Proof.
  revert w. induction ms1 as [|m ms1 IH]; intro w; cbn [app missilesLoop].
  - cbn [fst snd app]. destruct (missilesLoop host inp ms2 w). reflexivity.
  - destruct (missileStep host inp m w) as [m' w1].
    rewrite (IH w1).
    destruct (missilesLoop host inp ms1 w1) as [o1 w2].
    cbn [fst snd app]. reflexivity.
Qed.

Lemma missilesLoop_cons m ms w :
  missilesLoop host inp (m :: ms) w
  = (fst (missileStep host inp m w)
       :: fst (missilesLoop host inp ms (snd (missileStep host inp m w))),
     snd (missilesLoop host inp ms (snd (missileStep host inp m w)))).
Proof.
  cbn [missilesLoop]. destruct (missileStep host inp m w) as [m' w1].
  cbn [fst snd]. destruct (missilesLoop host inp ms w1) as [o w2].
  reflexivity.
Qed.

(** In the Playing phase a frame is the update, the pick-ups, the pass
    over the bullets, the pass over the missiles, the test of the craft
    against the bodies and the level-clear check. *)
Lemma playing_frame w :
  gameState render = PLAYING ->
  animate host render inp w
  = levelClear render
      (shipVsBodies host render inp
         (missilesCollision host inp (beforeMissiles host render inp w))).
Proof.
  intro G. unfold animate, beforeMissiles, beforeBullets, afterUpdate,
    collisions. rewrite G. reflexivity.
Qed.

End Passes.

(** ** The frame around the bullets *)

Lemma purge_alive {T} `{IsEntity T} (l : list T) :
  Forall (fun x => isDead x = false) (purge l).
Proof.
  apply Forall_forall. intros x I. apply filter_In in I as [_ D].
  apply negb_true_iff in D. exact D.
Qed.

Lemma Forall2_flagged_length {T} `{IsEntity T} (l l' : list T) :
  Forall2 flagged l l' -> List.length l' = List.length l.
Proof. intro F. symmetry. exact (Forall2_length F). Qed.

Lemma nth_error_middle {A} (l : list A) x l' :
  nth_error (l ++ x :: l') (List.length l) = Some x.
Proof.
  rewrite nth_error_app2 by lia. rewrite Nat.sub_diag. reflexivity.
Qed.

Section Frame.

Variable host : Host.
Variable render : ReactState.
Variable inp : FrameInput.

Lemma missilesCollision_bullets w :
  bulletsRef (missilesCollision host inp w) = bulletsRef w.
Proof.
  unfold missilesCollision.
  pose proof (missilesLoop_sameShots host inp (missilesRef w) w) as [B _].
  destruct (missilesLoop host inp (missilesRef w) w) as [ms w1].
  exact B.
Qed.

Lemma bulletsCollision_missiles w :
  missilesRef (bulletsCollision host render inp w) = missilesRef w.
Proof.
  unfold bulletsCollision.
  pose proof (bulletsLoop_sameShots host render inp (bulletsRef w) w)
    as [_ M].
  destruct (bulletsLoop host render inp (bulletsRef w) w) as [bs w1].
  exact M.
Qed.

(** What the rest of a Playing frame keeps of the bullets as their pass
    left them. *)
Lemma frame_bullets w :
  gameState render = PLAYING ->
  bulletsRef (animate host render inp w)
  = bulletsRef (beforeMissiles host render inp w).
Proof.
  intro G. rewrite (playing_frame host render inp w G).
  rewrite (proj1 (levelClear_sameShots render _)).
  rewrite (proj1 (shipVsBodies_sameShots host render inp _)).
  apply missilesCollision_bullets.
Qed.

Lemma beforeMissiles_eq w :
  beforeMissiles host render inp w
  = bulletsCollision host render inp (beforeBullets host render inp w).
Proof. unfold beforeMissiles. reflexivity. Qed.

Lemma collisions_eq w :
  collisions host render inp (afterUpdate host render inp w)
  = shipVsBodies host render inp
      (missilesCollision host inp
         (bulletsCollision host render inp
            (beforeBullets host render inp w))).
Proof. unfold collisions, beforeBullets. reflexivity. Qed.

(** The Playing frame from the pass over the bullets, and from the
    collisions, on. *)
Lemma playing_frame_bullets w :
  gameState render = PLAYING ->
  animate host render inp w
  = levelClear render
      (shipVsBodies host render inp
         (missilesCollision host inp
            (bulletsCollision host render inp
               (beforeBullets host render inp w)))).
Proof.
  intro G. rewrite <- beforeMissiles_eq.
  exact (playing_frame host render inp w G).
Qed.

Lemma playing_frame_collisions w :
  gameState render = PLAYING ->
  animate host render inp w
  = levelClear render (collisions host render inp
                         (afterUpdate host render inp w)).
Proof.
  intro G. rewrite collisions_eq. exact (playing_frame_bullets w G).
Qed.

Lemma afterUpdate_react w :
  react (afterUpdate host render inp w) = react w.
Proof.
  unfold afterUpdate. rewrite (update_react host), resize_react.
  reflexivity.
Qed.

Lemma beforeBullets_gains w : gains w (beforeBullets host render inp w).
Proof.
  unfold beforeBullets. eapply gains_trans; [|apply pickUpPowerUps_gains].
  apply gains_react, afterUpdate_react.
Qed.

Lemma bulletsTail_gains w :
  gameState render = PLAYING ->
  forall W, W = beforeBullets host render inp w ->
  forall w3 out,
    bulletsCollision host render inp W
    = with_asteroidsRef (purge (asteroidsRef w3)) (with_bulletsRef out w3) ->
    gains w3 (animate host render inp w).
Proof.
  intros G W -> w3 out E. rewrite (playing_frame host render inp w G).
  unfold beforeMissiles. rewrite E.
  set (x := with_asteroidsRef _ _).
  assert (gains w3 x) as G0 by (apply gains_react; reflexivity).
  assert (gains x (missilesCollision host inp x)) as G1.
  { unfold missilesCollision.
    pose proof (missilesLoop_gains host inp (missilesRef x) x) as H.
    destruct (missilesLoop host inp (missilesRef x) x) as [ms w4].
    exact H. }
  pose proof (shipVsBodies_gains host render inp
                (missilesCollision host inp x)) as G2.
  pose proof (proj1 (levelClear_tally render
                       (shipVsBodies host render inp
                          (missilesCollision host inp x)))) as G3.
  unfold gains in *. lia.
Qed.

End Frame.

(** ** The frame around the missiles *)

Lemma kill_kill_asteroid (a : Asteroid) : kill (kill a) = kill a.
Proof. destruct a as [[]]. reflexivity. Qed.

Lemma flagged_refl {T} `{IsEntity T} (l : list T) : Forall2 flagged l l.
Proof. induction l; constructor; [left; reflexivity | assumption]. Qed.

Lemma flagged_kill_asteroid (a x : Asteroid) :
  flagged (kill a) x -> x = kill a.
Proof. intros [->| ->]; [reflexivity | apply kill_kill_asteroid]. Qed.

Lemma Forall2_nth_error {A B} (R : A -> B -> Prop) l l' :
  Forall2 R l l' -> forall i x, nth_error l i = Some x ->
  exists y, nth_error l' i = Some y /\ R x y.
Proof.
  induction 1 as [|a b l l' H _ IH]; intros [|i] x E; try discriminate E.
  - injection E as <-. exists b. split; [reflexivity | exact H].
  - exact (IH i x E).
Qed.

Lemma Forall2_flagged_middle pre (a : Asteroid) post :
  Forall2 flagged (pre ++ a :: post) (pre ++ kill a :: post).
Proof.
  induction pre as [|x pre IH]; cbn [app].
  - constructor; [right; reflexivity | apply flagged_refl].
  - constructor; [left; reflexivity | exact IH].
Qed.

Lemma rocksFlagged_refl w : rocksFlagged w w.
Proof. split; auto. Qed.

Lemma rocksFlagged_trans w1 w2 w3 :
  rocksFlagged w1 w2 -> rocksFlagged w2 w3 -> rocksFlagged w1 w3.
Proof. intros [A B] [C D]. split; [congruence | auto]. Qed.

Lemma rocksFlagged_same w w' :
  asteroidsRef w' = asteroidsRef w -> rocksFlagged w w'.
Proof. intro E. unfold rocksFlagged. rewrite E. auto. Qed.

Lemma rocksFlagged_of w w' :
  Forall2 flagged (asteroidsRef w) (asteroidsRef w') -> rocksFlagged w w'.
Proof.
  intro F. split; [symmetry; exact (Forall2_length F)|].
  intros i a E. destruct (Forall2_nth_error _ _ _ F i _ E) as (y & N & Fy).
  rewrite N. f_equal. apply flagged_kill_asteroid, Fy.
Qed.

Section MissilePass.

Variable host : Host.
Variable render : ReactState.
Variable inp : FrameInput.

Lemma missileStep_rocksFlagged m w :
  rocksFlagged w (snd (missileStep host inp m w)).
Proof.
  assert (rocksFlagged w (snd (missileVsAsteroids host m w))) as V.
  { destruct (firstHit (fun a => negb (isDead a) && collide m a)
                       (asteroidsRef w)) as [[[pre a] post]|] eqn:H.
    - destruct (missileVsAsteroids_hit host m w pre a post H)
        as (ps & k & ->).
      cbn [snd]. destruct (firstHit_split _ _ _ _ _ H) as (E & _).
      apply rocksFlagged_of. cbn. rewrite E.
      apply Forall2_flagged_middle.
    - unfold missileVsAsteroids. rewrite H. apply rocksFlagged_refl. }
  unfold missileStep. destruct (isDead m); [apply rocksFlagged_refl|].
  destruct (ufoRef w) as [u|]; [|exact V].
  destruct (collide m u); [|exact V]. cbn [snd].
  destruct (missileVsUfo_shape host inp u w) as (pus & ps & k & ->).
  apply rocksFlagged_same. reflexivity.
Qed.

Lemma missilesLoop_rocksFlagged ms : forall w,
  rocksFlagged w (snd (missilesLoop host inp ms w)).
Proof.
  induction ms as [|m ms IH]; intro w; cbn [missilesLoop].
  - apply rocksFlagged_refl.
  - pose proof (missileStep_rocksFlagged m w) as S.
    destruct (missileStep host inp m w) as [m' w1]. cbn [snd] in S.
    specialize (IH w1).
    destruct (missilesLoop host inp ms w1) as [rest' w2]. cbn [snd] in *.
    eapply rocksFlagged_trans; eassumption.
Qed.

(** Once the hostile unit is gone, what is left of the collisions does
    not bring it back. *)
Lemma settles_saucer_gone w w' :
  settles render w w' -> ufoRef w = None -> ufoRef w' = None.
Proof. intros [_ _ _ _ [U|U] _ _] N; congruence. Qed.

Lemma missilesLoop_saucer_gone ms w :
  ufoRef w = None -> ufoRef (snd (missilesLoop host inp ms w)) = None.
Proof.
  apply settles_saucer_gone, (missilesLoop_settles host render).
Qed.

Lemma bulletsLoop_saucer_gone bs w :
  ufoRef w = None ->
  ufoRef (snd (bulletsLoop host render inp bs w)) = None.
Proof. apply settles_saucer_gone, bulletsLoop_settles. Qed.

Lemma tail_saucer_gone w :
  ufoRef w = None ->
  ufoRef (levelClear render (shipVsBodies host render inp w)) = None.
Proof.
  intro N.
  destruct (levelClear_refs render (shipVsBodies host render inp w))
    as (_ & _ & _ & _ & _ & _ & ->).
  exact (settles_saucer_gone _ _ (shipVsBodies_settles host render inp w) N).
Qed.

Lemma missilesCollision_saucer_gone w :
  ufoRef w = None -> ufoRef (missilesCollision host inp w) = None.
Proof.
  apply settles_saucer_gone, (missilesCollision_settles host render).
Qed.

Lemma tail_rocks w :
  asteroidsRef (levelClear render (shipVsBodies host render inp w))
  = asteroidsRef w.
Proof.
  destruct (levelClear_refs render (shipVsBodies host render inp w))
    as (-> & _).
  apply shipVsBodies_rocks.
Qed.

Lemma tail_missiles w :
  missilesRef (levelClear render (shipVsBodies host render inp w))
  = missilesRef w.
Proof.
  rewrite (proj2 (levelClear_sameShots render _)).
  apply (shipVsBodies_sameShots host render inp).
Qed.

Lemma tail_gains w :
  gains w (levelClear render (shipVsBodies host render inp w)).
Proof.
  pose proof (shipVsBodies_gains host render inp w) as G.
  pose proof (proj1 (levelClear_tally render
                       (shipVsBodies host render inp w))) as E.
  unfold gains in *. lia.
Qed.

Lemma beforeMissiles_gains w : gains w (beforeMissiles host render inp w).
Proof.
  unfold beforeMissiles.
  eapply gains_trans; [apply (beforeBullets_gains host render inp)|].
  set (W := beforeBullets host render inp w). unfold bulletsCollision.
  pose proof (bulletsLoop_gains host render inp (bulletsRef W) W) as H.
  destruct (bulletsLoop host render inp (bulletsRef W) W) as [bs w1].
  exact H.
Qed.

End MissilePass.

Section HomingFrame.

Variable host : Host.
Variable render : ReactState.
Variable inp : FrameInput.

(** A Playing frame around the turn of one homing projectile. *)
Lemma missile_frame w ms1 m ms2 :
  gameState render = PLAYING ->
  let M := beforeMissiles host render inp w in
  missilesRef M = ms1 ++ m :: ms2 ->
  let before := missilesLoop host inp ms1 M in
  let w1 := snd before in
  let turn := missileStep host inp m w1 in
  let w2 := snd turn in
  let after := missilesLoop host inp ms2 w2 in
  let w' := animate host render inp w in
  missilesCollision host inp M
  = with_missilesRef (fst before ++ fst turn :: fst after) (snd after)
  /\ w' = levelClear render
            (shipVsBodies host render inp (missilesCollision host inp M))
  /\ nth_error (missilesRef w') (List.length ms1) = Some (fst turn)
  /\ rocksFlagged w2 w'
  /\ (ufoRef w2 = None -> ufoRef w' = None)
  /\ gains w w1 /\ gains w2 w'.
Proof.
  intros G M EM before w1 turn w2 after w'.
  assert (missilesCollision host inp M
          = with_missilesRef (fst before ++ fst turn :: fst after)
                             (snd after)) as E.
  { unfold missilesCollision. rewrite EM.
    rewrite (missilesLoop_app host inp), (missilesLoop_cons host inp).
    reflexivity. }
  assert (w' = levelClear render
                 (shipVsBodies host render inp
                    (missilesCollision host inp M))) as EW
    by exact (playing_frame host render inp w G).
  split; [exact E|]. split; [exact EW|]. split.
  { rewrite EW, tail_missiles, E.
    change (missilesRef (with_missilesRef ?l ?x)) with l.
    replace (List.length ms1) with (List.length (fst before)).
    - apply nth_error_middle.
    - apply Forall2_flagged_length, missilesLoop_flagged. }
  split.
  { rewrite EW. split.
    - rewrite tail_rocks, E.
      change (asteroidsRef (with_missilesRef ?l ?x)) with (asteroidsRef x).
      apply (missilesLoop_rocksFlagged host inp ms2 w2).
    - intros i a N. rewrite tail_rocks, E.
      change (asteroidsRef (with_missilesRef ?l ?x)) with (asteroidsRef x).
      exact (proj2 (missilesLoop_rocksFlagged host inp ms2 w2) i a N). }
  split.
  { intro N. rewrite EW. apply tail_saucer_gone. rewrite E.
    change (ufoRef (with_missilesRef ?l ?x)) with (ufoRef x).
    apply (missilesLoop_saucer_gone host render inp), N. }
  split.
  { eapply gains_trans; [apply (beforeMissiles_gains host render inp)|].
    apply missilesLoop_gains. }
  rewrite EW, E.
  eapply gains_trans; [apply (missilesLoop_gains host inp ms2 w2)|].
  eapply gains_trans; [|apply tail_gains].
  apply gains_react. reflexivity.
Qed.

End HomingFrame.

Section BulletFrame.

Variable host : Host.
Variable render : ReactState.
Variable inp : FrameInput.

(** A Playing frame around the turn of one projectile. *)
Lemma bullet_frame w bs1 b bs2 :
  gameState render = PLAYING ->
  let W := beforeBullets host render inp w in
  bulletsRef W = bs1 ++ b :: bs2 ->
  let before := bulletsLoop host render inp bs1 W in
  let w1 := snd before in
  let turn := bulletStep host render inp b w1 in
  let w2 := snd turn in
  let after := bulletsLoop host render inp bs2 w2 in
  let w' := animate host render inp w in
  bulletsCollision host render inp W
  = with_asteroidsRef (purge (asteroidsRef (snd after)))
      (with_bulletsRef (fst before ++ fst turn :: fst after) (snd after))
  /\ w' = levelClear render
            (shipVsBodies host render inp
               (missilesCollision host inp
                  (bulletsCollision host render inp W)))
  /\ nth_error (bulletsRef w') (List.length bs1) = Some (fst turn)
  /\ (ufoRef w2 = None -> ufoRef w' = None)
  /\ gains w w1 /\ gains w2 w'.
Proof.
  intros G W EB before w1 turn w2 after w'.
  assert (bulletsCollision host render inp W
          = with_asteroidsRef (purge (asteroidsRef (snd after)))
              (with_bulletsRef (fst before ++ fst turn :: fst after)
                               (snd after))) as E.
  { unfold bulletsCollision. rewrite EB.
    rewrite (bulletsLoop_app host render inp).
    rewrite (bulletsLoop_cons host render inp). reflexivity. }
  assert (w' = levelClear render
                 (shipVsBodies host render inp
                    (missilesCollision host inp
                       (bulletsCollision host render inp W)))) as EW
    by exact (playing_frame_bullets host render inp w G).
  split; [exact E|]. split; [exact EW|]. split.
  { unfold w'. rewrite (frame_bullets host render inp w G).
    unfold beforeMissiles. fold W. rewrite E.
    change (bulletsRef (with_asteroidsRef ?l (with_bulletsRef ?bs ?x)))
      with bs.
    replace (List.length bs1) with (List.length (fst before)).
    - apply nth_error_middle.
    - apply Forall2_flagged_length, bulletsLoop_flagged. }
  split.
  { intro N. rewrite EW. apply tail_saucer_gone.
    apply (missilesCollision_saucer_gone host render). rewrite E.
    change (ufoRef (with_asteroidsRef ?l (with_bulletsRef ?bs ?x)))
      with (ufoRef x).
    apply bulletsLoop_saucer_gone, N. }
  split.
  { eapply gains_trans; [apply (beforeBullets_gains host render inp)|].
    apply bulletsLoop_gains. }
  assert (gains w2 (snd after)) as G2 by apply bulletsLoop_gains.
  pose proof (bulletsTail_gains host render inp w G W eq_refl
                (snd after) _ E) as G3.
  unfold gains in *. fold w' in G3. lia.
Qed.

End BulletFrame.

(** ** The shield *)

Section Shielded.

Variable host : Host.
Variable render : ReactState.
Variable inp : FrameInput.

(** What collision resolution settles leaves a shielded craft as it
    was, shield up. *)
Lemma settles_shielded w w' ship :
  settles render w w' ->
  shipRef w = Some ship -> 0 < powerupShieldTimer ship ->
  noDeath w w'
  /\ exists ship', shipRef w' = Some ship' /\ 0 < powerupShieldTimer ship'.
Proof.
  intros [_ _ _ _ _ H D] S Sh.
  unfold hullOpt in H. rewrite S in H.
  destruct (shipRef w') as [s'|] eqn:S'; [|contradiction].
  destruct H as (_ & _ & _ & T & _).
  assert (0 < powerupShieldTimer s') as Sh'
    by (destruct T as [T|T]; rewrite T;
        [exact Sh | unfold POWERUP_DURATION; lra]).
  split; [|exists s'; auto].
  destruct D as [N|(_ & _ & _ & X & _)]; [exact N|]. exfalso.
  unfold exposed in X. rewrite S' in X. lra.
Qed.

(** From the turn of a projectile to the end of a Playing frame. *)
Lemma rest_settles bs out w :
  settles render w
    (shipVsBodies host render inp
       (missilesCollision host inp
          (with_asteroidsRef
             (purge (asteroidsRef (snd (bulletsLoop host render inp bs w))))
             (with_bulletsRef out
                (snd (bulletsLoop host render inp bs w)))))).
Proof.
  eapply settles_trans; [apply bulletsLoop_settles|].
  eapply settles_trans; [apply (with_bulletsRef_settles render) with (bs := out)|].
  eapply settles_trans; [apply purge_asteroids_settles|].
  eapply settles_trans; [apply (missilesCollision_settles host render)|].
  apply shipVsBodies_settles.
Qed.

End Shielded.

(** ** Time dilation *)

Section Dilation.

Variable host : Host.

(** What the drift and the fire step leave of the hostile unit's
    countdowns. *)
Lemma ufoDrift_timer edt ufo w :
  let r := ufoDrift host edt ufo w in
  px (vel (fst r)) = px (vel ufo)
  /\ canvasWidth (snd r) = canvasWidth w
  /\ shipRef (snd r) = shipRef w
  /\ shootCooldown (fst r) = shootCooldown ufo
  /\ (Num.leb (directionChangeTimer ufo - edt) 0 = false ->
      directionChangeTimer (fst r) = directionChangeTimer ufo - edt).
Proof.
  unfold ufoDrift.
  change (directionChangeTimer
            (with_directionChangeTimer
               (directionChangeTimer (advance edt ufo) - edt)
               (advance edt ufo)))
    with (directionChangeTimer ufo - edt).
  destruct (Num.leb (directionChangeTimer ufo - edt) 0); cbn [fst snd].
  - repeat split; try reflexivity. intro H. discriminate H.
  - repeat split; try reflexivity.
Qed.

Lemma ufoShoot_timer edt ufo w :
  let r := ufoShoot host edt ufo w in
  pos (fst r) = pos ufo
  /\ directionChangeTimer (fst r) = directionChangeTimer ufo
  /\ (Num.leb (shootCooldown ufo - edt) 0 = false ->
      shootCooldown (fst r) = shootCooldown ufo - edt).
Proof.
  unfold ufoShoot.
  change (shootCooldown (with_shootCooldown (shootCooldown ufo - edt) ufo))
    with (shootCooldown ufo - edt).
  destruct (shipRef w) as [ship|].
  - destruct (Num.leb (shootCooldown ufo - edt) 0); cbn [andb].
    + destruct (negb (isDead ship)); cbn [fst snd];
        repeat split; try reflexivity; intro H; discriminate H.
    + cbn [fst snd]. repeat split; try reflexivity.
  - cbn [fst snd]. repeat split; try reflexivity.
Qed.

(** The hostile unit after UFO Logic: gone when the drift took it past
    the margin; otherwise where the drift put it, its countdowns down
    by the same delta unless they ran out. *)
Lemma ufoLogic_moved inp edt w ufo :
  ufoRef w = Some ufo ->
  let x := px (pos ufo) + px (vel ufo) * edt in
  let y := py (pos ufo) + py (vel ufo) * edt in
  if (Num.gtb (px (vel ufo)) 0 && Num.gtb x (canvasWidth w + 50))
     || (Num.ltb (px (vel ufo)) 0 && Num.ltb x (-50))
  then ufoRef (ufoLogic host inp edt w) = None
  else exists ufo', ufoRef (ufoLogic host inp edt w) = Some ufo'
                    /\ pos ufo' = {| px := x; py := y |}
                    /\ (Num.leb (directionChangeTimer ufo - edt) 0 = false ->
                        directionChangeTimer ufo'
                        = directionChangeTimer ufo - edt)
                    /\ (Num.leb (shootCooldown ufo - edt) 0 = false ->
                        shootCooldown ufo' = shootCooldown ufo - edt).
Proof.
  intros U x y. unfold ufoLogic. rewrite U.
  destruct (ufoDrift_timer edt ufo w) as (V & C & _ & K & D).
  destruct (ufoDrift_shape host edt ufo w) as (P1 & _).
  destruct (ufoDrift host edt ufo w) as [u1 w1]. cbn [fst snd] in *.
  unfold ufoGone. rewrite V, C, P1. cbn [px py]. fold x.
  set (gone := _ || _).
  set (w2 := if gone then with_lastUfoSpawnTimeRef (now inp) w1 else w1).
  destruct (ufoShoot_timer edt u1 w2) as (P2 & D2 & K2).
  destruct (ufoShoot host edt u1 w2) as [u2 w3]. cbn [fst snd] in *.
  destruct gone; [reflexivity|]. exists u2. split; [reflexivity|].
  split; [rewrite P2; exact P1|]. split.
  - intro H. rewrite D2. exact (D H).
  - rewrite <- K. exact K2.
Qed.

(** Of the update half only UFO Logic writes the hostile unit. *)
Lemma update_ufo g inp dt w :
  ufoRef (update host g inp dt w)
  = ufoRef (if isPlaying g
            then ufoLogic host inp (enemyDt w dt) (shipLogic host g dt w)
            else shipLogic host g dt w).
Proof.
  unfold update.
  set (w2 := if isPlaying g then _ else _).
  destruct (missilesUpdate_shape host dt
              (bulletsUpdate (enemyDt w dt) dt w2)) as (ms & ps & k & E).
  rewrite E. reflexivity.
Qed.

Lemma shipLogic_keeps g dt w :
  ufoRef (shipLogic host g dt w) = ufoRef w
  /\ canvasWidth (shipLogic host g dt w) = canvasWidth w.
Proof.
  destruct (shipLogic_shape host g dt w) as (sh' & bs & ps & k & -> & _).
  split; reflexivity.
Qed.

End Dilation.

Section DilatedFrame.

Variable host : Host.
Variable render : ReactState.
Variable inp : FrameInput.

(** What a Playing frame keeps of its update half. *)
Lemma playing_keeps w :
  gameState render = PLAYING ->
  let U := afterUpdate host render inp w in
  let w' := animate host render inp w in
  w' = levelClear render (collisions host render inp U)
  /\ (forall a, In a (asteroidsRef w') ->
        exists a0, In a0 (asteroidsRef U) /\ pos a = pos a0)
  /\ Forall2 flagged (bulletsRef U) (bulletsRef w')
  /\ (ufoRef w' = ufoRef U \/ ufoRef w' = None)
  /\ hullOpt (shipRef U) (shipRef w').
Proof.
  intros G U w'.
  assert (w' = levelClear render (collisions host render inp U)) as EW
    by exact (playing_frame_collisions host render inp w G).
  destruct (levelClear_refs render (collisions host render inp U))
    as (RA & _ & RS & _ & _ & RB & RU).
  rewrite <- EW in RA, RS, RB, RU.
  destruct (collisions_settles host render inp U) as [_ _ SA _ SU SS _].
  split; [exact EW|]. split; [rewrite RA; exact SA|]. split.
  { unfold w'. rewrite (frame_bullets host render inp w G).
    unfold beforeMissiles.
    fold (beforeBullets host render inp w).
    set (X := beforeBullets host render inp w).
    assert (bulletsRef X = bulletsRef U) as EX
      by apply (pickUpPowerUps_sameShots U).
    rewrite <- EX. unfold bulletsCollision.
    pose proof (bulletsLoop_flagged host render inp (bulletsRef X) X) as F.
    destruct (bulletsLoop host render inp (bulletsRef X) X) as [bs w1].
    exact F. }
  split; [rewrite RU; exact SU|]. rewrite RS. exact SS.
Qed.

End DilatedFrame.

(* ================================================================== *)
(** * The loops of normalizeAngle *)

(** ** Computed exactly *)




(** ** On doubles *)








(* ================================================================== *)
(** * The claims *)

(** C1 (as amended).  For every position and positive bounds,
    [wrapPosition] returns a point whose x coordinate lies in [0, width]
    and whose y coordinate lies in [0, height], both ends included. *)
Theorem C1_wrapPosition_closed pos width height :
  0 < width -> 0 < height ->
  inField width height (wrapPosition pos width height).
Proof.
  intros W H. apply wrapPosition_inField; apply Qlt_le_weak; assumption.
Qed.

Lemma C1_witness :
  0 < 800 /\ 0 < 600
  /\ inField 800 600 (wrapPosition {| px := -1; py := 700 |} 800 600).
Proof.
  split; [reflexivity|]. split; [reflexivity|].
  apply (C1_wrapPosition_closed {| px := -1; py := 700 |} 800 600);
    reflexivity.
Defined.

(** A position left of the field is put on the right edge itself, which
    the half-open interval of the claim leaves out. *)
Lemma C1_counterexample :
  ~ (0 <= px (wrapPosition {| px := -1; py := 0 |} 800 600) < 800
     /\ 0 <= py (wrapPosition {| px := -1; py := 0 |} 800 600) < 600).
Proof.
  intros [[_ H] _]. vm_compute in H. discriminate H.
Qed.

(** C2 (as amended).  After a frame in an active phase, with positive
    bounds, every obstacle lies in the closed rectangle
    [0, width] x [0, height]; so does the craft when the frame integrated
    it (phase Playing, craft alive), and so does every power-up except
    one dropped during this frame's collisions where the hostile unit
    was.  Projectiles, homing projectiles, the hostile unit and particles
    are not wrapped. *)
Theorem C2_wrapped_after_frame host render inp w :
  active (gameState render) = true ->
  0 < innerWidth inp -> 0 < innerHeight inp ->
  let w' := animate host render inp w in
  let width := canvasWidth w' in
  let height := canvasHeight w' in
  (width == innerWidth inp /\ height == innerHeight inp)
  /\ Forall (fun a => inField width height (pos a)) (asteroidsRef w')
  /\ Forall (fun p => inField width height (pos p)
                      \/ exists ufo,
                           ufoRef (afterUpdate host render inp w) = Some ufo
                           /\ pos p = pos ufo)
            (powerUpsRef w')
  /\ (gameState render = PLAYING ->
      forall ship, shipRef w = Some ship -> isDead ship = false ->
      exists ship', shipRef w' = Some ship'
                    /\ inField width height (pos ship')).
Proof.
  intros Act Wpos Hpos w' width height.
  subst width height w'. unfold animate, afterUpdate. rewrite Act.
  set (dt := frameDt inp w).
  set (w0 := resize inp (with_previousTimeRef (time inp) w)).
  destruct (resize_canvas inp (with_previousTimeRef (time inp) w)) as [Cw Ch].
  fold w0 in Cw, Ch.
  destruct (resize_refs inp (with_previousTimeRef (time inp) w))
    as (Hs & _). fold w0 in Hs. cbn in Hs.
  assert (0 <= canvasWidth w0 /\ 0 <= canvasHeight w0) as [W0 H0]
    by (rewrite Cw, Ch; split; apply Qlt_le_weak; assumption).
  destruct (update_shape host (gameState render) inp dt w0)
    as (sh' & u' & bs & ms & ps & l & n & k & E & St & _).
  set (wu := update host (gameState render) inp dt w0) in *.
  assert (canvasWidth wu = canvasWidth w0 /\ canvasHeight wu = canvasHeight w0)
    as [Cwu Chu] by (rewrite E; auto).
  assert (Forall (fun a => inField (canvasWidth w0) (canvasHeight w0) (pos a))
                 (asteroidsRef wu)) as Au.
  { rewrite E. cbn [asteroidsRef]. apply Forall_forall. intros a Ia.
    apply in_map_iff in Ia as (a0 & <- & _).
    apply updateAsteroid_inField; assumption. }
  assert (Forall (fun p => inField (canvasWidth w0) (canvasHeight w0) (pos p))
                 (powerUpsRef wu)) as Pu.
  { rewrite E. cbn [powerUpsRef]. apply Forall_forall. intros p Ip.
    apply purge_In in Ip. apply in_map_iff in Ip as (p0 & <- & _).
    apply updatePowerUp_inField; assumption. }
  set (wc := if isPlaying (gameState render)
             then collisions host render inp wu else wu).
  assert (settles render wu wc) as Sc.
  { subst wc. destruct (isPlaying (gameState render));
      [apply collisions_settles | apply settles_refl]. }
  destruct Sc as [[Cwc Chc] _ Ac Pc _ Sh _].
  destruct (levelClear_refs render wc) as (-> & -> & -> & -> & -> & _).
  rewrite Cwc, Chc, Cwu, Chu.
  split; [auto|]. split; [|split].
  - apply Forall_forall. intros a Ia. destruct (Ac a Ia) as (a0 & I0 & ->).
    rewrite Forall_forall in Au. apply Au, I0.
  - apply Forall_forall. intros p Ip.
    destruct (Pc p Ip) as [(p0 & I0 & ->)|[(a0 & I0 & ->)|(u0 & U0 & ->)]].
    + left. rewrite Forall_forall in Pu. apply Pu, I0.
    + left. rewrite Forall_forall in Au. apply Au, I0.
    + right. exists u0. auto.
  - intros G ship S D. rewrite G in *. unfold shipStepped in St.
    rewrite Hs, S, D in St. cbn [isPlaying negb andb] in St.
    destruct St as (su & Esu & _ & _ & P & _).
    assert (shipRef wu = Some su) as Su by (rewrite E; exact Esu).
    unfold hullOpt in Sh. rewrite Su in Sh.
    destruct (shipRef wc) as [sc|]; [|destruct Sh].
    exists sc. split; [reflexivity|].
    destruct Sh as (-> & _). rewrite P.
    apply wrapPosition_inField; assumption.
Qed.

Lemma C2_witness :
  active (gameState (reactIn PLAYING)) = true
  /\ 0 < innerWidth (frameAt 1) /\ 0 < innerHeight (frameAt 1)
  /\ Forall (fun a =>
               inField
                 (canvasWidth (animate sampleHost (reactIn PLAYING)
                                       (frameAt 1) slowWorld))
                 (canvasHeight (animate sampleHost (reactIn PLAYING)
                                        (frameAt 1) slowWorld))
                 (pos a))
            (asteroidsRef (animate sampleHost (reactIn PLAYING) (frameAt 1)
                                   slowWorld)).
Proof.
  split; [reflexivity|]. split; [reflexivity|]. split; [reflexivity|].
  apply (C2_wrapped_after_frame sampleHost (reactIn PLAYING) (frameAt 1)
           slowWorld); reflexivity.
Defined.

(** A craft-owned bullet near the right edge flies out of the field:
    nothing wraps it. *)
Lemma C2_counterexample :
  let w' := animate sampleHost (reactIn GAME_OVER) (frameAt 1) flightWorld in
  ~ Forall (fun b => 0 <= px (pos b) < canvasWidth w'
                     /\ 0 <= py (pos b) < canvasHeight w')
           (bulletsRef w').
Proof.
  intros w' H. vm_compute in H.
  inversion H as [|b l [[_ Hx] _] _]. vm_compute in Hx. discriminate Hx.
Qed.

(** C3 (as amended).  A frame whose craft has a positive time-dilation
    countdown runs, in the phases Playing, GameOver and
    LevelTransition, an update half that advances every obstacle and
    every hostile-owned projectile by 0.3 times the frame's delta and
    every craft-owned projectile by the full delta.  In the Playing
    phase it also advances the hostile unit, its position and its
    countdowns, by 0.3 times the delta (dropping it when that takes it
    past the margin) and a live craft by the full delta, and the frame's
    collisions move none of them.  In GameOver and LevelTransition the
    hostile unit and the craft stay as they were, and in the other
    phases nothing moves. *)
Theorem C3_time_dilation host render inp w ship :
  shipRef w = Some ship -> 0 < powerupTimeSlowTimer ship ->
  let dt := frameDt inp w in
  let slow := dt * 0.3 in
  let U := afterUpdate host render inp w in
  let w' := animate host render inp w in
  (asteroidsRef U
   = map (fun a =>
            setPos (wrapPosition
                      {| px := px (pos a) + px (vel a) * slow;
                         py := py (pos a) + py (vel a) * slow |}
                      (canvasWidth U) (canvasHeight U))
              (setAngle (angle (entity a)
                         + asteroidRotationSpeed a * slow) (advance slow a)))
         (asteroidsRef w)
   /\ (exists fromShip fromUfo,
         bulletsRef U = purge (map (updateBullet slow dt)
                                   (bulletsRef w ++ fromShip ++ fromUfo))
         /\ Forall (fun b => owner b = OwnerShip) fromShip
         /\ Forall (fun b => owner b = OwnerUfo) fromUfo)
   /\ (forall b, owner b = OwnerUfo ->
         pos (updateBullet slow dt b)
         = {| px := px (pos b) + px (vel b) * slow;
              py := py (pos b) + py (vel b) * slow |}
         /\ bulletLife (updateBullet slow dt b) = bulletLife b - slow)
   /\ (forall b, owner b = OwnerShip ->
         pos (updateBullet slow dt b)
         = {| px := px (pos b) + px (vel b) * dt;
              py := py (pos b) + py (vel b) * dt |}
         /\ bulletLife (updateBullet slow dt b) = bulletLife b - dt))
  /\ (gameState render = PLAYING ->
      (forall ufo, ufoRef w = Some ufo ->
         let x := px (pos ufo) + px (vel ufo) * slow in
         let y := py (pos ufo) + py (vel ufo) * slow in
         if (Num.gtb (px (vel ufo)) 0 && Num.gtb x (canvasWidth U + 50))
            || (Num.ltb (px (vel ufo)) 0 && Num.ltb x (-50))
         then ufoRef U = None
         else exists ufo', ufoRef U = Some ufo'
                           /\ pos ufo' = {| px := x; py := y |}
                           /\ (Num.leb (directionChangeTimer ufo - slow) 0
                               = false ->
                               directionChangeTimer ufo'
                               = directionChangeTimer ufo - slow)
                           /\ (Num.leb (shootCooldown ufo - slow) 0 = false ->
                               shootCooldown ufo'
                               = shootCooldown ufo - slow))
      /\ (isDead ship = false ->
          exists ship', shipRef U = Some ship'
            /\ pos ship' = wrapPosition
                             {| px := px (pos ship) + px (vel ship') * dt;
                                py := py (pos ship) + py (vel ship') * dt |}
                             (canvasWidth U) (canvasHeight U)
            /\ invulnerable ship' = countDown dt (invulnerable ship)
            /\ powerupShieldTimer ship'
               = countDown dt (powerupShieldTimer ship))
      /\ w' = levelClear render (collisions host render inp U)
      /\ (forall a, In a (asteroidsRef w') ->
            exists a0, In a0 (asteroidsRef U) /\ pos a = pos a0)
      /\ Forall2 flagged (bulletsRef U) (bulletsRef w')
      /\ (ufoRef w' = ufoRef U \/ ufoRef w' = None)
      /\ hullOpt (shipRef U) (shipRef w'))
  /\ (gameState render = GAME_OVER \/ gameState render = LEVEL_TRANSITION ->
      w' = U /\ ufoRef w' = ufoRef w /\ shipRef w' = Some ship)
  /\ (active (gameState render) = false ->
      asteroidsRef w' = asteroidsRef w /\ bulletsRef w' = bulletsRef w
      /\ ufoRef w' = ufoRef w /\ shipRef w' = Some ship).
Proof.
  intros S T dt slow U w'.
  set (W0 := resize inp (with_previousTimeRef (time inp) w)).
  destruct (resize_refs inp (with_previousTimeRef (time inp) w))
    as (Hs & Hu & Ha & Hb & _).
  fold W0 in Hs, Hu, Ha, Hb. cbn in Hs, Hu, Ha, Hb.
  assert (shipRef W0 = Some ship) as S0 by congruence.
  pose proof (enemyDt_slow W0 dt ship S0 T) as Es. fold slow in Es.
  assert (U = update host (gameState render) inp dt W0) as EU
    by reflexivity.
  destruct (update_shape host (gameState render) inp dt W0)
    as (sh' & u' & bs & ms & ps & l & n & k & E & St & B & _).
  cbn zeta in E, B. rewrite Es in E, B. rewrite <- EU in E.
  assert (canvasWidth U = canvasWidth W0
          /\ canvasHeight U = canvasHeight W0) as [CW CH]
    by (rewrite E; split; reflexivity).
  split; [|split; [|split]].
  - split.
    { rewrite CW, CH, E. cbn [asteroidsRef]. rewrite Ha. reflexivity. }
    split.
    { rewrite E. cbn [bulletsRef]. rewrite <- Hb. exact B. }
    split.
    + intros b O. unfold updateBullet. rewrite O. cbn [ownerIsUfo].
      destruct (Num.leb _ 0); split; reflexivity.
    + intros b O. unfold updateBullet. rewrite O. cbn [ownerIsUfo].
      destruct (Num.leb _ 0); split; reflexivity.
  - intro G. split; [|split].
    + intros ufo Hufo x y. rewrite CW, EU, (update_ufo host), Es.
      replace (isPlaying (gameState render)) with true
        by (rewrite G; reflexivity).
      destruct (shipLogic_keeps host (gameState render) dt W0) as (KU & KC).
      rewrite <- KC.
      apply (ufoLogic_moved host inp slow
               (shipLogic host (gameState render) dt W0) ufo).
      rewrite KU. congruence.
    + intro D. unfold shipStepped in St. rewrite S0 in St.
      destruct St as (ship' & -> & _ & _ & St).
      rewrite G, D in St. cbn [isPlaying negb andb] in St.
      exists ship'. rewrite CW, CH, E.
      split; [reflexivity | exact St].
    + exact (playing_keeps host render inp w G).
  - intro G.
    assert (isPlaying (gameState render) = false
            /\ active (gameState render) = true) as [NP AC]
      by (destruct G as [-> | ->]; split; reflexivity).
    assert (w' = U) as EW.
    { unfold w', animate. rewrite AC, NP. fold dt W0. rewrite <- EU.
      unfold levelClear. rewrite NP.
      destruct (asteroidsRef U); [destruct (ufoRef U)|]; reflexivity. }
    destruct (update_idle host (gameState render) inp dt W0 NP)
      as (_ & _ & _ & _ & _ & _ & IS & IU & _).
    rewrite <- EU in IS, IU. rewrite EW.
    split; [reflexivity|]. split; congruence.
  - intro NA. unfold w', animate. rewrite NA. fold W0.
    rewrite Ha, Hb, Hu, S0. auto.
Qed.

Lemma C3_witness :
  shipRef slowSaucerWorld = Some slowShip
  /\ 0 < powerupTimeSlowTimer slowShip
  /\ exists ufo',
       ufoRef (afterUpdate sampleHost (reactIn PLAYING) (frameAt 1)
                           slowSaucerWorld) = Some ufo'
       /\ pos ufo'
          = {| px := px (pos (saucerAt 600 500))
                     + px (vel (saucerAt 600 500))
                       * (frameDt (frameAt 1) slowSaucerWorld * 0.3);
               py := py (pos (saucerAt 600 500))
                     + py (vel (saucerAt 600 500))
                       * (frameDt (frameAt 1) slowSaucerWorld * 0.3) |}.
Proof.
  split; [reflexivity|]. split; [reflexivity|].
  destruct (C3_time_dilation sampleHost (reactIn PLAYING) (frameAt 1)
              slowSaucerWorld slowShip eq_refl eq_refl) as (_ & P & _).
  destruct (P eq_refl) as (Hu & _).
  specialize (Hu (saucerAt 600 500) eq_refl). cbv zeta in Hu.
  match type of Hu with
  | if ?c then _ else _ =>
      assert (c = false) as Ec by (vm_compute; reflexivity);
      rewrite Ec in Hu
  end.
  destruct Hu as (ufo' & E & P' & _). exists ufo'. split; assumption.
Defined.

(** A GameOver frame under time dilation: the countdown of the craft is
    positive and the hostile unit has a speed, but the frame leaves the
    unit where it was. *)
Lemma C3_counterexample :
  let w := slowWreckWorld in
  let w' := animate sampleHost (reactIn GAME_OVER) (frameAt 1) w in
  (exists ship, shipRef w = Some ship /\ 0 < powerupTimeSlowTimer ship)
  /\ frameDt (frameAt 1) w == 0.1
  /\ exists ufo ufo',
       ufoRef w = Some ufo /\ ufoRef w' = Some ufo'
       /\ pos ufo' = pos ufo
       /\ ~ px (pos ufo')
            == px (pos ufo) + px (vel ufo) * (frameDt (frameAt 1) w * 0.3).
Proof.
  cbv zeta. split; [exists (kill slowShip); split; reflexivity|].
  split; [reflexivity|].
  exists (saucerAt 600 500), (saucerAt 600 500).
  split; [reflexivity|]. split; [vm_compute; reflexivity|].
  split; [reflexivity|]. intro H. vm_compute in H. discriminate H.
Qed.

(** C4.  In a Playing frame, the turn of a live craft-owned projectile
    that overlaps a live obstacle (the first it overlaps, in list order)
    marks both dead, raises the score by the class value (large 20,
    medium 50, small 100), and appends to the obstacles exactly two live
    children of the next-smaller class at the parent's position when
    the obstacle is large or medium, and none when it is small.  The
    pass over the bullets is the turns before, this one and the turns
    after, followed by the purge of the dead obstacles; when the frame
    ends the projectile is in its place in the list, dead, and the
    score is at least the class value above what it was. *)
Theorem C4_bullet_splits_obstacle host render inp w bs1 b bs2 pre a post :
  gameState render = PLAYING ->
  let W := beforeBullets host render inp w in
  bulletsRef W = bs1 ++ b :: bs2 ->
  let before := bulletsLoop host render inp bs1 W in
  let w1 := snd before in
  isDead b = false -> owner b = OwnerShip ->
  asteroidsRef w1 = pre ++ a :: post ->
  Forall (fun x => negb (isDead x) && collide b x = false) pre ->
  isDead a = false -> collide b a = true ->
  let turn := bulletStep host render inp b w1 in
  let w2 := snd turn in
  let after := bulletsLoop host render inp bs2 w2 in
  let w' := animate host render inp w in
  fst turn = kill b /\ isDead (kill b) = true
  /\ score (react w2)
     = (score (react w1)
        + match size a with large => 20 | medium => 50 | small => 100 end)%Z
  /\ (exists children,
        asteroidsRef w2 = pre ++ kill a :: post ++ children
        /\ isDead (kill a) = true
        /\ List.length children
           = match size a with small => 0%nat | _ => 2%nat end
        /\ Forall (fun c => pos c = pos a
                            /\ size c = match size a with
                                        | large => medium
                                        | _ => small
                                        end
                            /\ isDead c = false) children)
  /\ bulletsCollision host render inp W
     = with_asteroidsRef (purge (asteroidsRef (snd after)))
         (with_bulletsRef (fst before ++ kill b :: fst after) (snd after))
  /\ w' = levelClear render
            (shipVsBodies host render inp
               (missilesCollision host inp
                  (bulletsCollision host render inp W)))
  /\ nth_error (bulletsRef w') (List.length bs1) = Some (kill b)
  /\ Forall (fun x => isDead x = false)
            (asteroidsRef (bulletsCollision host render inp W))
  /\ (score (react w)
      + match size a with large => 20 | medium => 50 | small => 100 end
      <= score (react w'))%Z.
Proof.
  intros G W EB before w1 Db Ob EA Hpre Da Ca turn w2 after w'.
  assert (firstHit (fun x => negb (isDead x) && collide b x) (asteroidsRef w1)
          = Some (pre, a, post)) as F.
  { rewrite EA. apply firstHit_intro; [|exact Hpre]. rewrite Da, Ca.
    reflexivity. }
  destruct (bulletVsAsteroids_hit host b w1 pre a post F)
    as (cs & pus & ps & k & Eb & (Len & Kids) & _).
  assert (turn = (kill b, snd (bulletVsAsteroids host b w1))) as ET.
  { unfold turn, bulletStep. rewrite Db, Ob. cbn [ownerIsShip].
    rewrite Eb. rewrite (bulletVsUfo_dead host) by reflexivity.
    rewrite (ufoBulletVsShip_shipOwned host) by exact Ob. reflexivity. }
  assert (fst turn = kill b) as E1 by (rewrite ET; reflexivity).
  assert (score (react w2)
          = (score (react w1)
             + match size a with large => 20 | medium => 50 | small => 100 end)%Z)
    as E2.
  { unfold w2. rewrite ET, Eb. cbn. destruct (size a); reflexivity. }
  assert (bulletsCollision host render inp W
          = with_asteroidsRef (purge (asteroidsRef (snd after)))
              (with_bulletsRef (fst before ++ kill b :: fst after)
                               (snd after))) as E4.
  { unfold bulletsCollision. rewrite EB.
    rewrite (bulletsLoop_app host render inp).
    rewrite (bulletsLoop_cons host render inp).
    fold before. fold w1. fold turn. fold w2. fold after. rewrite E1.
    reflexivity. }
  split; [exact E1|]. split; [reflexivity|]. split; [exact E2|]. split.
  { exists cs. unfold w2. rewrite ET, Eb. cbn [snd].
    split; [reflexivity|]. split; [reflexivity|]. split; [exact Len|].
    eapply Forall_impl; [|exact Kids]. cbn beta.
    intros c (P & S & D & _). unfold nextSize in S. auto. }
  split; [exact E4|].
  split; [exact (playing_frame_bullets host render inp w G)|].
  split.
  { unfold w'. rewrite (frame_bullets host render inp w G).
    unfold beforeMissiles. fold W. rewrite E4.
    change (bulletsRef (with_asteroidsRef ?l (with_bulletsRef ?bs ?x)))
      with bs.
    replace (List.length bs1) with (List.length (fst before)).
    - apply nth_error_middle.
    - apply Forall2_flagged_length, bulletsLoop_flagged. }
  split.
  { rewrite E4. apply purge_alive. }
  assert (gains w w1) as G1.
  { eapply gains_trans; [apply (beforeBullets_gains host render inp)|].
    apply bulletsLoop_gains. }
  assert (gains w2 (snd after)) as G2 by apply bulletsLoop_gains.
  pose proof (bulletsTail_gains host render inp w G W eq_refl
                (snd after) _ E4) as G3.
  unfold gains in *. fold w' in G3. lia.
Qed.

Lemma C4_witness :
  let w' := animate sampleHost (reactIn PLAYING) (frameAt 1) shotWorld in
  nth_error (bulletsRef w') 0 = Some (kill shotBullet)
  /\ (score (react shotWorld) + 20 <= score (react w'))%Z.
Proof.
  intro w'.
  destruct (C4_bullet_splits_obstacle sampleHost (reactIn PLAYING)
              (frameAt 1) shotWorld [] shotBullet []
              [fst updatedRocks] (snd updatedRocks) [])
    as (_ & _ & _ & _ & _ & _ & N & _ & S).
  - reflexivity.
  - vm_compute. reflexivity.
  - reflexivity.
  - reflexivity.
  - vm_compute. reflexivity.
  - repeat constructor.
  - reflexivity.
  - vm_compute. reflexivity.
  - split; [exact N | exact S].
Defined.




(** C6.  In a Playing frame, the turn of a live homing projectile that
    overlaps a live obstacle of any class (and not the hostile unit)
    marks both dead, leaves the obstacle list otherwise as it was (no
    children; the dead obstacle is still in the list, dead, when the
    frame ends) and awards 50 points; the turn of one that overlaps the
    hostile unit empties the unit's slot for the rest of the frame and
    awards 500 points, as the turn of a craft's projectile that hits
    the unit does.  The points stay in the frame's score. *)
Theorem C6_homing_hits host render inp w :
  gameState render = PLAYING ->
  let w' := animate host render inp w in
  let M := beforeMissiles host render inp w in
  let W := beforeBullets host render inp w in
  (forall ms1 m ms2 pre a post,
     missilesRef M = ms1 ++ m :: ms2 ->
     let before := missilesLoop host inp ms1 M in
     let w1 := snd before in
     isDead m = false ->
     (forall ufo, ufoRef w1 = Some ufo -> collide m ufo = false) ->
     asteroidsRef w1 = pre ++ a :: post ->
     Forall (fun x => negb (isDead x) && collide m x = false) pre ->
     isDead a = false -> collide m a = true ->
     let turn := missileStep host inp m w1 in
     let w2 := snd turn in
     let after := missilesLoop host inp ms2 w2 in
     fst turn = kill m /\ isDead (kill m) = true
     /\ asteroidsRef w2 = pre ++ kill a :: post
     /\ isDead (kill a) = true
     /\ score (react w2) = (score (react w1) + 50)%Z
     /\ missilesCollision host inp M
        = with_missilesRef (fst before ++ kill m :: fst after) (snd after)
     /\ nth_error (missilesRef w') (List.length ms1) = Some (kill m)
     /\ nth_error (asteroidsRef w') (List.length pre) = Some (kill a)
     /\ List.length (asteroidsRef w') = List.length (asteroidsRef w1)
     /\ (score (react w) + 50 <= score (react w'))%Z)
  /\ (forall ms1 m ms2 ufo,
        missilesRef M = ms1 ++ m :: ms2 ->
        let before := missilesLoop host inp ms1 M in
        let w1 := snd before in
        isDead m = false -> ufoRef w1 = Some ufo -> collide m ufo = true ->
        let turn := missileStep host inp m w1 in
        let w2 := snd turn in
        let after := missilesLoop host inp ms2 w2 in
        fst turn = kill m /\ ufoRef w2 = None
        /\ asteroidsRef w2 = asteroidsRef w1
        /\ score (react w2) = (score (react w1) + 500)%Z
        /\ missilesCollision host inp M
           = with_missilesRef (fst before ++ kill m :: fst after)
                              (snd after)
        /\ nth_error (missilesRef w') (List.length ms1) = Some (kill m)
        /\ ufoRef w' = None
        /\ (score (react w) + 500 <= score (react w'))%Z)
  /\ (forall bs1 b bs2 ufo,
        bulletsRef W = bs1 ++ b :: bs2 ->
        let before := bulletsLoop host render inp bs1 W in
        let w1 := snd before in
        isDead b = false -> owner b = OwnerShip ->
        Forall (fun x => negb (isDead x) && collide b x = false)
               (asteroidsRef w1) ->
        ufoRef w1 = Some ufo -> collide b ufo = true ->
        let turn := bulletStep host render inp b w1 in
        let w2 := snd turn in
        fst turn = kill b /\ ufoRef w2 = None
        /\ asteroidsRef w2 = asteroidsRef w1
        /\ score (react w2) = (score (react w1) + 500)%Z
        /\ nth_error (bulletsRef w') (List.length bs1) = Some (kill b)
        /\ ufoRef w' = None
        /\ (score (react w) + 500 <= score (react w'))%Z).
Proof.
  intros G w' M W. split; [|split].
  - intros ms1 m ms2 pre a post EM before w1 Dm U E Hpre Da Ca turn w2 after.
    destruct (missile_frame host render inp w ms1 m ms2 G EM)
      as (EC & _ & N & (RL & RK) & _ & G1 & G2).
    fold M before w1 turn w2 after w' in EC, N, RL, RK, G1, G2.
    assert (firstHit (fun x => negb (isDead x) && collide m x)
                     (asteroidsRef w1) = Some (pre, a, post)) as F.
    { rewrite E. apply firstHit_intro; [|exact Hpre]. rewrite Da, Ca.
      reflexivity. }
    destruct (missileVsAsteroids_hit host m w1 pre a post F)
      as (ps & k & Em).
    assert (turn = missileVsAsteroids host m w1) as ET.
    { unfold turn, missileStep. rewrite Dm.
      destruct (ufoRef w1) as [ufo|]; [|reflexivity].
      rewrite (U ufo eq_refl). reflexivity. }
    assert (fst turn = kill m) as E1 by (rewrite ET, Em; reflexivity).
    assert (asteroidsRef w2 = pre ++ kill a :: post) as E2
      by (unfold w2; rewrite ET, Em; reflexivity).
    assert (score (react w2) = (score (react w1) + 50)%Z) as E3
      by (unfold w2; rewrite ET, Em; reflexivity).
    rewrite E1 in EC, N.
    split; [exact E1|]. split; [reflexivity|]. split; [exact E2|].
    split; [reflexivity|]. split; [exact E3|]. split; [exact EC|].
    split; [exact N|]. split.
    { apply RK. rewrite E2. apply nth_error_middle. }
    split.
    { rewrite RL, E2, E, !length_app. reflexivity. }
    unfold gains in *. lia.
  - intros ms1 m ms2 ufo EM before w1 Dm U C turn w2 after.
    destruct (missile_frame host render inp w ms1 m ms2 G EM)
      as (EC & _ & N & _ & UG & G1 & G2).
    fold M before w1 turn w2 after w' in EC, N, UG, G1, G2.
    destruct (missileVsUfo_shape host inp ufo w1) as (pus & ps & k & E).
    assert (turn = (kill m, missileVsUfo host inp ufo w1)) as ET.
    { unfold turn, missileStep. rewrite Dm, U, C. reflexivity. }
    assert (fst turn = kill m) as E1 by (rewrite ET; reflexivity).
    assert (ufoRef w2 = None) as E2
      by (unfold w2; rewrite ET; cbn [snd]; rewrite E; reflexivity).
    assert (score (react w2) = (score (react w1) + 500)%Z) as E3
      by (unfold w2; rewrite ET; cbn [snd]; rewrite E; reflexivity).
    rewrite E1 in EC, N.
    split; [exact E1|]. split; [exact E2|]. split.
    { unfold w2. rewrite ET. cbn [snd]. rewrite E. reflexivity. }
    split; [exact E3|]. split; [exact EC|]. split; [exact N|].
    split; [exact (UG E2)|]. unfold gains in *. lia.
  - intros bs1 b bs2 ufo EB before w1 Db Ob Hmiss U C turn w2.
    destruct (bullet_frame host render inp w bs1 b bs2 G EB)
      as (_ & _ & N & UG & G1 & G2).
    fold W before w1 turn w2 w' in N, UG, G1, G2.
    assert (firstHit (fun x => negb (isDead x) && collide b x)
                     (asteroidsRef w1) = None) as F.
    { clear - Hmiss. induction Hmiss as [|x l Hx _ IH]; [reflexivity|].
      cbn [firstHit]. rewrite Hx, IH. reflexivity. }
    destruct (bulletVsUfo_hit host inp b ufo w1 U Db C)
      as (pus & ps & k & E).
    assert (turn = (kill b, snd (bulletVsUfo host inp b w1))) as ET.
    { unfold turn, bulletStep. rewrite Db, Ob. cbn [ownerIsShip].
      rewrite (bulletVsAsteroids_miss host b w1 F).
      rewrite E. rewrite (ufoBulletVsShip_shipOwned host) by exact Ob.
      reflexivity. }
    assert (fst turn = kill b) as E1 by (rewrite ET; reflexivity).
    assert (ufoRef w2 = None) as E2
      by (unfold w2; rewrite ET, E; reflexivity).
    assert (score (react w2) = (score (react w1) + 500)%Z) as E3
      by (unfold w2; rewrite ET, E; reflexivity).
    rewrite E1 in N.
    split; [exact E1|]. split; [exact E2|]. split.
    { unfold w2. rewrite ET, E. reflexivity. }
    split; [exact E3|]. split; [exact N|]. split; [exact (UG E2)|].
    unfold gains in *. lia.
Qed.

Lemma C6_witness :
  let w' := animate sampleHost (reactIn PLAYING) (frameAt 1) homingWorld in
  nth_error (missilesRef w') 0 = Some (kill homedMissile)
  /\ nth_error (asteroidsRef w') 1 = Some (kill (snd updatedRocks))
  /\ List.length (asteroidsRef w') = 2%nat
  /\ (score (react homingWorld) + 50 <= score (react w'))%Z.
Proof.
  intro w'.
  destruct (proj1 (C6_homing_hits sampleHost (reactIn PLAYING) (frameAt 1)
                     homingWorld eq_refl)
              [] homedMissile [] [fst updatedRocks] (snd updatedRocks) [])
    as (_ & _ & _ & _ & _ & _ & N & A & L & S).
  - vm_compute. reflexivity.
  - reflexivity.
  - intros ufo U. vm_compute in U. injection U as <-.
    vm_compute. reflexivity.
  - vm_compute. reflexivity.
  - repeat constructor.
  - reflexivity.
  - vm_compute. reflexivity.
  - split; [exact N|]. split; [exact A|]. split; [|exact S].
    unfold w'. rewrite L. vm_compute. reflexivity.
Defined.

(** C7.  While the craft's shield countdown is positive, collision
    resolution neither marks the craft dead nor reduces lives (nor
    schedules a respawn or a game-over), whatever overlaps it; this
    holds for the whole frame when the countdown outlasts the frame's
    delta.  A live hostile-owned projectile that overlaps the enlarged
    shield radius (2x the craft's) is marked dead and nothing else is
    written, the craft being alive and its invulnerability countdown
    not positive (while it is positive the check is skipped); in a
    Playing frame that projectile is dead in the frame's list, and the
    craft is alive with the lives it had. *)
Theorem C7_shield_protects host render inp :
  (forall w ship,
     shipRef w = Some ship -> 0 < powerupShieldTimer ship ->
     let w' := collisions host render inp w in
     lives (react w') = lives (react w) /\ shipAlive w' = shipAlive w
     /\ timers w' = timers w)
  /\ (forall w ship,
        shipRef w = Some ship -> 0 < powerupShieldTimer ship ->
        frameDt inp w < powerupShieldTimer ship ->
        let w' := animate host render inp w in
        lives (react w') = lives (react w) /\ shipAlive w' = shipAlive w)
  /\ (forall b w ship,
        shipRef w = Some ship -> isDead ship = false ->
        invulnerable ship <= 0 -> 0 < powerupShieldTimer ship ->
        owner b = OwnerUfo -> isDead b = false ->
        checkCollision (pos b) (rad b) (pos ship) (rad ship * 2) = true ->
        bulletStep host render inp b w = (kill b, w))
  /\ (forall w bs1 b bs2 ship,
        gameState render = PLAYING ->
        let W := beforeBullets host render inp w in
        bulletsRef W = bs1 ++ b :: bs2 ->
        let before := bulletsLoop host render inp bs1 W in
        let w1 := snd before in
        shipRef w1 = Some ship -> isDead ship = false ->
        invulnerable ship <= 0 -> 0 < powerupShieldTimer ship ->
        owner b = OwnerUfo -> isDead b = false ->
        checkCollision (pos b) (rad b) (pos ship) (rad ship * 2) = true ->
        let after := bulletsLoop host render inp bs2 w1 in
        let w' := animate host render inp w in
        bulletsCollision host render inp W
        = with_asteroidsRef (purge (asteroidsRef (snd after)))
            (with_bulletsRef (fst before ++ kill b :: fst after)
                             (snd after))
        /\ nth_error (bulletsRef w') (List.length bs1) = Some (kill b)
        /\ isDead (kill b) = true
        /\ lives (react w') = lives (react w1)
        /\ shipAlive w' = true).
Proof.
  assert (forall b w ship,
            shipRef w = Some ship -> isDead ship = false ->
            invulnerable ship <= 0 -> 0 < powerupShieldTimer ship ->
            owner b = OwnerUfo -> isDead b = false ->
            checkCollision (pos b) (rad b) (pos ship) (rad ship * 2) = true ->
            bulletStep host render inp b w = (kill b, w)) as Turn.
  { intros b w ship S Ds Inv Sh Ob Db C. unfold bulletStep.
    rewrite Db, Ob. cbn [ownerIsShip]. unfold ufoBulletVsShip.
    rewrite S, Ob, Ds. cbn [ownerIsUfo negb andb].
    apply NumFacts.leb_le in Inv. rewrite Inv.
    apply NumFacts.gtb_gt in Sh. rewrite Sh, C. reflexivity. }
  split; [|split; [|split; [exact Turn|]]].
  - intros w ship S Sh w'.
    destruct (collisions_shielded host render inp w ship S Sh) as (L & _ & T & A).
    auto.
  - intros w ship S Sh Hdt w'. subst w'. rewrite animate_levelClear.
    unfold beforeLevelClear.
    set (dt := frameDt inp w) in *.
    set (w0 := resize inp (with_previousTimeRef (time inp) w)).
    destruct (resize_refs inp (with_previousTimeRef (time inp) w))
      as (Hs & _ & _ & _ & _ & _ & _ & _ & Hr & _).
    fold w0 in Hs, Hr. cbn in Hs, Hr.
    assert (shipAlive w0 = shipAlive w) as A0
      by (unfold shipAlive; rewrite Hs; reflexivity).
    destruct (active (gameState render)); [|rewrite Hr; auto].
    destruct (update_shape host (gameState render) inp dt w0)
      as (sh' & u' & bs & ms & ps & l & n & k & E & St & _).
    set (wu := update host (gameState render) inp dt w0) in *.
    assert (shipAlive wu = shipAlive w0) as Au.
    { eapply shipStepped_alive. rewrite E. exact St. }
    assert (lives (react wu) = lives (react w)) as Lu
      by (rewrite E; cbn; rewrite Hr; reflexivity).
    assert (exists su, shipRef wu = Some su /\ 0 < powerupShieldTimer su)
      as (su & Su & Shu).
    { rewrite E. cbn. unfold shipStepped in St. rewrite Hs, S in St.
      destruct St as (su & -> & _ & _ & St). exists su. split; [reflexivity|].
      destruct (isPlaying (gameState render) && negb (isDead ship)).
      - destruct St as (_ & _ & ->). unfold countDown.
        destruct (Num.gtb (powerupShieldTimer ship) 0); lra.
      - rewrite St. exact Sh. }
    destruct (levelClear_life render
                (if isPlaying (gameState render)
                 then collisions host render inp wu else wu)) as (-> & ->).
    destruct (isPlaying (gameState render)).
    + destruct (collisions_shielded host render inp wu su Su Shu)
        as (L & _ & _ & A). split; congruence.
    + split; congruence.
  - intros w bs1 b bs2 ship G W EB before w1 S Ds Inv Sh Ob Db C after w'.
    pose proof (Turn b w1 ship S Ds Inv Sh Ob Db C) as ET.
    destruct (bullet_frame host render inp w bs1 b bs2 G EB)
      as (E & EW & N & _).
    fold W before w1 w' in E, EW, N. rewrite ET in E, N.
    cbn [fst snd] in E, N. fold after in E.
    split; [exact E|]. split; [exact N|]. split; [reflexivity|].
    rewrite E in EW.
    destruct (settles_shielded render w1 _ ship
                (rest_settles host render inp bs2
                   (fst before ++ kill b :: fst after) w1) S Sh)
      as ((L & _ & _ & A) & _).
    fold after in L, A.
    destruct (levelClear_life render
                (shipVsBodies host render inp
                   (missilesCollision host inp
                      (with_asteroidsRef (purge (asteroidsRef (snd after)))
                         (with_bulletsRef
                            (fst before ++ kill b :: fst after)
                            (snd after)))))) as (L' & A').
    rewrite <- EW in L', A'. rewrite L', A', L, A.
    split; [reflexivity|]. unfold shipAlive. rewrite S, Ds. reflexivity.
Qed.

Lemma C7_witness :
  let w' := animate sampleHost (reactIn PLAYING) (frameAt 1)
                    shieldHitWorld in
  nth_error (bulletsRef w') 0 = Some (kill shieldHitBullet)
  /\ lives (react w') = 3%Z /\ shipAlive w' = true.
Proof.
  intro w'.
  destruct (proj2 (proj2 (proj2 (C7_shield_protects sampleHost
                                   (reactIn PLAYING) (frameAt 1))))
              shieldHitWorld [] shieldHitBullet [] shieldHitShip)
    as (_ & N & _ & L & A).
  - reflexivity.
  - vm_compute. reflexivity.
  - vm_compute. reflexivity.
  - reflexivity.
  - vm_compute. discriminate.
  - reflexivity.
  - reflexivity.
  - reflexivity.
  - vm_compute. reflexivity.
  - split; [exact N|]. split; [|exact A]. unfold w'. rewrite L.
    reflexivity.
Defined.

(** C8.  On every state the page can reach the life count is not
    negative, a craft without lives left is dead, and at most one
    game-over continuation is pending.  Whatever overlaps the craft, a
    frame takes at most one life: either it takes none and schedules
    nothing, or the craft was alive and is now dead, one life is gone, and
    exactly one callback is scheduled -- the continuation of the
    game-over transition when no life is left, one deferred respawn
    otherwise.  The transition does not hold the phase, though: when the
    last life is lost on the hostile unit with no obstacle left
    ([ramSys]), the level-clear check of the same frame starts the next
    level, and once its callback has run the phase is Playing with no
    life left and a dead craft, the game-over continuation still
    pending. *)
Theorem C8_lives_and_game_over host :
  (forall s, reachable host s ->
     (0 <= lives (react (world s)))%Z
     /\ ((lives (react (world s)) <= 0)%Z -> shipAlive (world s) = false)
     /\ (pending isGameOver (world s) <= 1)%nat)
  /\ (forall render inp w,
        let w' := animate host render inp w in
        (lives (react w') = lives (react w) /\ shipAlive w' = shipAlive w
         /\ pending isGameOver w' = pending isGameOver w
         /\ pending isRespawn w' = pending isRespawn w)
        \/ (gameState render = PLAYING
            /\ shipAlive w = true /\ shipAlive w' = false
            /\ lives (react w') = (lives (react w) - 1)%Z
            /\ if (lives (react w') <=? 0)%Z
               then pending isGameOver w' = (pending isGameOver w + 1)%nat
                    /\ pending isRespawn w' = pending isRespawn w
               else pending isGameOver w' = pending isGameOver w
                    /\ pending isRespawn w'
                       = (pending isRespawn w + 1)%nat))
  /\ (let w' := animate sampleHost (render ramSys) (frameAt 1)
                        (world ramSys) in
      phase ramSys = PLAYING /\ lives (react (world ramSys)) = 1%Z
      /\ shipAlive (world ramSys) = true
      /\ lives (react w') = 0%Z /\ shipAlive w' = false
      /\ asteroidsRef w' = [] /\ ufoRef w' = None
      /\ pending isGameOver w' = 1%nat
      /\ In (TNextLevel 2) (timers w')
      /\ exists s, run sampleHost ramRun ramSys = Some s
                   /\ phase s = PLAYING
                   /\ lives (react (world s)) = 0%Z
                   /\ shipAlive (world s) = false
                   /\ level (react (world s)) = 2%Z
                   /\ pending isGameOver (world s) = 1%nat).
Proof.
  split; [|split].
  - intros s R. destruct (reachable_Inv host s R) as [_ L A _ O].
    split; [exact L|]. split.
    + intro Z. destruct (shipAlive (world s)); [|reflexivity].
      destruct (A eq_refl) as (? & _). lia.
    + destruct O as [->|(-> & _)]; lia.
  - intros render inp w w'.
    destruct (frame_deaths host render inp w) as [N|(G & A & A' & L & P)];
      [left; exact N|].
    right. fold w' in A', L, P.
    split; [exact G|]. split; [exact A|]. split; [exact A'|].
    split; [exact L|].
    destruct (lives (react w') <=? 0)%Z; [|exact P].
    destruct P as (P1 & P2 & _). split; assumption.
  - cbv zeta.
    split; [reflexivity|]. split; [reflexivity|]. split; [reflexivity|].
    split; [vm_compute; reflexivity|]. split; [vm_compute; reflexivity|].
    split; [vm_compute; reflexivity|]. split; [vm_compute; reflexivity|].
    split; [vm_compute; reflexivity|].
    split; [vm_compute; right; left; reflexivity|].
    eexists. split; [vm_compute; reflexivity|].
    repeat split; reflexivity.
Qed.

Lemma C8_witness :
  lives (react (world deathScene)) = 2%Z
  /\ (0 <= lives (react (world deathScene)))%Z
  /\ (pending isGameOver (world deathScene) <= 1)%nat.
Proof.
  split; [reflexivity|].
  destruct (proj1 (C8_lives_and_game_over sampleHost) deathScene
              deathScene_reachable) as (L & _ & O).
  split; [exact L | exact O].
Defined.

(** C9.  On every state the page can reach, a pending deferred respawn
    finds the life count positive, the phase Playing or LevelTransition,
    no game-over pending and the craft dead; no respawn is pending once
    the game has ended (phase GameOver, EnterInitials or HighScores, or no
    life left); and a deferred callback brings a craft to life only with
    a positive life count and outside those phases. *)
Theorem C9_deferred_respawn host s :
  reachable host s ->
  (forall i l,
     nth_error (timers (world s)) i = Some (TRespawn l) ->
     (0 < lives (react (world s)))%Z
     /\ (phase s = PLAYING \/ phase s = LEVEL_TRANSITION)
     /\ pending isGameOver (world s) = 0%nat
     /\ shipAlive (world s) = false)
  /\ (phase s = GAME_OVER \/ phase s = ENTER_INITIALS
      \/ phase s = HIGH_SCORES \/ (lives (react (world s)) <= 0)%Z ->
      pending isRespawn (world s) = 0%nat)
  /\ (forall i fuel tnow s',
        step host (ETimer i fuel tnow) s = Some s' ->
        shipAlive (world s) = false -> shipAlive (world s') = true ->
        (0 < lives (react (world s)))%Z
        /\ (phase s = PLAYING \/ phase s = LEVEL_TRANSITION)).
Proof.
  intro R. destruct (reachable_Inv host s R) as [_ L A Rs O].
  assert (forall i l,
            nth_error (timers (world s)) i = Some (TRespawn l) ->
            (0 < lives (react (world s)))%Z
            /\ (phase s = PLAYING \/ phase s = LEVEL_TRANSITION)
            /\ pending isGameOver (world s) = 0%nat
            /\ shipAlive (world s) = false) as P1.
  { intros i l N.
    pose proof (nth_error_pending isRespawn i _ (world s) N eq_refl) as P.
    destruct Rs as [Z|(_ & D & L1 & G)]; [lia|].
    split; [lia|]. split; [exact G|]. split; [|exact D].
    destruct O as [Z|(_ & _ & L0 & _)]; [exact Z | lia]. }
  split; [exact P1|]. split.
  - intro E. destruct Rs as [Z|(_ & _ & L1 & G)]; [exact Z|]. exfalso.
    destruct E as [E|[E|[E|E]]]; try lia;
      destruct G as [G|G]; congruence.
  - intros i fuel tnow s' St D D'. cbn [step] in St.
    destruct (nth_error (timers (world s)) i) as [t|] eqn:N;
      [|discriminate St].
    destruct (runTimer host fuel tnow t _) as [w'|] eqn:Rt;
      [|discriminate St].
    injection St as <-. cbn [world commit] in D'.
    destruct (isRespawn t) eqn:Rp.
    + destruct t; try discriminate Rp.
      destruct (P1 i _ N) as (? & ? & _). auto.
    + rewrite (runTimer_alive host fuel tnow t _ w' Rt Rp) in D'.
      change (shipAlive (timerOff i (world s))) with (shipAlive (world s))
        in D'. congruence.
Qed.

Lemma C9_witness :
  nth_error (timers (world deathScene)) 0 = Some (TRespawn 3)
  /\ (0 < lives (react (world deathScene)))%Z
  /\ (phase deathScene = PLAYING \/ phase deathScene = LEVEL_TRANSITION)
  /\ shipAlive (world deathScene) = false.
Proof.
  split; [reflexivity|].
  destruct (proj1 (C9_deferred_respawn sampleHost deathScene
                     deathScene_reachable) 0%nat 3%Z eq_refl)
    as (L & P & _ & A).
  split; [exact L|]. split; [exact P | exact A].
Defined.

(** C10 (as amended).  In the GameOver and LevelTransition phases a
    frame integrates, expires and purges projectiles, homing projectiles,
    power-ups and particles and integrates (and wraps) obstacles, which it
    neither expires nor purges; it resolves no collision, and leaves the
    score, the lives, the level, the phase, the craft, the hostile unit
    and the pending callbacks as they were.  In every phase but Playing a
    frame leaves the craft, the hostile unit, the level, the phase and the
    pending callbacks untouched. *)
Theorem C10_idle_phases host render inp w :
  let w' := animate host render inp w in
  (gameState render = GAME_OVER \/ gameState render = LEVEL_TRANSITION ->
   let dt := frameDt inp w in
   let edt := enemyDt w dt in
   let w0 := resize inp (with_previousTimeRef (time inp) w) in
   let smoke := updateMissiles host dt (missilesRef w)
                  (bulletsUpdate edt dt w0) in
   bulletsRef w' = purge (map (updateBullet edt dt) (bulletsRef w))
   /\ missilesRef w' = purge (fst smoke)
   /\ asteroidsRef w'
      = map (updateAsteroid edt (canvasWidth w0) (canvasHeight w0))
            (asteroidsRef w)
   /\ powerUpsRef w'
      = purge (map (updatePowerUp dt (canvasWidth w0) (canvasHeight w0))
                   (powerUpsRef w))
   /\ particlesRef w'
      = purge (map (updateParticle dt) (particlesRef (snd smoke)))
   /\ react w' = react w)
  /\ (gameState render <> PLAYING ->
      shipRef w' = shipRef w /\ ufoRef w' = ufoRef w
      /\ level (react w') = level (react w)
      /\ gameState (react w') = gameState (react w)
      /\ score (react w') = score (react w)
      /\ lives (react w') = lives (react w)
      /\ timers w' = timers w).
Proof.
  intro w'. split.
  - intros G dt edt w0 smoke.
    destruct (idle_frame host render inp w G) as (B & M & A & P & Pa & R & _).
    auto 10.
  - intro G. destruct (gameState render) eqn:Eg; try congruence.
    + subst w'. unfold animate. rewrite Eg. cbn [active].
      destruct (resize_refs inp (with_previousTimeRef (time inp) w))
        as (Hs & Hu & _ & _ & _ & _ & _ & Ht & Hr & _).
      cbn in Hs, Hu, Ht, Hr. rewrite Hs, Hu, Ht, Hr. auto 10.
    + destruct (idle_frame host render inp w (or_introl Eg))
        as (_ & _ & _ & _ & _ & R & S & U & T).
      fold w' in R, S, U, T. rewrite R, S, U, T. auto 10.
    + subst w'. unfold animate. rewrite Eg. cbn [active].
      destruct (resize_refs inp (with_previousTimeRef (time inp) w))
        as (Hs & Hu & _ & _ & _ & _ & _ & Ht & Hr & _).
      cbn in Hs, Hu, Ht, Hr. rewrite Hs, Hu, Ht, Hr. auto 10.
    + subst w'. unfold animate. rewrite Eg. cbn [active].
      destruct (resize_refs inp (with_previousTimeRef (time inp) w))
        as (Hs & Hu & _ & _ & _ & _ & _ & Ht & Hr & _).
      cbn in Hs, Hu, Ht, Hr. rewrite Hs, Hu, Ht, Hr. auto 10.
    + destruct (idle_frame host render inp w (or_intror Eg))
        as (_ & _ & _ & _ & _ & R & S & U & T).
      fold w' in R, S, U, T. rewrite R, S, U, T. auto 10.
Qed.

Lemma C10_witness :
  gameState (reactIn GAME_OVER) = GAME_OVER
  /\ react (animate sampleHost (reactIn GAME_OVER) (frameAt 1) flightWorld)
     = react flightWorld.
Proof.
  split; [reflexivity|].
  destruct (proj1 (C10_idle_phases sampleHost (reactIn GAME_OVER) (frameAt 1)
                     flightWorld) (or_introl eq_refl))
    as (_ & _ & _ & _ & _ & R).
  exact R.
Defined.

(** An obstacle marked dead stays in its collection through a GameOver
    frame: nothing purges obstacles outside the collision block. *)
Lemma C10_counterexample :
  existsb (fun a => isDead a)
          (asteroidsRef (animate sampleHost (reactIn GAME_OVER) (frameAt 1)
                                 wreckWorld)) = true.
Proof. vm_compute. reflexivity. Qed.
